(** * zkSync Era n8n node: unit conversion and the polling cursor

    A shallow embedding of the parts of the repository that carry logic:

    - [utils/unitConverter.ts]   ([convertUnits], [calculateTxCost], ...),
    - [constants/networks.ts]    ([NETWORKS], [getNetworkConfig]),
    - [transport/zksyncClient.ts] ([createZkSyncClient], [isValidAddress], ...),
    - [ZkSync.node.ts]           (the per-item body of [execute]),
    - [ZkSyncTrigger.node.ts]    ([poll], all ten trigger kinds).

    JavaScript strings are [string]s ([list ascii] inside the numeric
    printers and parsers), [bigint]s and integral [number]s are [Z], the
    workflow static data is a record of cursors with finite maps for the two
    latch families, a rejected promise or an exception is [None] / [Threw]. *)

From Stdlib Require Import ZArith NArith List Ascii String Bool Lia.
From Stdlib Require Import DecimalN DecimalPos.
From stdpp Require Import base option list strings gmap.

Import ListNotations.
Local Open Scope char_scope.
Local Open Scope Z_scope.

(** ** Characters and digits *)

Module Chars.

Definition is_digit (c : ascii) : bool :=
  let n := N_of_ascii c in ((48 <=? n) && (n <=? 57))%N.

Definition digit_val (c : ascii) : N := (N_of_ascii c - 48)%N.

(** Positional value of a run of decimal digits, most significant first. *)
Definition val_acc (l : list ascii) (a : N) : N :=
  fold_left (fun a c => (10 * a + digit_val c)%N) l a.

Definition val_digits (l : list ascii) : N := val_acc l 0%N.

(** Value of one character as a digit of any radix up to sixteen. *)
Definition char_digit (c : ascii) : option N :=
  let n := N_of_ascii c in
  if ((48 <=? n) && (n <=? 57))%N then Some (n - 48)%N
  else if ((97 <=? n) && (n <=? 102))%N then Some (n - 87)%N
  else if ((65 <=? n) && (n <=? 70))%N then Some (n - 55)%N
  else None.

Definition radix_digit (r : N) (c : ascii) : option N :=
  match char_digit c with
  | Some d => if (d <? r)%N then Some d else None
  | None => None
  end.

Fixpoint radix_acc (r : N) (l : list ascii) (a : N) : option N :=
  match l with
  | [] => Some a
  | c :: l' =>
      match radix_digit r c with
      | Some d => radix_acc r l' (r * a + d)%N
      | None => None
      end
  end.

(** One or more digits of radix [r]; anything else is a syntax error. *)
Definition parse_radix (r : N) (l : list ascii) : option N :=
  match l with
  | [] => None
  | _ => radix_acc r l 0%N
  end.

(** The longest prefix of characters satisfying [p], and the rest. *)
Fixpoint span (p : ascii -> bool) (l : list ascii) : list ascii * list ascii :=
  match l with
  | [] => ([], [])
  | c :: l' =>
      if p c then let '(a, b) := span p l' in (c :: a, b) else ([], l)
  end.

(** ASCII members of the ECMAScript [StrWhiteSpaceChar] class. *)
Definition is_space (c : ascii) : bool :=
  let n := N_of_ascii c in ((n =? 32) || ((9 <=? n) && (n <=? 13)))%N.

Fixpoint drop_spaces (l : list ascii) : list ascii :=
  match l with
  | c :: l' => if is_space c then drop_spaces l' else l
  | [] => []
  end.

Definition trim (l : list ascii) : list ascii :=
  rev (drop_spaces (rev (drop_spaces l))).

Fixpoint uint_chars (d : Decimal.uint) : list ascii :=
  match d with
  | Decimal.Nil => []
  | Decimal.D0 d => "0" :: uint_chars d
  | Decimal.D1 d => "1" :: uint_chars d
  | Decimal.D2 d => "2" :: uint_chars d
  | Decimal.D3 d => "3" :: uint_chars d
  | Decimal.D4 d => "4" :: uint_chars d
  | Decimal.D5 d => "5" :: uint_chars d
  | Decimal.D6 d => "6" :: uint_chars d
  | Decimal.D7 d => "7" :: uint_chars d
  | Decimal.D8 d => "8" :: uint_chars d
  | Decimal.D9 d => "9" :: uint_chars d
  end.

End Chars.

(** ** JavaScript [BigInt]: printing and parsing *)

Module BigInt.
Import Chars.

(** [BigInt.prototype.toString()]: decimal, no leading zeros, [-] sign. *)
Definition toChars (z : Z) : list ascii :=
  if z <? 0 then "-" :: uint_chars (N.to_uint (Z.abs_N z))
  else uint_chars (N.to_uint (Z.abs_N z)).

Definition toString (z : Z) : string := string_of_list_ascii (toChars z).

(** [BigInt(s)] for a string argument ([StringToBigInt]): surrounding white
    space is dropped, the empty string is zero, [0x] / [0o] / [0b] prefixes
    select the radix (and admit no sign), otherwise an optional sign and
    decimal digits.  [None] is the [SyntaxError]. *)
Definition radix_prefix (l : list ascii) : option (N * list ascii) :=
  match l with
  | c0 :: c1 :: r =>
      if Ascii.eqb c0 "0" then
        if Ascii.eqb c1 "x" || Ascii.eqb c1 "X" then Some (16%N, r)
        else if Ascii.eqb c1 "o" || Ascii.eqb c1 "O" then Some (8%N, r)
        else if Ascii.eqb c1 "b" || Ascii.eqb c1 "B" then Some (2%N, r)
        else None
      else None
  | _ => None
  end.

Definition ofChars (s : list ascii) : option Z :=
  let t := trim s in
  match t with
  | [] => Some 0
  | c :: r =>
      match radix_prefix t with
      | Some (radix, digits) => Z.of_N <$> parse_radix radix digits
      | None =>
          if Ascii.eqb c "-" then (fun n => - Z.of_N n) <$> parse_radix 10 r
          else if Ascii.eqb c "+" then Z.of_N <$> parse_radix 10 r
          else Z.of_N <$> parse_radix 10 t
      end
  end.

Definition ofString (s : string) : option Z := ofChars (list_ascii_of_string s).

End BigInt.

(** ** The fixed-point codec behind [parseUnits] / [formatUnits]

    The repository calls [ethers.parseUnits] and [ethers.formatUnits]; the
    [ethers] package itself is not part of its sources.  The codec below
    follows the description of section 4.1 of the specification (exact
    integer arithmetic, no decimal point at scale zero, at least one
    fractional digit otherwise, trailing zeros suppressed, malformed or too
    precise input refused) and, where that description is silent (signed
    amounts, a missing whole or fractional part, the width of the format),
    the [FixedNumber] code of [ethers] version 6 with the format
    [{ decimals, width: 512 }]. *)

Module Ethers.
Import Chars.

(** The library's padding constant, a run of zeros. *)
Definition Zeros : list ascii := repeat "0" 128.

(** [checkValue] for a signed 512-bit format. *)
Definition in_range (v : Z) : bool := (- 2 ^ 511 <=? v) && (v <? 2 ^ 511).

(** [getFormat] refuses more than eighty decimals. *)
Definition format_ok (decimals : nat) : bool := (decimals <=? 80)%nat.

(** [while (decimal.length < decimals) decimal += Zeros] *)
Fixpoint pad_right (fuel decimals : nat) (dec : list ascii) : list ascii :=
  match fuel with
  | O => dec
  | S f =>
      if (length dec <? decimals)%nat then pad_right f decimals (dec ++ Zeros)
      else dec
  end.

(** [while (str.length <= decimals) str = Zeros + str] *)
Fixpoint pad_left (fuel decimals : nat) (str : list ascii) : list ascii :=
  match fuel with
  | O => str
  | S f =>
      if (length str <=? decimals)%nat then pad_left f decimals (Zeros ++ str)
      else str
  end.

(** [while (str[0] === "0" && str[1] !== ".") str = str.substring(1)] *)
Fixpoint trim_zeros (str : list ascii) : list ascii :=
  match str with
  | c :: rest =>
      if Ascii.eqb c "0" then
        match rest with
        | c1 :: _ => if Ascii.eqb c1 "." then str else trim_zeros rest
        | [] => trim_zeros rest
        end
      else str
  | [] => []
  end.

Definition all_zeros (l : list ascii) : bool :=
  forallb (fun c => Ascii.eqb c "0") l.

(** Modelled from the spec: the parser behind [ethers.parseUnits], which
    is not under the repository's sources
    ([FixedNumber.fromString(value, { decimals, width: 512 }).value]).  The
    input must match, from start to end: an optional minus sign, a run of
    decimal digits, an optional point, a run of decimal digits; the two runs
    may not both be empty. *)
Definition fromChars (s : list ascii) (decimals : nat) : option Z :=
  let '(sign, r0) :=
    match s with
    | c :: r => if Ascii.eqb c "-" then (["-"], r) else ([], s)
    | [] => ([], s)
    end in
  let '(whole, r1) := span is_digit r0 in
  let r2 :=
    match r1 with
    | c :: r => if Ascii.eqb c "." then r else r1
    | [] => r1
    end in
  let '(dec, r3) := span is_digit r2 in
  match r3 with
  | _ :: _ => None
  | [] =>
      if (length whole + length dec =? 0)%nat then None
      else if negb (format_ok decimals) then None
      else
        let whole := match whole with [] => ["0"] | _ => whole end in
        let padded := pad_right decimals decimals dec in
        if negb (all_zeros (skipn decimals padded)) then None
        else
          match BigInt.ofChars (sign ++ whole ++ firstn decimals padded) with
          | Some v => if in_range v then Some v else None
          | None => None
          end
  end.

(** Modelled from the spec: the printer behind [ethers.formatUnits], which
    is not under the repository's sources (the [toString(val, decimals)] of
    [FixedNumber]): sign, digits padded to one more than [decimals], the
    point, then leading and trailing zeros trimmed down to one digit on
    each side. *)
Definition toChars (val : Z) (decimals : nat) : list ascii :=
  let negative := if val <? 0 then ["-"] else [] in
  let str := BigInt.toChars (Z.abs val) in
  match decimals with
  | O => negative ++ str
  | _ =>
      let str := pad_left (S decimals) decimals str in
      let index := (length str - decimals)%nat in
      let str := firstn index str ++ "." :: skipn index str in
      let str := trim_zeros str in
      let str := rev (trim_zeros (rev str)) in
      negative ++ str
  end.

Definition parseUnits (value : string) (decimals : nat) : option Z :=
  fromChars (list_ascii_of_string value) decimals.

Definition formatUnits (value : Z) (decimals : nat) : option string :=
  if format_ok decimals && in_range value
  then Some (string_of_list_ascii (toChars value decimals))
  else None.

Definition formatEther (wei : Z) : option string := formatUnits wei 18.
Definition parseEther (ether : string) : option Z := parseUnits ether 18.

End Ethers.

(** ** [utils/unitConverter.ts] *)

Module UnitConverter.

Inductive EthUnit := wei | kwei | mwei | gwei | szabo | finney | ether.

Definition UNIT_DECIMALS (u : EthUnit) : nat :=
  match u with
  | wei => 0 | kwei => 3 | mwei => 6 | gwei => 9
  | szabo => 12 | finney => 15 | ether => 18
  end.

Definition convertUnits (value : string) (fromUnit toUnit : EthUnit)
  : option string :=
  let fromDecimals := UNIT_DECIMALS fromUnit in
  let toDecimals := UNIT_DECIMALS toUnit in
  match Ethers.parseUnits value fromDecimals with
  | Some weiValue => Ethers.formatUnits weiValue toDecimals
  | None => None
  end.

Definition weiToEth (w : Z) : option string := Ethers.formatEther w.
Definition ethToWei (e : string) : option Z := Ethers.parseEther e.
Definition weiToGwei (w : Z) : option string := Ethers.formatUnits w 9.
Definition gweiToWei (g : string) : option Z := Ethers.parseUnits g 9.
Definition formatTokenAmount (amount : Z) (decimals : nat) : option string :=
  Ethers.formatUnits amount decimals.
Definition parseTokenAmount (amount : string) (decimals : nat) : option Z :=
  Ethers.parseUnits amount decimals.

Record TxCost := { cost_wei : string; cost_gwei : string; cost_eth : string }.

Definition calculateTxCost (gasUsed gasPrice : Z) : option TxCost :=
  let cost := gasUsed * gasPrice in
  match Ethers.formatUnits cost 9, Ethers.formatEther cost with
  | Some g, Some e =>
      Some {| cost_wei := BigInt.toString cost; cost_gwei := g; cost_eth := e |}
  | _, _ => None
  end.

End UnitConverter.


Local Open Scope string_scope.
Local Open Scope list_scope.
Local Open Scope Z_scope.

(** ** [constants/networks.ts] *)

Module Networks.

Record NetworkConfig := {
  name : string;
  chainId : Z;
  rpcUrl : string;
  explorerUrl : string;
  explorerApiUrl : string;
  l1ChainId : Z;
  l1RpcUrl : string;
  bridgeAddress : string;
  testnetPaymaster : option string
}.

Definition mainnet : NetworkConfig := {|
  name := "zkSync Era Mainnet";
  chainId := 324;
  rpcUrl := "https://mainnet.era.zksync.io";
  explorerUrl := "https://explorer.zksync.io";
  explorerApiUrl := "https://block-explorer-api.mainnet.zksync.io";
  l1ChainId := 1;
  l1RpcUrl := "https://ethereum.publicnode.com";
  bridgeAddress := "0x32400084C286CF3E17e7B677ea9583e60a000324";
  testnetPaymaster := None
|}.

Definition sepolia : NetworkConfig := {|
  name := "zkSync Era Sepolia Testnet";
  chainId := 300;
  rpcUrl := "https://sepolia.era.zksync.dev";
  explorerUrl := "https://sepolia.explorer.zksync.io";
  explorerApiUrl := "https://block-explorer-api.sepolia.zksync.dev";
  l1ChainId := 11155111;
  l1RpcUrl := "https://ethereum-sepolia.publicnode.com";
  bridgeAddress := "0x9A6DE0f62Aa270A8bCB1e2610078650D539B1Ef9";
  testnetPaymaster := Some "0x3cb2b87d10ac01736a65688f3e0fb1b070b3eea3"
|}.

(** The members every object literal inherits from [Object.prototype]:
    eleven functions and the accessor [__proto__]. *)
Definition Object_prototype : list string :=
  ["constructor"; "__defineGetter__"; "__defineSetter__"; "hasOwnProperty";
   "__lookupGetter__"; "__lookupSetter__"; "isPrototypeOf";
   "propertyIsEnumerable"; "toString"; "valueOf"; "__proto__";
   "toLocaleString"]%string.

(** An object literal used as a table: its own entries, and the names it
    inherits. *)
Record Table := {
  own : gmap string NetworkConfig;
  inherited : list string
}.

(** What an expression of type [NetworkConfig] holds at run time: a
    configuration, or, since the type of the table does not say so, a
    member of [Object.prototype] found under an inherited name. *)
Inductive Value :=
| Config (config : NetworkConfig)
| Inherited (key : string).

(** [table[key]]: an own entry first, then the prototype; [None] is
    [undefined]. *)
Definition get (table : Table) (key : string) : option Value :=
  match own table !! key with
  | Some config => Some (Config config)
  | None =>
      if bool_decide (key ∈ inherited table) then Some (Inherited key)
      else None
  end.

(** The table [NETWORKS : Record<string, NetworkConfig>], an object literal
    with two own entries. *)
Definition NETWORKS : Table :=
  {| own := <["mainnet"%string := mainnet]>
              (<["sepolia"%string := sepolia]> ∅);
     inherited := Object_prototype |}.

(** Reading a property of such a value.  An inherited function has a
    [name], its own ([Object] for [constructor]); [Object.prototype], found
    under [__proto__], has none; none of them has one of the other
    properties of a configuration. *)
Definition get_name (v : Value) : option string :=
  match v with
  | Config config => Some (name config)
  | Inherited key =>
      if String.eqb key "__proto__" then None
      else if String.eqb key "constructor" then Some "Object"%string
      else Some key
  end.

Definition get_rpcUrl (v : Value) : option string :=
  match v with
  | Config config => Some (rpcUrl config)
  | Inherited _ => None
  end.

Definition get_chainId (v : Value) : option Z :=
  match v with
  | Config config => Some (chainId config)
  | Inherited _ => None
  end.

Definition get_testnetPaymaster (v : Value) : option string :=
  match v with
  | Config config => testnetPaymaster config
  | Inherited _ => None
  end.

(** JavaScript truthiness of an optional string argument: [undefined] and
    the empty string are falsy. *)
Definition truthy (s : option string) : bool :=
  match s with
  | Some u => negb (String.eqb u "")
  | None => false
  end.

Definition customConfig (customRpcUrl : string) : NetworkConfig := {|
  name := "Custom Network";
  chainId := 0;
  rpcUrl := customRpcUrl;
  explorerUrl := "";
  explorerApiUrl := "";
  l1ChainId := 0;
  l1RpcUrl := "";
  bridgeAddress := "";
  testnetPaymaster := None
|}.

(** [NETWORKS[network] || NETWORKS.mainnet]: every value the table can
    give, own or inherited, is an object or a function and so truthy. *)
Definition getNetworkConfig (network : string) (customRpcUrl : option string)
  : Value :=
  if String.eqb network "custom" && truthy customRpcUrl
  then Config (customConfig (default ""%string customRpcUrl))
  else
    match get NETWORKS network with
    | Some value => value
    | None => default (Config mainnet) (get NETWORKS "mainnet"%string)
    end.

End Networks.

(** ** [transport/zksyncClient.ts] *)

Module Client.

(** The pieces of [ethers] / [zksync-ethers] that are not arithmetic are
    inputs of the development: [getAddress] (checksum normalisation, which
    throws on a malformed or badly checksummed address), the Keccak topic
    hash [id], the wallet constructor (which throws on a malformed key and
    otherwise knows its address), and ABI event decoding
    ([new Interface([abi])], its first event fragment's [topicHash], and
    [parseLog], which throws on a log it cannot decode and returns [null]
    on one that matches no fragment). *)
Record Log := {
  log_topics : list string;
  log_data : string;
  log_blockNumber : Z;
  log_transactionHash : string;
  log_index : Z
}.

Record Decoded := {
  decoded_name : string;
  decoded_args : list (string * string)
}.

Record Interface := {
  iface_eventTopic : option string;
  iface_parseLog : Log -> option (option Decoded)
}.

Record Library := {
  getAddress : string -> option string;
  id : string -> string;
  newWallet : string -> option string;
  newInterface : string -> option Interface
}.

(** [ethers.isAddress] is "does [getAddress] return". *)
Definition isValidAddress (lib : Library) (address : string) : bool :=
  match getAddress lib address with
  | Some _ => true
  | None => false
  end.

Definition formatAddress (lib : Library) (address : string) : option string :=
  getAddress lib address.

Definition formatEther (w : Z) : option string := Ethers.formatEther w.
Definition parseEther (e : string) : option Z := Ethers.parseEther e.
Definition formatUnits (value : Z) (decimals : nat) : option string :=
  Ethers.formatUnits value decimals.
Definition parseUnits (value : string) (decimals : nat) : option Z :=
  Ethers.parseUnits value decimals.

(** *** Provider requests of the action node, and their log *)

Inductive Request :=
| getNetwork
| getBalance (address : string)
| getTransactionCount (address : string)
| getCode (address : string)
| sendTransaction (to : string) (value : Z) (paymaster : option string)
| waitReceipt (hash : string)
| estimateGas (to : string) (value : Z)
| l2TokenAddress (l1Token : string)
| contractCall (contract method : string) (args : list string).

Record TransactionResponse := {
  response_hash : string;
  response_from : string;
  response_to : option string;
  response_value : Z
}.

Record TransactionReceipt := {
  txr_status : Z;
  txr_blockNumber : Z;
  txr_gasUsed : Z
}.

(** The chain as the action node sees it while it handles one item. *)
Record Provider := {
  on_getNetwork : option Z;
  on_getBalance : string -> option Z;
  on_getTransactionCount : string -> option Z;
  on_getCode : string -> option string;
  on_sendTransaction :
    string -> Z -> option string -> option TransactionResponse;
  on_waitReceipt : string -> option (option TransactionReceipt);
  on_estimateGas : string -> Z -> option Z;
  on_l2TokenAddress : string -> option string;
  on_contractCall : string -> string -> list string -> option Z
}.

(** A computation that logs every request it issues and may throw an
    error message. *)
Definition E (A : Type) : Type :=
  list Request -> list Request * (string + A).

#[global] Instance E_ret : MRet E := fun A a t => (t, inr a).
#[global] Instance E_bind : MBind E := fun A B f m t =>
  let '(t', r) := m t in
  match r with
  | inr a => f a t'
  | inl e => (t', inl e)
  end.

Definition fail {A} (message : string) : E A := fun t => (t, inl message).

(** A library call that throws when it has no result. *)
Definition attempt {A} (r : option A) (message : string) : E A :=
  fun t => (t, match r with Some a => inr a | None => inl message end).

(** Issue [q]; the answer is the provider's, a missing one rejects. *)
Definition request {A} (q : Request) (answer : option A) : E A :=
  fun t => (t ++ [q],
            match answer with
            | Some a => inr a
            | None => inl "could not complete the request"%string
            end).

Record ZkSyncClient := {
  wallet : option string;
  client_network : option string;
  client_chainId : Z
}.

(** The licensing notice printed once per process is console output only
    and is left out. *)
Definition createZkSyncClient (lib : Library) (provider : Provider)
  (network : string) (customRpcUrl privateKey : option string)
  : E ZkSyncClient :=
  let config := Networks.getNetworkConfig network customRpcUrl in
  wallet ← (if Networks.truthy privateKey
            then address ← attempt (newWallet lib (default "" privateKey))
                               "invalid private key";
                 mret (Some address)
            else mret None);
  chainId ← request getNetwork (on_getNetwork provider);
  mret {| wallet := wallet;
          client_network := Networks.get_name config;
          client_chainId := chainId |}.

End Client.

(** ** The [Date] of the run time

    [new Date(t).toISOString()] for an integral time value [t] in
    milliseconds, by the abstract operations of ECMAScript (Day,
    DayFromYear, YearFromTime, MonthFromTime, DateFromTime and the
    rest). *)

Module Date.

Definition msPerDay : Z := 86400000.

(** TimeClip: a time value more than 8.64e15 ms from the epoch is not a
    time, and [toISOString] throws a [RangeError] on it. *)
Definition maxTime : Z := 8640000000000000.

Definition valid (t : Z) : bool := (- maxTime <=? t) && (t <=? maxTime).

Definition Day (t : Z) : Z := t / msPerDay.

Definition TimeWithinDay (t : Z) : Z := t mod msPerDay.

Definition DaysInYear (y : Z) : Z :=
  if negb (y mod 4 =? 0) then 365
  else if negb (y mod 100 =? 0) then 366
  else if negb (y mod 400 =? 0) then 365
  else 366.

Definition DayFromYear (y : Z) : Z :=
  365 * (y - 1970) + (y - 1969) / 4 - (y - 1901) / 100 + (y - 1601) / 400.

(** The largest [y] with [DayFromYear y <= Day t]: the estimate by the mean
    length of a year is off by at most one. *)
Definition YearFromTime (t : Z) : Z :=
  let y := 1970 + Day t * 400 / 146097 in
  if DayFromYear y >? Day t then y - 1
  else if DayFromYear (y + 1) <=? Day t then y + 1
  else y.

Definition InLeapYear (t : Z) : Z :=
  if DaysInYear (YearFromTime t) =? 366 then 1 else 0.

Definition DayWithinYear (t : Z) : Z := Day t - DayFromYear (YearFromTime t).

Definition MonthFromTime (t : Z) : Z :=
  let d := DayWithinYear t in
  let leap := InLeapYear t in
  if d <? 31 then 0
  else if d <? 59 + leap then 1
  else if d <? 90 + leap then 2
  else if d <? 120 + leap then 3
  else if d <? 151 + leap then 4
  else if d <? 181 + leap then 5
  else if d <? 212 + leap then 6
  else if d <? 243 + leap then 7
  else if d <? 273 + leap then 8
  else if d <? 304 + leap then 9
  else if d <? 334 + leap then 10
  else 11.

Definition DateFromTime (t : Z) : Z :=
  let d := DayWithinYear t in
  let leap := InLeapYear t in
  match MonthFromTime t with
  | 0 => d + 1
  | 1 => d - 30
  | 2 => d - 58 - leap
  | 3 => d - 89 - leap
  | 4 => d - 119 - leap
  | 5 => d - 150 - leap
  | 6 => d - 180 - leap
  | 7 => d - 211 - leap
  | 8 => d - 242 - leap
  | 9 => d - 272 - leap
  | 10 => d - 303 - leap
  | _ => d - 333 - leap
  end.

Definition HourFromTime (t : Z) : Z := (t / 3600000) mod 24.
Definition MinFromTime (t : Z) : Z := (t / 60000) mod 60.
Definition SecFromTime (t : Z) : Z := (t / 1000) mod 60.
Definition msFromTime (t : Z) : Z := t mod 1000.

(** A non-negative number in at least [width] digits. *)
Definition pad (width : nat) (n : Z) : list ascii :=
  let digits := BigInt.toChars n in
  repeat "0"%char (width - length digits) ++ digits.

(** Years 0 to 9999 are written with four digits, the others with a sign
    and six. *)
Definition yearChars (y : Z) : list ascii :=
  if (0 <=? y) && (y <=? 9999) then pad 4 y
  else (if y <? 0 then "-"%char else "+"%char) :: pad 6 (Z.abs y).

Definition toISOString (t : Z) : option string :=
  if valid t then
    Some (string_of_list_ascii
            (yearChars (YearFromTime t) ++ "-"%char ::
             pad 2 (MonthFromTime t + 1) ++ "-"%char ::
             pad 2 (DateFromTime t) ++ "T"%char ::
             pad 2 (HourFromTime t) ++ ":"%char ::
             pad 2 (MinFromTime t) ++ ":"%char ::
             pad 2 (SecFromTime t) ++ "."%char ::
             pad 3 (msFromTime t) ++ ["Z"%char]))
  else None.

End Date.

(** ** [ZkSyncTrigger.node.ts]: the polling trigger *)

Module Trigger.

(** *** What the provider returns *)

Record Tx := {
  tx_hash : string;
  tx_from : option string;
  tx_to : option string;
  tx_value : option Z
}.

Record Block := {
  block_number : Z;
  block_hash : string;
  block_timestamp : Z;
  block_gasLimit : Z;
  block_gasUsed : Z;
  block_transactions : list string;
  block_prefetchedTransactions : list Tx
}.

Record BatchDetails := {
  batch_number : Z;
  batch_timestamp : Z;
  batch_l1TxCount : Z;
  batch_l2TxCount : Z;
  batch_rootHash : string;
  batch_status : string;
  batch_commitTxHash : option string;
  batch_proveTxHash : option string;
  batch_executeTxHash : option string
}.

Record Receipt := {
  receipt_hash : string;
  receipt_status : Z;
  receipt_blockNumber : Z;
  receipt_from : string;
  receipt_to : option string;
  receipt_gasUsed : Z
}.

Export Client (Log, log_topics, log_data, log_blockNumber,
  log_transactionHash, log_index, Decoded, decoded_name, decoded_args,
  Interface, iface_eventTopic, iface_parseLog, Library, getAddress, id,
  newWallet, newInterface, isValidAddress, formatEther).

Record LogFilter := {
  filter_address : string;
  filter_topics : list string;
  filter_fromBlock : Z;
  filter_toBlock : Z
}.

(** One value per remote call as the chain answers it during one poll
    invocation; [None] is a rejected promise (the call throws).  For
    [getBlock] and [getTransactionReceipt] the inner [None] is [null]; for
    [getL1BatchDetails] a missing batch makes the first field access throw,
    which is the same [None]. *)
Record Provider := {
  getBlockNumber : option Z;
  getBlock : Z -> bool -> option (option Block);
  getL1BatchNumber : option Z;
  getL1BatchDetails : Z -> option BatchDetails;
  getTransactionReceipt : string -> option (option Receipt);
  getLogs : LogFilter -> option (list Log);
  getBalance : string -> option Z
}.

(** *** Node parameters and credentials *)

Inductive TriggerKind :=
| newBlock | newL1Batch | transactionConfirmed | ethReceived | ethSent
| tokenTransfer | nftTransfer | contractEvent | blockFinalized
| balanceChange.

Record Params := {
  triggerOn : TriggerKind;
  txHash : string;
  confirmations : Z;
  watchAddress : string;
  contractAddress : string;
  filterAddress : string;
  eventAbi : string
}.

Record Credentials := {
  network : string;
  customRpcUrl : option string
}.

(** *** Emitted items

    One constructor per [type] of item, with the fields of its [json]
    object.  The [network] field is [config.name], which is [undefined]
    when the configuration is a value without a name. *)

Inductive Event :=
| NewBlockEvent (blockNumber : Z) (hash : string) (timestamp : Z)
    (timestampDate : string) (gasLimit gasUsed : string)
    (transactionCount : Z) (net : option string)
| NewL1BatchEvent (details : BatchDetails) (net : option string)
| TransactionConfirmedEvent (hash status : string)
    (blockNumber confirmed : Z) (from : string) (to : option string)
    (gasUsed : string) (net : option string)
| EthTransferEvent (type hash : string) (from to : option string)
    (valueWei : option string) (valueEth : string) (blockNumber : Z)
    (net : option string)
| TokenTransferEvent (contract from to value : string) (blockNumber : Z)
    (transactionHash : string) (logIndex : Z) (net : option string)
| NftTransferEvent (contract from to tokenId : string) (blockNumber : Z)
    (transactionHash : string) (logIndex : Z) (net : option string)
| ContractEventEvent (eventName : option string) (contract : string)
    (args : list (string * string)) (blockNumber : Z)
    (transactionHash : string) (logIndex : Z) (net : option string)
| BlockFinalizedEvent (batchNumber : Z) (status : string)
    (commitTxHash proveTxHash executeTxHash : option string)
    (net : option string)
| BalanceChangeEvent (address previousBalanceWei previousBalanceEth
    currentBalanceWei currentBalanceEth changeWei changeEth
    direction : string) (net : option string).

(** *** Workflow static data

    The keys the trigger reads and writes: [lastBlock], [lastL1Batch],
    [lastCheckedBlock], [lastTokenBlock], [lastNftBlock], [lastEventBlock],
    [lastFinalizedBatch], [lastBalance], and the two families
    [tx_<hash>] and [batch_executed_<number>].  A field is [None] while the
    key is [undefined]. *)
Record Store := {
  lastBlock : option Z;
  lastL1Batch : option Z;
  lastCheckedBlock : option Z;
  lastTokenBlock : option Z;
  lastNftBlock : option Z;
  lastEventBlock : option Z;
  lastFinalizedBatch : option Z;
  lastBalance : option string;
  tx_ : gmap string bool;
  batch_executed_ : gmap Z bool
}.

Definition emptyStore : Store :=
  {| lastBlock := None; lastL1Batch := None; lastCheckedBlock := None;
     lastTokenBlock := None; lastNftBlock := None; lastEventBlock := None;
     lastFinalizedBatch := None; lastBalance := None;
     tx_ := ∅; batch_executed_ := ∅ |}.

Definition set_lastBlock (v : Z) (s : Store) : Store :=
  {| lastBlock := Some v; lastL1Batch := lastL1Batch s;
     lastCheckedBlock := lastCheckedBlock s;
     lastTokenBlock := lastTokenBlock s; lastNftBlock := lastNftBlock s;
     lastEventBlock := lastEventBlock s;
     lastFinalizedBatch := lastFinalizedBatch s;
     lastBalance := lastBalance s; tx_ := tx_ s;
     batch_executed_ := batch_executed_ s |}.

Definition set_lastL1Batch (v : Z) (s : Store) : Store :=
  {| lastBlock := lastBlock s; lastL1Batch := Some v;
     lastCheckedBlock := lastCheckedBlock s;
     lastTokenBlock := lastTokenBlock s; lastNftBlock := lastNftBlock s;
     lastEventBlock := lastEventBlock s;
     lastFinalizedBatch := lastFinalizedBatch s;
     lastBalance := lastBalance s; tx_ := tx_ s;
     batch_executed_ := batch_executed_ s |}.

Definition set_lastCheckedBlock (v : Z) (s : Store) : Store :=
  {| lastBlock := lastBlock s; lastL1Batch := lastL1Batch s;
     lastCheckedBlock := Some v;
     lastTokenBlock := lastTokenBlock s; lastNftBlock := lastNftBlock s;
     lastEventBlock := lastEventBlock s;
     lastFinalizedBatch := lastFinalizedBatch s;
     lastBalance := lastBalance s; tx_ := tx_ s;
     batch_executed_ := batch_executed_ s |}.

Definition set_lastTokenBlock (v : Z) (s : Store) : Store :=
  {| lastBlock := lastBlock s; lastL1Batch := lastL1Batch s;
     lastCheckedBlock := lastCheckedBlock s;
     lastTokenBlock := Some v; lastNftBlock := lastNftBlock s;
     lastEventBlock := lastEventBlock s;
     lastFinalizedBatch := lastFinalizedBatch s;
     lastBalance := lastBalance s; tx_ := tx_ s;
     batch_executed_ := batch_executed_ s |}.

Definition set_lastNftBlock (v : Z) (s : Store) : Store :=
  {| lastBlock := lastBlock s; lastL1Batch := lastL1Batch s;
     lastCheckedBlock := lastCheckedBlock s;
     lastTokenBlock := lastTokenBlock s; lastNftBlock := Some v;
     lastEventBlock := lastEventBlock s;
     lastFinalizedBatch := lastFinalizedBatch s;
     lastBalance := lastBalance s; tx_ := tx_ s;
     batch_executed_ := batch_executed_ s |}.

Definition set_lastEventBlock (v : Z) (s : Store) : Store :=
  {| lastBlock := lastBlock s; lastL1Batch := lastL1Batch s;
     lastCheckedBlock := lastCheckedBlock s;
     lastTokenBlock := lastTokenBlock s; lastNftBlock := lastNftBlock s;
     lastEventBlock := Some v;
     lastFinalizedBatch := lastFinalizedBatch s;
     lastBalance := lastBalance s; tx_ := tx_ s;
     batch_executed_ := batch_executed_ s |}.

Definition set_lastFinalizedBatch (v : Z) (s : Store) : Store :=
  {| lastBlock := lastBlock s; lastL1Batch := lastL1Batch s;
     lastCheckedBlock := lastCheckedBlock s;
     lastTokenBlock := lastTokenBlock s; lastNftBlock := lastNftBlock s;
     lastEventBlock := lastEventBlock s;
     lastFinalizedBatch := Some v;
     lastBalance := lastBalance s; tx_ := tx_ s;
     batch_executed_ := batch_executed_ s |}.

Definition set_lastBalance (v : string) (s : Store) : Store :=
  {| lastBlock := lastBlock s; lastL1Batch := lastL1Batch s;
     lastCheckedBlock := lastCheckedBlock s;
     lastTokenBlock := lastTokenBlock s; lastNftBlock := lastNftBlock s;
     lastEventBlock := lastEventBlock s;
     lastFinalizedBatch := lastFinalizedBatch s;
     lastBalance := Some v; tx_ := tx_ s;
     batch_executed_ := batch_executed_ s |}.

Definition set_tx_ (h : string) (v : bool) (s : Store) : Store :=
  {| lastBlock := lastBlock s; lastL1Batch := lastL1Batch s;
     lastCheckedBlock := lastCheckedBlock s;
     lastTokenBlock := lastTokenBlock s; lastNftBlock := lastNftBlock s;
     lastEventBlock := lastEventBlock s;
     lastFinalizedBatch := lastFinalizedBatch s;
     lastBalance := lastBalance s; tx_ := <[h := v]> (tx_ s);
     batch_executed_ := batch_executed_ s |}.

Definition set_batch_executed_ (n : Z) (v : bool) (s : Store) : Store :=
  {| lastBlock := lastBlock s; lastL1Batch := lastL1Batch s;
     lastCheckedBlock := lastCheckedBlock s;
     lastTokenBlock := lastTokenBlock s; lastNftBlock := lastNftBlock s;
     lastEventBlock := lastEventBlock s;
     lastFinalizedBatch := lastFinalizedBatch s;
     lastBalance := lastBalance s; tx_ := tx_ s;
     batch_executed_ := <[n := v]> (batch_executed_ s) |}.

(** A store in which a watermark key is absent again. *)
Definition clear_lastBlock (s : Store) : Store :=
  {| lastBlock := None; lastL1Batch := lastL1Batch s;
     lastCheckedBlock := lastCheckedBlock s;
     lastTokenBlock := lastTokenBlock s; lastNftBlock := lastNftBlock s;
     lastEventBlock := lastEventBlock s;
     lastFinalizedBatch := lastFinalizedBatch s;
     lastBalance := lastBalance s; tx_ := tx_ s;
     batch_executed_ := batch_executed_ s |}.

Definition clear_lastL1Batch (s : Store) : Store :=
  {| lastBlock := lastBlock s; lastL1Batch := None;
     lastCheckedBlock := lastCheckedBlock s;
     lastTokenBlock := lastTokenBlock s; lastNftBlock := lastNftBlock s;
     lastEventBlock := lastEventBlock s;
     lastFinalizedBatch := lastFinalizedBatch s;
     lastBalance := lastBalance s; tx_ := tx_ s;
     batch_executed_ := batch_executed_ s |}.

(** [(stored as number) || fallback]: [undefined] and [0] are falsy. *)
Definition or_number (stored : option Z) (fallback : Z) : Z :=
  match stored with
  | Some n => if n =? 0 then fallback else n
  | None => fallback
  end.

(** [stored as boolean] used as a condition. *)
Definition is_set (stored : option bool) : bool := default false stored.

(** *** Computations that mutate the store and may throw

    A thrown exception leaves the mutations made so far in place, as an
    in-place update of the static-data object does. *)
Definition M (A : Type) : Type := Store -> Store * option A.

#[global] Instance M_ret : MRet M := fun A a s => (s, Some a).
#[global] Instance M_bind : MBind M := fun A B f m s =>
  let '(s', r) := m s in
  match r with
  | Some a => f a s'
  | None => (s', None)
  end.

Definition ret {A} (a : A) : M A := mret a.
Definition throw {A} : M A := fun s => (s, None).
Definition await {A} (r : option A) : M A := fun s => (s, r).
Definition read {A} (f : Store -> A) : M A := fun s => (s, Some (f s)).
Definition write (f : Store -> Store) : M unit := fun s => (f s, Some tt).

(** The shared tail of the watermark kinds: run the scan, and only when it
    has completed store the new watermark and hand back the items. *)
Definition then_advance (scan : M (list Event)) (mark : Store -> Store)
  : M (list Event) :=
  returnData ← scan;
  write mark ;;
  ret returnData.

(** *** String helpers *)

Definition lower_char (c : ascii) : ascii :=
  let n := N_of_ascii c in
  if ((65 <=? n) && (n <=? 90))%N then ascii_of_N (n + 32) else c.

Definition toLowerCase (s : string) : string :=
  string_of_list_ascii (map lower_char (list_ascii_of_string s)).

(** [s.slice(k)] for a non-negative [k]. *)
Definition slice (k : nat) (s : string) : string :=
  string_of_list_ascii (skipn k (list_ascii_of_string s)).

Definition nonempty (s : string) : bool := negb (String.eqb s "").

Definition truthy_hash (h : option string) : bool :=
  match h with Some s => nonempty s | None => false end.

Definition status_text (status : Z) : string :=
  if status =? 1 then "success"%string else "failed"%string.

Section Poll.

Context (lib : Library) (provider : Provider).
Context (params : Params) (config : Networks.Value).

Definition net : option string := Networks.get_name config.

(** **** newBlock *)

(** The item of one block; [None] when the date of its timestamp cannot be
    rendered, on which [toISOString] throws. *)
Definition newBlockEvent (block : Block) : option Event :=
  timestampDate ← Date.toISOString (block_timestamp block * 1000);
  Some (NewBlockEvent (block_number block) (block_hash block)
          (block_timestamp block) timestampDate
          (BigInt.toString (block_gasLimit block))
          (BigInt.toString (block_gasUsed block))
          (Z.of_nat (length (block_transactions block))) net).

Fixpoint scan_newBlock (n : nat) (blockNum : Z) (returnData : list Event)
  : M (list Event) :=
  match n with
  | O => ret returnData
  | S n' =>
      block ← await (getBlock provider blockNum false);
      match block with
      | Some b =>
          item ← await (newBlockEvent b);
          scan_newBlock n' (blockNum + 1) (returnData ++ [item])
      | None => scan_newBlock n' (blockNum + 1) returnData
      end
  end.

Definition poll_newBlock : M (list Event) :=
  currentBlock ← await (getBlockNumber provider);
  stored ← read lastBlock;
  let lastBlock := or_number stored (currentBlock - 1) in
  if currentBlock >? lastBlock then
    then_advance
      (scan_newBlock (Z.to_nat (currentBlock - lastBlock)) (lastBlock + 1) [])
      (set_lastBlock currentBlock)
  else ret [].

(** **** newL1Batch *)

Fixpoint scan_newL1Batch (n : nat) (batchNum : Z) (returnData : list Event)
  : M (list Event) :=
  match n with
  | O => ret returnData
  | S n' =>
      details ← await (getL1BatchDetails provider batchNum);
      scan_newL1Batch n' (batchNum + 1)
        (returnData ++ [NewL1BatchEvent details net])
  end.

Definition poll_newL1Batch : M (list Event) :=
  currentBatch ← await (getL1BatchNumber provider);
  stored ← read lastL1Batch;
  let lastBatch := or_number stored (currentBatch - 1) in
  if currentBatch >? lastBatch then
    then_advance
      (scan_newL1Batch (Z.to_nat (currentBatch - lastBatch)) (lastBatch + 1) [])
      (set_lastL1Batch currentBatch)
  else ret [].

(** **** transactionConfirmed *)

Definition poll_transactionConfirmed : M (list Event) :=
  let txHash := txHash params in
  let requiredConfirmations := confirmations params in
  stored ← read (fun s => tx_ s !! txHash);
  let alreadyTriggered := is_set stored in
  if negb alreadyTriggered then
    receipt ← await (getTransactionReceipt provider txHash);
    match receipt with
    | Some r =>
        if negb (receipt_blockNumber r =? 0) then
          currentBlock ← await (getBlockNumber provider);
          let confirmed := currentBlock - receipt_blockNumber r + 1 in
          if confirmed >=? requiredConfirmations then
            write (set_tx_ txHash true) ;;
            ret [TransactionConfirmedEvent (receipt_hash r)
                   (status_text (receipt_status r))
                   (receipt_blockNumber r) confirmed (receipt_from r)
                   (receipt_to r) (BigInt.toString (receipt_gasUsed r)) net]
          else ret []
        else ret []
    | None => ret []
    end
  else ret [].

(** **** ethReceived / ethSent *)

Definition lower_eq (a : option string) (b : string) : bool :=
  match a with
  | Some x => String.eqb (toLowerCase x) (toLowerCase b)
  | None => false
  end.

Definition scan_tx (received : bool) (block : Block) (tx : Tx)
  (returnData : list Event) : M (list Event) :=
  let isReceived := lower_eq (tx_to tx) (watchAddress params) in
  let isSent := lower_eq (tx_from tx) (watchAddress params) in
  if (received && isReceived) || (negb received && isSent) then
    valueEth ← match tx_value tx with
                | Some v => if v =? 0 then ret "0"%string
                            else await (formatEther v)
                | None => ret "0"%string
                end;
    ret (returnData ++
         [EthTransferEvent (if received then "received" else "sent")%string
            (tx_hash tx) (tx_from tx) (tx_to tx)
            (BigInt.toString <$> tx_value tx) valueEth
            (block_number block) net])
  else ret returnData.

Fixpoint scan_txs (received : bool) (block : Block) (txs : list Tx)
  (returnData : list Event) : M (list Event) :=
  match txs with
  | [] => ret returnData
  | tx :: rest =>
      returnData' ← scan_tx received block tx returnData;
      scan_txs received block rest returnData'
  end.

Fixpoint scan_eth (received : bool) (n : nat) (blockNum : Z)
  (returnData : list Event) : M (list Event) :=
  match n with
  | O => ret returnData
  | S n' =>
      block ← await (getBlock provider blockNum true);
      returnData' ←
        match block with
        | Some b =>
            scan_txs received b (block_prefetchedTransactions b) returnData
        | None => ret returnData
        end;
      scan_eth received n' (blockNum + 1) returnData'
  end.

Definition poll_eth (received : bool) : M (list Event) :=
  if negb (isValidAddress lib (watchAddress params)) then throw
  else
    currentBlock ← await (getBlockNumber provider);
    stored ← read lastCheckedBlock;
    let lastCheckedBlock := or_number stored (currentBlock - 1) in
    if currentBlock >? lastCheckedBlock then
      then_advance
        (scan_eth received (Z.to_nat (currentBlock - lastCheckedBlock))
           (lastCheckedBlock + 1) [])
        (set_lastCheckedBlock currentBlock)
    else ret [].

(** **** tokenTransfer / nftTransfer *)

Definition transferTopic : string := id lib "Transfer(address,address,uint256)".

Definition transferFilter (fromBlock toBlock : Z) : LogFilter :=
  {| filter_address := contractAddress params;
     filter_topics := [transferTopic];
     filter_fromBlock := fromBlock;
     filter_toBlock := toBlock |}.

(** [false] when a filter address is given and matches neither side. *)
Definition passes_filter (from to : string) : bool :=
  if nonempty (filterAddress params) then
    let filterLower := toLowerCase (filterAddress params) in
    String.eqb (toLowerCase from) filterLower
    || String.eqb (toLowerCase to) filterLower
  else true.

Definition scan_tokenLog (log : Log) (returnData : list Event)
  : M (list Event) :=
  topic1 ← await (log_topics log !! 1%nat);
  topic2 ← await (log_topics log !! 2%nat);
  let from := String.append "0x" (slice 26 topic1) in
  let to := String.append "0x" (slice 26 topic2) in
  value ← await (BigInt.ofString (log_data log));
  if passes_filter from to then
    ret (returnData ++
         [TokenTransferEvent (contractAddress params) from to
            (BigInt.toString value) (log_blockNumber log)
            (log_transactionHash log) (log_index log) net])
  else ret returnData.

Definition scan_nftLog (log : Log) (returnData : list Event)
  : M (list Event) :=
  if (4 <=? length (log_topics log))%nat then
    topic1 ← await (log_topics log !! 1%nat);
    topic2 ← await (log_topics log !! 2%nat);
    topic3 ← await (log_topics log !! 3%nat);
    let from := String.append "0x" (slice 26 topic1) in
    let to := String.append "0x" (slice 26 topic2) in
    tokenId ← await (BigInt.ofString topic3);
    if passes_filter from to then
      ret (returnData ++
           [NftTransferEvent (contractAddress params) from to
              (BigInt.toString tokenId) (log_blockNumber log)
              (log_transactionHash log) (log_index log) net])
    else ret returnData
  else ret returnData.

Fixpoint scan_logs (step : Log -> list Event -> M (list Event))
  (logs : list Log) (returnData : list Event) : M (list Event) :=
  match logs with
  | [] => ret returnData
  | log :: rest =>
      returnData' ← step log returnData;
      scan_logs step rest returnData'
  end.

Definition poll_tokenTransfer : M (list Event) :=
  currentBlock ← await (getBlockNumber provider);
  stored ← read lastTokenBlock;
  let lastCheckedBlock := or_number stored (currentBlock - 1) in
  if currentBlock >? lastCheckedBlock then
    then_advance
      (logs ← await (getLogs provider
                       (transferFilter (lastCheckedBlock + 1) currentBlock));
       scan_logs scan_tokenLog logs [])
      (set_lastTokenBlock currentBlock)
  else ret [].

Definition poll_nftTransfer : M (list Event) :=
  currentBlock ← await (getBlockNumber provider);
  stored ← read lastNftBlock;
  let lastCheckedBlock := or_number stored (currentBlock - 1) in
  if currentBlock >? lastCheckedBlock then
    then_advance
      (logs ← await (getLogs provider
                       (transferFilter (lastCheckedBlock + 1) currentBlock));
       scan_logs scan_nftLog logs [])
      (set_lastNftBlock currentBlock)
  else ret [].

(** **** contractEvent *)

(** The body of the [try]; a decoding failure is caught and the log
    skipped. *)
Definition scan_eventLog (iface : Interface) (log : Log)
  (returnData : list Event) : M (list Event) :=
  match iface_parseLog iface log with
  | Some decoded =>
      ret (returnData ++
           [ContractEventEvent (decoded_name <$> decoded)
              (contractAddress params)
              (default [] (decoded_args <$> decoded))
              (log_blockNumber log) (log_transactionHash log)
              (log_index log) net])
  | None => ret returnData
  end.

Definition eventFilter (eventTopic : string) (fromBlock toBlock : Z)
  : LogFilter :=
  {| filter_address := contractAddress params;
     filter_topics := [eventTopic];
     filter_fromBlock := fromBlock;
     filter_toBlock := toBlock |}.

Definition scan_contractEvent (fromBlock toBlock : Z) : M (list Event) :=
  iface ← await (newInterface lib (eventAbi params));
  match iface_eventTopic iface with
  | Some eventTopic =>
      if nonempty eventTopic then
        logs ← await (getLogs provider
                        (eventFilter eventTopic fromBlock toBlock));
        scan_logs (scan_eventLog iface) logs []
      else ret []
  | None => ret []
  end.

Definition poll_contractEvent : M (list Event) :=
  currentBlock ← await (getBlockNumber provider);
  stored ← read lastEventBlock;
  let lastCheckedBlock := or_number stored (currentBlock - 1) in
  if currentBlock >? lastCheckedBlock then
    then_advance (scan_contractEvent (lastCheckedBlock + 1) currentBlock)
      (set_lastEventBlock currentBlock)
  else ret [].

(** **** blockFinalized *)

Definition blockFinalizedEvent (details : BatchDetails) : Event :=
  BlockFinalizedEvent (batch_number details) (batch_status details)
    (batch_commitTxHash details) (batch_proveTxHash details)
    (batch_executeTxHash details) net.

Fixpoint scan_blockFinalized (n : nat) (batchNum : Z)
  (returnData : list Event) : M (list Event) :=
  match n with
  | O => ret returnData
  | S n' =>
      details ← await (getL1BatchDetails provider batchNum);
      stored ← read (fun s => batch_executed_ s !! batchNum);
      let wasExecuted := is_set stored in
      if String.eqb (batch_status details) "verified"
         && truthy_hash (batch_executeTxHash details)
         && negb wasExecuted
      then
        write (set_batch_executed_ batchNum true) ;;
        scan_blockFinalized n' (batchNum + 1)
          (returnData ++ [blockFinalizedEvent details])
      else scan_blockFinalized n' (batchNum + 1) returnData
  end.

Definition poll_blockFinalized : M (list Event) :=
  currentBatch ← await (getL1BatchNumber provider);
  stored ← read lastFinalizedBatch;
  let lastCheckedBatch := or_number stored (currentBatch - 10) in
  then_advance
    (scan_blockFinalized (Z.to_nat (currentBatch - lastCheckedBatch))
       (lastCheckedBatch + 1) [])
    (set_lastFinalizedBatch currentBatch).

(** **** balanceChange *)

Definition poll_balanceChange : M (list Event) :=
  let watchAddress := watchAddress params in
  if negb (isValidAddress lib watchAddress) then throw
  else
    currentBalance ← await (getBalance provider watchAddress);
    stored ← read lastBalance;
    returnData ←
      match stored with
      | Some lastBalance =>
          if negb (String.eqb (BigInt.toString currentBalance) lastBalance)
          then
            previousBalance ← await (BigInt.ofString lastBalance);
            let change := currentBalance - previousBalance in
            previousBalanceEth ← await (formatEther previousBalance);
            currentBalanceEth ← await (formatEther currentBalance);
            changeEth ← await (formatEther change);
            ret [BalanceChangeEvent watchAddress lastBalance
                   previousBalanceEth (BigInt.toString currentBalance)
                   currentBalanceEth (BigInt.toString change) changeEth
                   (if change >? 0 then "increase" else "decrease")%string net]
          else ret []
      | None => ret []
      end;
    write (set_lastBalance (BigInt.toString currentBalance)) ;;
    ret returnData.

Definition poll_body : M (list Event) :=
  match triggerOn params with
  | newBlock => poll_newBlock
  | newL1Batch => poll_newL1Batch
  | transactionConfirmed => poll_transactionConfirmed
  | ethReceived => poll_eth true
  | ethSent => poll_eth false
  | tokenTransfer => poll_tokenTransfer
  | nftTransfer => poll_nftTransfer
  | contractEvent => poll_contractEvent
  | blockFinalized => poll_blockFinalized
  | balanceChange => poll_balanceChange
  end.

End Poll.

(** What one invocation hands back to the host: the [null] / [[returnData]]
    result, or an exception. *)
Inductive Outcome :=
| Returned (result : option (list Event))
| Threw.

(** The end of [poll]: [null] when nothing was collected, the collected
    items otherwise; an exception passes through. *)
Definition deliver (r : Store * option (list Event)) : Store * Outcome :=
  let '(s', returnData) := r in
  (s', match returnData with
       | Some [] => Returned None
       | Some items => Returned (Some items)
       | None => Threw
       end).

Definition config_of (credentials : Credentials) : Networks.Value :=
  Networks.getNetworkConfig (network credentials) (customRpcUrl credentials).

Definition poll (lib : Library) (credentials : Credentials)
  (params : Params) (provider : Provider) (s : Store) : Store * Outcome :=
  deliver (poll_body lib provider params (config_of credentials) s).

(** The items the host receives from one invocation. *)
Definition emitted (o : Outcome) : list Event :=
  match o with
  | Returned (Some returnData) => returnData
  | _ => []
  end.

(** A run of invocations over the same static data; each invocation sees
    the chain through its own provider value. *)
Record Invocation := {
  inv_credentials : Credentials;
  inv_params : Params;
  inv_provider : Provider
}.

Fixpoint run (lib : Library) (invs : list Invocation) (s : Store)
  : Store * list Outcome :=
  match invs with
  | [] => (s, [])
  | i :: rest =>
      let '(s', o) := poll lib (inv_credentials i) (inv_params i)
                        (inv_provider i) s in
      let '(s'', os) := run lib rest s' in
      (s'', o :: os)
  end.

(** *** Reading the cursor of a kind

    The watermark key a trigger kind keeps, and the chain tip it compares it
    with; the two kinds without a watermark have neither. *)
Definition watermark (kind : TriggerKind) (s : Store) : option Z :=
  match kind with
  | newBlock => lastBlock s
  | newL1Batch => lastL1Batch s
  | ethReceived | ethSent => lastCheckedBlock s
  | tokenTransfer => lastTokenBlock s
  | nftTransfer => lastNftBlock s
  | contractEvent => lastEventBlock s
  | blockFinalized => lastFinalizedBatch s
  | transactionConfirmed | balanceChange => None
  end.

Definition tip (kind : TriggerKind) (provider : Provider) : option Z :=
  match kind with
  | newL1Batch | blockFinalized => getL1BatchNumber provider
  | transactionConfirmed | balanceChange => None
  | _ => getBlockNumber provider
  end.

(** The kinds whose scan sits behind [if (current > last)]. *)
Definition guarded (kind : TriggerKind) : bool :=
  match kind with
  | newBlock | newL1Batch | ethReceived | ethSent | tokenTransfer
  | nftTransfer | contractEvent => true
  | _ => false
  end.

(** Which batch, or which transaction, an emitted item reports. *)
Definition is_batch_event (b : Z) (e : Event) : bool :=
  match e with
  | BlockFinalizedEvent n _ _ _ _ _ => n =? b
  | _ => false
  end.

Definition is_tx_event (h : string) (e : Event) : bool :=
  match e with
  | TransactionConfirmedEvent h' _ _ _ _ _ _ _ => String.eqb h' h
  | _ => false
  end.

Definition count (p : Event -> bool) (evs : list Event) : nat :=
  length (List.filter p evs).

Definition all_emitted (os : list Outcome) : list Event :=
  concat (map emitted os).

(** A provider answers about what it was asked about. *)
Definition coherent (provider : Provider) : Prop :=
  (forall n d, getL1BatchDetails provider n = Some d -> batch_number d = n) /\
  (forall h r, getTransactionReceipt provider h = Some (Some r) ->
               receipt_hash r = h).

(** *** Vocabulary of the statements about the trigger *)

(** The watermark keys, the balance snapshot and the transaction latches of
    two stores agree (the batch latches may differ). *)
Definition same_cursors (s s' : Store) : Prop :=
  lastBlock s' = lastBlock s /\ lastL1Batch s' = lastL1Batch s /\
  lastCheckedBlock s' = lastCheckedBlock s /\
  lastTokenBlock s' = lastTokenBlock s /\ lastNftBlock s' = lastNftBlock s /\
  lastEventBlock s' = lastEventBlock s /\
  lastFinalizedBatch s' = lastFinalizedBatch s /\
  lastBalance s' = lastBalance s /\ tx_ s' = tx_ s.

(** An item of a kind that has no latch. *)
Definition plain (e : Event) : Prop :=
  match e with
  | BlockFinalizedEvent _ _ _ _ _ _ => False
  | TransactionConfirmedEvent _ _ _ _ _ _ _ _ => False
  | _ => True
  end.

(** A computation that leaves the store alone. *)
Definition pure_m {A} (m : M A) : Prop := forall s, fst (m s) = s.

(** A computation that leaves the store alone and hands back plain items. *)
Definition good (m : M (list Event)) : Prop :=
  forall s, fst (m s) = s /\
            forall evs, snd (m s) = Some evs -> Forall plain evs.

(** A computation that hands back plain items, touches no latch, and has
    changed nothing when it throws. *)
Definition framed (m : M (list Event)) : Prop :=
  forall s,
    (snd (m s) = None -> fst (m s) = s) /\
    tx_ (fst (m s)) = tx_ s /\
    batch_executed_ (fst (m s)) = batch_executed_ s /\
    forall evs, snd (m s) = Some evs -> Forall plain evs.

(** How one invocation may move a latch family: [latched] reads the family
    before and after, [n] is the number of items emitted for one member. *)
Definition latch_step (before after : bool) (n : nat) : Prop :=
  (before = true -> n = 0%nat /\ after = true) /\
  (n <= 1)%nat /\
  (n = 1%nat -> after = true).

Definition batch_latched (s : Store) (b : Z) : bool :=
  is_set (batch_executed_ s !! b).

Definition tx_latched (s : Store) (h : string) : bool :=
  is_set (tx_ s !! h).

End Trigger.

(** ** Sample inputs

    Concrete chains, parameters and a stand-in for the address library
    (forty-two characters make an address), used to run the embedding. *)

Module Samples.
Import Trigger.

Definition lib : Library :=
  {| getAddress := fun a => if (String.length a =? 42)%nat then Some a else None;
     id := fun signature => signature;
     newWallet := fun _ => None;
     newInterface := fun _ => None |}.

Definition credentials : Credentials :=
  {| network := "mainnet"; customRpcUrl := None |}.

Definition params (kind : TriggerKind) : Params :=
  {| triggerOn := kind;
     txHash := "0xabc";
     confirmations := 1;
     watchAddress := "0xd8da6bf26964af9d7eed9e03e53415d37aa96045";
     contractAddress := "";
     filterAddress := "";
     eventAbi := "" |}.

Definition details (n : Z) (status : string) (executeTxHash : option string)
  : BatchDetails :=
  {| batch_number := n; batch_timestamp := 0;
     batch_l1TxCount := 0; batch_l2TxCount := 0;
     batch_rootHash := ""; batch_status := status;
     batch_commitTxHash := None; batch_proveTxHash := None;
     batch_executeTxHash := executeTxHash |}.

Definition block (n : Z) : Block :=
  {| block_number := n; block_hash := "0xb10c"; block_timestamp := 0;
     block_gasLimit := 1; block_gasUsed := 0;
     block_transactions := []; block_prefetchedTransactions := [] |}.

(** A chain whose block and batch tip is [current], with the given batch
    details, every block present, no receipts, no logs, and one balance
    for every account. *)
Definition chain (current : Z) (batches : Z -> option BatchDetails)
  (balance : Z) : Provider :=
  {| getBlockNumber := Some current;
     getBlock := fun n _ => Some (Some (block n));
     getL1BatchNumber := Some current;
     getL1BatchDetails := batches;
     getTransactionReceipt := fun _ => Some None;
     getLogs := fun _ => Some [];
     getBalance := fun _ => Some balance |}.

Definition executed (n : Z) : option BatchDetails :=
  Some (details n "verified" (Some "0xe")).

Definition invocation (kind : TriggerKind) (provider : Provider)
  : Invocation :=
  {| inv_credentials := credentials;
     inv_params := params kind;
     inv_provider := provider |}.

End Samples.

(** ** [ZkSync.node.ts]: the action node

    The body that [execute] runs for one input item, for the resources whose
    operations take an address and talk to the chain: all of [account], and
    from [transaction], [accountAbstraction], [token], [contract], [bridge]
    and [utility] the operations listed in [Operation].  The other
    operations of the node take no address or issue no request. *)

Module Node.
Import Client.

Inductive AccountOperation :=
| getBalanceOp | getNonceOp | getTransactionCountOp | isContractOp | getCodeOp.

Inductive Operation :=
| account (operation : AccountOperation)
| transaction_sendEth
| transaction_estimateGas
| accountAbstraction_getAccountType
| accountAbstraction_getDeploymentNonce
| token_getBalance
| contract_getCode
| bridge_getL2TokenAddress
| utility_validateAddress.

(** The node parameters of one item ([getNodeParameter]) and the
    credentials. *)
Record Item := {
  operation : Operation;
  address : string;
  toAddress : string;
  amount : string;
  usePaymaster : bool;
  contractAddress : string;
  l1TokenAddress : string;
  validateAddressInput : string;
  network : string;
  customRpcUrl : option string;
  privateKey : option string
}.

Inductive Json :=
| JString (s : string)
| JNumber (n : Z)
| JBool (b : bool)
| JNull.

Definition IDataObject : Type := list (string * Json).

Definition NONCE_HOLDER : string := "0x0000000000000000000000000000000000008003".

Section Execute.

Context (lib : Library) (provider : Provider).

Definition account_operation (op : AccountOperation) (address : string)
  : E IDataObject :=
  match op with
  | getBalanceOp =>
      balance ← request (getBalance address) (on_getBalance provider address);
      checksum ← attempt (formatAddress lib address) "invalid address";
      balanceEth ← attempt (formatEther balance) "overflow";
      mret [("address", JString checksum);
            ("balanceWei", JString (BigInt.toString balance));
            ("balanceEth", JString balanceEth)]
  | getNonceOp =>
      nonce ← request (getTransactionCount address)
                (on_getTransactionCount provider address);
      checksum ← attempt (formatAddress lib address) "invalid address";
      mret [("address", JString checksum); ("nonce", JNumber nonce)]
  | getTransactionCountOp =>
      count ← request (getTransactionCount address)
                (on_getTransactionCount provider address);
      checksum ← attempt (formatAddress lib address) "invalid address";
      mret [("address", JString checksum); ("transactionCount", JNumber count)]
  | isContractOp =>
      code ← request (getCode address) (on_getCode provider address);
      checksum ← attempt (formatAddress lib address) "invalid address";
      mret [("address", JString checksum);
            ("isContract", JBool (negb (String.eqb code "0x")))]
  | getCodeOp =>
      code ← request (getCode address) (on_getCode provider address);
      checksum ← attempt (formatAddress lib address) "invalid address";
      mret [("address", JString checksum); ("bytecode", JString code)]
  end.

Definition sendEth (item : Item) (client : ZkSyncClient) : E IDataObject :=
  match wallet client with
  | None => fail "Private key is required to send transactions"
  | Some _ =>
      if negb (isValidAddress lib (toAddress item))
      then fail "Invalid recipient address"
      else
        value ← attempt (parseEther (amount item)) "invalid FixedNumber string value";
        let paymaster :=
          if usePaymaster item
          then Networks.get_testnetPaymaster
                 (Networks.getNetworkConfig (network item) (customRpcUrl item))
          else None in
        txResponse ← request (sendTransaction (toAddress item) value paymaster)
                       (on_sendTransaction provider (toAddress item) value
                          paymaster);
        receipt ← request (waitReceipt (response_hash txResponse))
                    (on_waitReceipt provider (response_hash txResponse));
        valueEth ← attempt (formatEther (response_value txResponse)) "overflow";
        mret [("hash", JString (response_hash txResponse));
              ("from", JString (response_from txResponse));
              ("to", match response_to txResponse with
                     | Some a => JString a
                     | None => JNull
                     end);
              ("value", JString valueEth);
              ("status",
               JString (match receipt with
                        | Some r => if txr_status r =? 1 then "success"
                                    else "failed"
                        | None => "failed"
                        end));
              ("blockNumber", match receipt with
                              | Some r => JNumber (txr_blockNumber r)
                              | None => JNull
                              end);
              ("gasUsed", match receipt with
                          | Some r => JString (BigInt.toString (txr_gasUsed r))
                          | None => JNull
                          end)]
  end.

Definition dispatch (item : Item) (client : ZkSyncClient) : E IDataObject :=
  match operation item with
  | account op =>
      if negb (isValidAddress lib (address item))
      then fail "Invalid Ethereum address"
      else account_operation op (address item)
  | transaction_sendEth => sendEth item client
  | transaction_estimateGas =>
      value ← attempt (parseEther (amount item)) "invalid FixedNumber string value";
      gas ← request (estimateGas (toAddress item) value)
              (on_estimateGas provider (toAddress item) value);
      mret [("estimatedGas", JString (BigInt.toString gas))]
  | accountAbstraction_getAccountType =>
      code ← request (getCode (address item))
               (on_getCode provider (address item));
      let isSmartAccount :=
        negb (String.eqb code "0x") && (2 <? String.length code)%nat in
      checksum ← attempt (formatAddress lib (address item)) "invalid address";
      mret [("address", JString checksum);
            ("accountType",
             JString (if isSmartAccount then "smart_account" else "eoa"));
            ("hasCode", JBool isSmartAccount)]
  | accountAbstraction_getDeploymentNonce =>
      nonce ← request
                (contractCall NONCE_HOLDER "getDeploymentNonce" [address item])
                (on_contractCall provider NONCE_HOLDER "getDeploymentNonce"
                   [address item]);
      checksum ← attempt (formatAddress lib (address item)) "invalid address";
      mret [("address", JString checksum);
            ("deploymentNonce", JString (BigInt.toString nonce))]
  | token_getBalance =>
      balance ← request
                  (contractCall (contractAddress item) "balanceOf"
                     [address item])
                  (on_contractCall provider (contractAddress item) "balanceOf"
                     [address item]);
      decimals ← request (contractCall (contractAddress item) "decimals" [])
                   (on_contractCall provider (contractAddress item)
                      "decimals" []);
      formatted ← attempt (formatUnits balance (Z.to_nat decimals)) "overflow";
      mret [("address", JString (address item));
            ("contractAddress", JString (contractAddress item));
            ("balanceRaw", JString (BigInt.toString balance));
            ("balance", JString formatted);
            ("decimals", JNumber decimals)]
  | contract_getCode =>
      code ← request (getCode (address item))
               (on_getCode provider (address item));
      mret [("address", JString (address item));
            ("bytecode", JString code);
            ("hasCode", JBool (negb (String.eqb code "0x")))]
  | bridge_getL2TokenAddress =>
      l2Address ← request (l2TokenAddress (l1TokenAddress item))
                    (on_l2TokenAddress provider (l1TokenAddress item));
      mret [("l1TokenAddress", JString (l1TokenAddress item));
            ("l2TokenAddress", JString l2Address)]
  | utility_validateAddress =>
      let isValid := isValidAddress lib (validateAddressInput item) in
      mret [("address", JString (validateAddressInput item));
            ("isValid", JBool isValid);
            ("checksumAddress",
             match formatAddress lib (validateAddressInput item) with
             | Some a => JString a
             | None => JNull
             end)]
  end.

(** The body of the [try] block for one item. *)
Definition execute_item (item : Item) : E IDataObject :=
  client ← createZkSyncClient lib provider (network item) (customRpcUrl item)
             (privateKey item);
  dispatch item client.

(** The requests issued on behalf of one item, and how it ended. *)
Definition requests_of (item : Item) : list Request := fst (execute_item item []).
Definition result_of (item : Item) : string + IDataObject :=
  snd (execute_item item []).

(** The loop of [execute]: with [continueOnFail] an item's error becomes its
    output, otherwise the first error aborts the batch. *)
Fixpoint execute (continueOnFail : bool) (items : list Item)
  (returnData : list IDataObject) : E (list IDataObject) :=
  match items with
  | [] => mret returnData
  | item :: rest =>
      fun t =>
        let '(t', r) := execute_item item t in
        match r with
        | inr result => execute continueOnFail rest (returnData ++ [result]) t'
        | inl message =>
            if continueOnFail
            then execute continueOnFail rest
                   (returnData ++ [[("error", JString message)]]) t'
            else (t', inl message)
        end
  end.

End Execute.

End Node.

Module NodeSamples.
Import Client Node.

Definition provider : Provider :=
  {| on_getNetwork := Some 324;
     on_getBalance := fun _ => Some 0;
     on_getTransactionCount := fun _ => Some 0;
     on_getCode := fun _ => Some "0x";
     on_sendTransaction := fun _ _ _ => None;
     on_waitReceipt := fun _ => Some None;
     on_estimateGas := fun _ _ => Some 21000;
     on_l2TokenAddress := fun _ => None;
     on_contractCall := fun _ _ _ => Some 0 |}.

(** An item of the given operation whose every address parameter is the
    given string; no private key is configured. *)
Definition item (op : Operation) (address : string) : Item :=
  {| operation := op;
     address := address;
     toAddress := address;
     amount := "1";
     usePaymaster := false;
     contractAddress := address;
     l1TokenAddress := address;
     validateAddressInput := address;
     network := "mainnet";
     customRpcUrl := None;
     privateKey := None |}.

End NodeSamples.

Local Open Scope string_scope.
Local Open Scope list_scope.
Local Open Scope Z_scope.

(** ** [utils/unitConverter.ts]: display helpers *)

Module Display.

(** The position a (possibly negative) index of [String.prototype.slice]
    denotes in a string of length [len]. *)
Definition relative (len : nat) (i : Z) : nat :=
  if i <? 0 then Z.to_nat (Z.max (Z.of_nat len + i) 0)
  else Nat.min (Z.to_nat i) len.

(** [s.slice(start, end)]; without [end] the slice runs to the end. *)
Definition slice (s : string) (start : Z) (end_ : option Z) : string :=
  let chars := list_ascii_of_string s in
  let len := length chars in
  let from := relative len start in
  let to := match end_ with Some e => relative len e | None => len end in
  string_of_list_ascii (firstn (to - from) (skipn from chars)).

Definition truncateAddress (address : string) (chars : Z) : string :=
  String.append (slice address 0 (Some (chars + 2)))
    (String.append "..." (slice address (- chars) None)).

End Display.

(** ** [constants/systemContracts.ts] *)

Module SystemContracts.

Inductive SystemContractName :=
| EMPTY_CONTRACT | ECRECOVER | SHA256 | ECADD | ECMUL | ECPAIRING
| BOOTLOADER_FORMAL | ACCOUNT_CODE_STORAGE | NONCE_HOLDER
| KNOWN_CODES_STORAGE | IMMUTABLE_SIMULATOR | CONTRACT_DEPLOYER
| FORCE_DEPLOYER | L1_MESSENGER | MSG_VALUE_SIMULATOR | ETH_TOKEN
| SYSTEM_CONTEXT | BOOTLOADER_UTILITIES | COMPRESSOR | COMPLEX_UPGRADER
| KECCAK256 | PUBDATA_CHUNK_PUBLISHER | EVENT_WRITER.

Definition SYSTEM_CONTRACTS (name : SystemContractName) : string :=
  match name with
  | EMPTY_CONTRACT => "0x0000000000000000000000000000000000000000"
  | ECRECOVER => "0x0000000000000000000000000000000000000001"
  | SHA256 => "0x0000000000000000000000000000000000000002"
  | ECADD => "0x0000000000000000000000000000000000000006"
  | ECMUL => "0x0000000000000000000000000000000000000007"
  | ECPAIRING => "0x0000000000000000000000000000000000000008"
  | BOOTLOADER_FORMAL => "0x0000000000000000000000000000000000008001"
  | ACCOUNT_CODE_STORAGE => "0x0000000000000000000000000000000000008002"
  | NONCE_HOLDER => "0x0000000000000000000000000000000000008003"
  | KNOWN_CODES_STORAGE => "0x0000000000000000000000000000000000008004"
  | IMMUTABLE_SIMULATOR => "0x0000000000000000000000000000000000008005"
  | CONTRACT_DEPLOYER => "0x0000000000000000000000000000000000008006"
  | FORCE_DEPLOYER => "0x0000000000000000000000000000000000008007"
  | L1_MESSENGER => "0x0000000000000000000000000000000000008008"
  | MSG_VALUE_SIMULATOR => "0x0000000000000000000000000000000000008009"
  | ETH_TOKEN => "0x000000000000000000000000000000000000800A"
  | SYSTEM_CONTEXT => "0x000000000000000000000000000000000000800B"
  | BOOTLOADER_UTILITIES => "0x000000000000000000000000000000000000800C"
  | COMPRESSOR => "0x000000000000000000000000000000000000800D"
  | COMPLEX_UPGRADER => "0x000000000000000000000000000000000000800E"
  | KECCAK256 => "0x0000000000000000000000000000000000008010"
  | PUBDATA_CHUNK_PUBLISHER => "0x0000000000000000000000000000000000008011"
  | EVENT_WRITER => "0x000000000000000000000000000000000000800D"
  end.

Definition name_text (name : SystemContractName) : string :=
  match name with
  | EMPTY_CONTRACT => "EMPTY_CONTRACT"
  | ECRECOVER => "ECRECOVER"
  | SHA256 => "SHA256"
  | ECADD => "ECADD"
  | ECMUL => "ECMUL"
  | ECPAIRING => "ECPAIRING"
  | BOOTLOADER_FORMAL => "BOOTLOADER_FORMAL"
  | ACCOUNT_CODE_STORAGE => "ACCOUNT_CODE_STORAGE"
  | NONCE_HOLDER => "NONCE_HOLDER"
  | KNOWN_CODES_STORAGE => "KNOWN_CODES_STORAGE"
  | IMMUTABLE_SIMULATOR => "IMMUTABLE_SIMULATOR"
  | CONTRACT_DEPLOYER => "CONTRACT_DEPLOYER"
  | FORCE_DEPLOYER => "FORCE_DEPLOYER"
  | L1_MESSENGER => "L1_MESSENGER"
  | MSG_VALUE_SIMULATOR => "MSG_VALUE_SIMULATOR"
  | ETH_TOKEN => "ETH_TOKEN"
  | SYSTEM_CONTEXT => "SYSTEM_CONTEXT"
  | BOOTLOADER_UTILITIES => "BOOTLOADER_UTILITIES"
  | COMPRESSOR => "COMPRESSOR"
  | COMPLEX_UPGRADER => "COMPLEX_UPGRADER"
  | KECCAK256 => "KECCAK256"
  | PUBDATA_CHUNK_PUBLISHER => "PUBDATA_CHUNK_PUBLISHER"
  | EVENT_WRITER => "EVENT_WRITER"
  end.

Definition descriptions (name : SystemContractName) : string :=
  match name with
  | EMPTY_CONTRACT => "Empty contract placeholder"
  | ECRECOVER => "Elliptic curve signature recovery precompile"
  | SHA256 => "SHA-256 hash precompile"
  | ECADD => "Elliptic curve addition precompile"
  | ECMUL => "Elliptic curve multiplication precompile"
  | ECPAIRING => "Elliptic curve pairing precompile"
  | BOOTLOADER_FORMAL => "Formal bootloader address"
  | ACCOUNT_CODE_STORAGE => "Stores account bytecode hashes"
  | NONCE_HOLDER => "Manages account nonces for transactions and deployments"
  | KNOWN_CODES_STORAGE => "Registry of known bytecode hashes"
  | IMMUTABLE_SIMULATOR => "Simulates immutable variables for system contracts"
  | CONTRACT_DEPLOYER => "Handles contract deployment logic"
  | FORCE_DEPLOYER => "Force deployment capabilities"
  | L1_MESSENGER => "Handles L1 to L2 messaging"
  | MSG_VALUE_SIMULATOR => "Simulates ETH transfers in system context"
  | ETH_TOKEN => "Native ETH token system contract"
  | SYSTEM_CONTEXT => "Provides block and chain context"
  | BOOTLOADER_UTILITIES => "Utilities for bootloader operations"
  | COMPRESSOR => "Handles data compression"
  | COMPLEX_UPGRADER => "Handles complex contract upgrades"
  | KECCAK256 => "Keccak-256 hash precompile"
  | PUBDATA_CHUNK_PUBLISHER => "Publishes pubdata chunks to L1"
  | EVENT_WRITER => "Handles event emission"
  end.

Record ContractInfo := {
  info_name : string;
  info_address : string;
  info_description : string
}.

Definition getSystemContractInfo (name : SystemContractName) : ContractInfo :=
  {| info_name := name_text name;
     info_address := SYSTEM_CONTRACTS name;
     info_description := descriptions name |}.

(** The shape the repository's tests ask of an address: [0x] and forty
    hexadecimal digits. *)
Definition is_hex_char (c : ascii) : bool :=
  match Chars.char_digit c with Some _ => true | None => false end.

Definition is_hex_address (a : string) : bool :=
  match list_ascii_of_string a with
  | c0 :: c1 :: digits =>
      Ascii.eqb c0 "0" && Ascii.eqb c1 "x"
      && (length digits =? 40)%nat && forallb is_hex_char digits
  | _ => false
  end.

End SystemContracts.

(** ** [transport/zksyncClient.ts]: the receipt lookup with retries *)

Module Retry.
Import Client.

(** What the helper does, in order: a receipt lookup, or a pause. *)
Inductive Action :=
| Lookup (txHash : string)
| Sleep (milliseconds : Z).

(** The loop [for (let i = 0; i < maxRetries; i++)].  The provider's answer
    to the [i]-th lookup is [answer i]: [None] rejects, [Some None] is
    [null]. *)
Fixpoint retry (answer : Z -> option (option TransactionReceipt))
  (txHash : string) (maxRetries : Z) (n : nat) (i : Z) (log : list Action)
  : list Action * option (option TransactionReceipt) :=
  match n with
  | O => (log, Some None)
  | S n' =>
      let log := log ++ [Lookup txHash] in
      match answer i with
      | None => (log, None)
      | Some (Some receipt) => (log, Some (Some receipt))
      | Some None =>
          retry answer txHash maxRetries n' (i + 1)
            (if i <? maxRetries - 1 then log ++ [Sleep 2000] else log)
      end
  end.

Definition getTransactionReceipt
  (answer : Z -> option (option TransactionReceipt)) (txHash : string)
  (maxRetries : Z) : list Action * option (option TransactionReceipt) :=
  retry answer txHash maxRetries (Z.to_nat maxRetries) 0 [].

(** [k] fruitless rounds: a lookup and the pause after it, [k] times. *)
Definition rounds (txHash : string) (k : nat) : list Action :=
  concat (repeat [Lookup txHash; Sleep 2000] k).

End Retry.

(** ** Vocabulary of the statements about the action node *)

Module NodeSpec.
Import Client Node.

(** A computation whose log is the log it was given followed by what it
    adds, and whose result does not depend on the log it was given. *)
Definition appends {A} (m : E A) : Prop :=
  forall t, m t = (t ++ fst (m []), snd (m [])).

(** What the loop of [execute] pushes for one item when failures are
    tolerated. *)
Definition output_of (lib : Library) (provider : Provider) (item : Item)
  : IDataObject :=
  match result_of lib provider item with
  | inr result => result
  | inl message => [("error", JString message)]
  end.

Definition succeeds (lib : Library) (provider : Provider) (item : Item)
  : Prop :=
  exists result, result_of lib provider item = inr result.

Definition is_sendTransaction (q : Request) : bool :=
  match q with
  | sendTransaction _ _ _ => true
  | _ => false
  end.

End NodeSpec.

(** ** Vocabulary of further statements about the trigger *)

Module TriggerSpec.
Import Trigger.

Definition with_watchAddress (a : string) (p : Params) : Params :=
  {| triggerOn := triggerOn p; txHash := txHash p;
     confirmations := confirmations p; watchAddress := a;
     contractAddress := contractAddress p;
     filterAddress := filterAddress p; eventAbi := eventAbi p |}.

(** The lookup of a block answers, and the date of the block it gives, if
    it gives one, can be rendered. *)
Definition block_ok (provider : Provider) (blockNum : Z) : bool :=
  match getBlock provider blockNum false with
  | Some (Some block) => Date.valid (block_timestamp block * 1000)
  | Some None => true
  | None => false
  end.

(** The item newBlock emits for what the lookup of one block returned. *)
Definition block_item (provider : Provider) (config : Networks.Value)
  (blockNum : Z) : option Event :=
  match getBlock provider blockNum false with
  | Some (Some block) => newBlockEvent config block
  | _ => None
  end.

(** The item newL1Batch emits for one batch. *)
Definition batch_item (provider : Provider) (config : Networks.Value)
  (batchNum : Z) : option Event :=
  match getL1BatchDetails provider batchNum with
  | Some details => Some (NewL1BatchEvent details (net config))
  | None => None
  end.

(** The watermark an invocation starts from. *)
Definition start_of (kind : TriggerKind) (s : Store) (current : Z) : Z :=
  or_number (watermark kind s)
    (match kind with blockFinalized => current - 10 | _ => current - 1 end).

(** An item only an executed batch can produce. *)
Definition executed_item (e : Event) : Prop :=
  match e with
  | BlockFinalizedEvent _ status _ _ executeTxHash _ =>
      status = "verified" /\ truthy_hash executeTxHash = true
  | _ => False
  end.

Definition batch_of (e : Event) : option Z :=
  match e with
  | BlockFinalizedEvent n _ _ _ _ _ => Some n
  | _ => None
  end.

(** A provider whose [getLogs] answers with the given logs. *)
Definition with_logs (logs : list Log) (p : Provider) : Provider :=
  {| getBlockNumber := getBlockNumber p; getBlock := getBlock p;
     getL1BatchNumber := getL1BatchNumber p;
     getL1BatchDetails := getL1BatchDetails p;
     getTransactionReceipt := getTransactionReceipt p;
     getLogs := fun _ => Some logs; getBalance := getBalance p |}.

(** A log the tokenTransfer loop can read: both indexed addresses are
    there and the data field is a BigInt literal. *)
Definition token_log_ok (log : Log) : bool :=
  (3 <=? length (log_topics log))%nat
  && match BigInt.ofString (log_data log) with
     | Some _ => true
     | None => false
     end.

(** [log.topics.length >= 4]. *)
Definition has_tokenId (log : Log) : bool :=
  (4 <=? length (log_topics log))%nat.

(** [iface.parseLog] does not throw on the log. *)
Definition decodable (iface : Interface) (log : Log) : bool :=
  match iface_parseLog iface log with
  | Some _ => true
  | None => false
  end.

(** The item blockFinalized emits for one batch, given the latches as they
    were when the invocation started. *)
Definition finalized_item (provider : Provider)
  (config : Networks.Value) (s : Store) (batchNum : Z)
  : option Event :=
  match getL1BatchDetails provider batchNum with
  | Some details =>
      if String.eqb (batch_status details) "verified"
         && truthy_hash (batch_executeTxHash details)
         && negb (batch_latched s batchNum)
      then Some (blockFinalizedEvent config details)
      else None
  | None => None
  end.

(** An item of ethReceived ([received = true]) or ethSent for the watched
    address. *)
Definition eth_item (received : bool) (watch : string) (e : Event) : Prop :=
  match e with
  | EthTransferEvent type _ from to valueWei valueEth _ _ =>
      type = (if received then "received" else "sent") /\
      lower_eq (if received then to else from) watch = true /\
      (valueWei = None \/ valueWei = Some "0" -> valueEth = "0")
  | _ => False
  end.

(** The keys of the store other than the two a blockFinalized invocation
    writes. *)
Definition same_but_finalized (s s' : Store) : Prop :=
  lastBlock s' = lastBlock s /\ lastL1Batch s' = lastL1Batch s /\
  lastCheckedBlock s' = lastCheckedBlock s /\
  lastTokenBlock s' = lastTokenBlock s /\ lastNftBlock s' = lastNftBlock s /\
  lastEventBlock s' = lastEventBlock s /\
  lastBalance s' = lastBalance s /\ tx_ s' = tx_ s.

(** What one invocation of each kind may have done to the store. *)
Definition store_step (params : Params) (s s' : Store) : Prop :=
  match triggerOn params with
  | newBlock =>
      s' = s \/ exists c, c > or_number (lastBlock s) (c - 1) /\
                         s' = set_lastBlock c s
  | newL1Batch =>
      s' = s \/ exists c, c > or_number (lastL1Batch s) (c - 1) /\
                         s' = set_lastL1Batch c s
  | ethReceived | ethSent =>
      s' = s \/ exists c, c > or_number (lastCheckedBlock s) (c - 1) /\
                         s' = set_lastCheckedBlock c s
  | tokenTransfer =>
      s' = s \/ exists c, c > or_number (lastTokenBlock s) (c - 1) /\
                         s' = set_lastTokenBlock c s
  | nftTransfer =>
      s' = s \/ exists c, c > or_number (lastNftBlock s) (c - 1) /\
                         s' = set_lastNftBlock c s
  | contractEvent =>
      s' = s \/ exists c, c > or_number (lastEventBlock s) (c - 1) /\
                         s' = set_lastEventBlock c s
  | transactionConfirmed => s' = s \/ s' = set_tx_ (txHash params) true s
  | balanceChange => s' = s \/ exists b, s' = set_lastBalance b s
  | blockFinalized => same_but_finalized s s'
  end.

(** [BigInt(snapshot)] succeeds, and the previous balance it gives, the
    current balance and their difference are all within the range the
    ether formatter renders. *)
Definition snapshot_reads (current : Z) (snapshot : string) : bool :=
  match BigInt.ofString snapshot with
  | Some previous =>
      Ethers.in_range previous && Ethers.in_range current
      && Ethers.in_range (current - previous)
  | None => false
  end.

(** The invocations of a run that watch the transaction hash [h]. *)
Definition asks_tx (h : string) (i : Invocation) : bool :=
  match triggerOn (inv_params i) with
  | transactionConfirmed => String.eqb (txHash (inv_params i)) h
  | _ => false
  end.

(** The items handed back by those invocations of a run that satisfy
    [p]. *)
Fixpoint emitted_by (p : Invocation -> bool) (invs : list Invocation)
  (os : list Outcome) : list Event :=
  match invs, os with
  | i :: invs', o :: os' =>
      (if p i then emitted o else []) ++ emitted_by p invs' os'
  | _, _ => []
  end.

(** The watermark an invocation without a stored one starts from. *)
Definition seed_of (kind : TriggerKind) (current : Z) : Z :=
  match kind with
  | blockFinalized => current - 10
  | _ => current - 1
  end.

(** The store with the watermark key of a kind set. *)
Definition set_watermark (kind : TriggerKind) (v : Z) (s : Store) : Store :=
  match kind with
  | newBlock => set_lastBlock v s
  | newL1Batch => set_lastL1Batch v s
  | ethReceived | ethSent => set_lastCheckedBlock v s
  | tokenTransfer => set_lastTokenBlock v s
  | nftTransfer => set_lastNftBlock v s
  | contractEvent => set_lastEventBlock v s
  | blockFinalized => set_lastFinalizedBatch v s
  | transactionConfirmed | balanceChange => s
  end.

(** Two providers that give the same tips and the same answers about every
    block and batch from [first] on, and to every log query that starts at
    [first] or later; about what lies before they may differ. *)
Definition agree_from (first : Z) (p p' : Provider) : Prop :=
  getBlockNumber p' = getBlockNumber p /\
  getL1BatchNumber p' = getL1BatchNumber p /\
  (forall n full, first <= n -> getBlock p' n full = getBlock p n full) /\
  (forall n, first <= n -> getL1BatchDetails p' n = getL1BatchDetails p n) /\
  (forall f, first <= filter_fromBlock f -> getLogs p' f = getLogs p f).

(** A computation that neither reads nor writes the store. *)
Definition oblivious {A} (m : M A) : Prop :=
  exists r, forall s, m s = (s, r).

(** What an invocation that starts from the seed runs between reading the
    tip [current] and storing it: the scan of the one block or batch
    [current], of the logs of the block [current], or, for blockFinalized,
    of the ten batches up to [current]. *)
Definition unit_scan (lib : Library) (provider : Provider) (params : Params)
  (config : Networks.Value) (kind : TriggerKind) (current : Z)
  : M (list Event) :=
  match kind with
  | newBlock => scan_newBlock provider config 1 current []
  | newL1Batch => scan_newL1Batch provider config 1 current []
  | ethReceived =>
      if negb (isValidAddress lib (watchAddress params)) then throw
      else scan_eth provider params config true 1 current []
  | ethSent =>
      if negb (isValidAddress lib (watchAddress params)) then throw
      else scan_eth provider params config false 1 current []
  | tokenTransfer =>
      logs ← await (getLogs provider
                      (transferFilter lib params current current));
      scan_logs (scan_tokenLog params config) logs []
  | nftTransfer =>
      logs ← await (getLogs provider
                      (transferFilter lib params current current));
      scan_logs (scan_nftLog params config) logs []
  | contractEvent =>
      scan_contractEvent lib provider params config current current
  | blockFinalized =>
      scan_blockFinalized provider config 10 (current - 9) []
  | transactionConfirmed | balanceChange => ret []
  end.

End TriggerSpec.

Local Open Scope char_scope.
Local Open Scope list_scope.
Local Open Scope Z_scope.

(** * Facts about digits, [BigInt] and the fixed-point codec *)

Module CharsFacts.
Import Chars.

Lemma is_digit_val c : is_digit c = true -> (digit_val c < 10)%N.
Proof.
  unfold is_digit, digit_val. intros H.
  apply andb_true_iff in H as [H1 H2].
  apply N.leb_le in H1, H2. lia.
Qed.

Lemma is_digit_radix c :
  is_digit c = true -> radix_digit 10 c = Some (digit_val c).
Proof.
  intros H. pose proof (is_digit_val c H) as Hv.
  unfold radix_digit, char_digit. unfold is_digit in H. cbv zeta in *.
  rewrite H. fold (digit_val c).
  apply N.ltb_lt in Hv. now rewrite Hv.
Qed.

Lemma is_digit_neq c (k : ascii) :
  is_digit c = true -> is_digit k = false -> Ascii.eqb c k = false.
Proof.
  intros Hc Hk. destruct (Ascii.eqb_spec c k) as [->|]; congruence.
Qed.

Lemma is_digit_not_space c : is_digit c = true -> is_space c = false.
Proof.
  unfold is_digit, is_space. cbv zeta. intros H.
  apply andb_true_iff in H as [H1 H2]. apply N.leb_le in H1, H2.
  apply orb_false_iff. split.
  - apply N.eqb_neq. lia.
  - apply andb_false_iff. right. apply N.leb_gt. lia.
Qed.

Lemma uint_chars_digits d :
  Forall (fun c => is_digit c = true) (uint_chars d).
Proof. induction d; simpl; constructor; auto. Qed.

Lemma uint_chars_nonnil d : d <> Decimal.Nil -> uint_chars d <> [].
Proof. destruct d; simpl; congruence. Qed.

Lemma val_acc_app l1 l2 a : val_acc (l1 ++ l2) a = val_acc l2 (val_acc l1 a).
Proof. unfold val_acc. apply fold_left_app. Qed.

Lemma val_acc_zeros k : val_acc (repeat "0"%char k) 0 = 0%N.
Proof. induction k; simpl; auto. Qed.

Lemma of_uint_acc_val d p :
  Npos (Pos.of_uint_acc d p) = val_acc (uint_chars d) (Npos p).
Proof.
  revert p. induction d; intros p; simpl; try reflexivity;
    rewrite IHd; f_equal; unfold digit_val; simpl; lia.
Qed.

Lemma of_uint_val d : N.of_uint d = val_digits (uint_chars d).
Proof.
  unfold N.of_uint, val_digits.
  induction d; simpl; try reflexivity; try assumption;
    apply of_uint_acc_val.
Qed.

Lemma val_to_uint n : val_digits (uint_chars (N.to_uint n)) = n.
Proof. rewrite <- of_uint_val. apply DecimalN.Unsigned.of_to. Qed.

Lemma to_uint_chars_nonnil n : uint_chars (N.to_uint n) <> [].
Proof.
  apply uint_chars_nonnil. destruct n; simpl.
  - discriminate.
  - apply DecimalPos.Unsigned.to_uint_nonnil.
Qed.

Lemma radix_acc_digits l a :
  Forall (fun c => is_digit c = true) l ->
  radix_acc 10 l a = Some (val_acc l a).
Proof.
  intros H. revert a. induction H as [|c l Hc _ IH]; intros a; simpl.
  - reflexivity.
  - rewrite (is_digit_radix c Hc). apply IH.
Qed.

Lemma parse_radix_digits l :
  Forall (fun c => is_digit c = true) l -> l <> [] ->
  parse_radix 10 l = Some (val_digits l).
Proof.
  intros H Hn. destruct l; [congruence|].
  unfold parse_radix. now apply radix_acc_digits.
Qed.

(** [span] stops exactly at the first character that is not a digit. *)
Lemma span_digits l r :
  Forall (fun c => is_digit c = true) l ->
  match r with [] => True | c :: _ => is_digit c = false end ->
  span is_digit (l ++ r) = (l, r).
Proof.
  intros H Hr. induction H as [|c l Hc _ IH]; simpl.
  - destruct r as [|c r]; simpl; [reflexivity|]. now rewrite Hr.
  - now rewrite Hc, IH.
Qed.

Lemma skipn_repeat {A} (x : A) n m :
  skipn n (repeat x m) = repeat x (m - n).
Proof.
  revert m. induction n as [|n IH]; intros [|m]; simpl; auto.
Qed.

Lemma firstn_repeat {A} (x : A) n m :
  firstn n (repeat x m) = repeat x (Nat.min n m).
Proof.
  revert m. induction n as [|n IH]; intros [|m]; simpl; auto.
  now rewrite IH.
Qed.

Lemma drop_spaces_head c l : is_space c = false -> drop_spaces (c :: l) = c :: l.
Proof. intros H. simpl. now rewrite H. Qed.

(** A string that neither starts nor ends with white space is its own trim. *)
Lemma trim_id c l c' :
  is_space c = false -> is_space c' = false ->
  trim (c :: l ++ [c']) = c :: l ++ [c'].
Proof.
  intros H H'. unfold trim. rewrite drop_spaces_head by assumption.
  replace (rev (c :: l ++ [c'])) with (c' :: rev (c :: l))
    by (change (c :: l ++ [c']) with ((c :: l) ++ [c']);
        rewrite rev_app_distr; reflexivity).
  rewrite drop_spaces_head by assumption.
  change (c' :: rev (c :: l)) with (rev [c'] ++ rev (c :: l)).
  rewrite <- rev_app_distr. apply rev_involutive.
Qed.

Lemma trim_single c : is_space c = false -> trim [c] = [c].
Proof. intros H. unfold trim. simpl. rewrite H. simpl. now rewrite H. Qed.

End CharsFacts.

Module BigIntFacts.
Import Chars CharsFacts.

Local Abbreviation digits l := (Forall (fun c => is_digit c = true) l).

Lemma trim_digits ds : digits ds -> Chars.trim ds = ds.
Proof.
  intros H. destruct ds as [|c l]; [reflexivity|].
  destruct (exists_last (l := c :: l)) as (l' & c' & E); [congruence|].
  assert (Hc : is_digit c = true) by (inversion H; assumption).
  assert (Hc' : is_digit c' = true).
  { rewrite E in H. apply Forall_app in H as [_ H]. now inversion H. }
  destruct l' as [|c0 l'].
  - simpl in E. rewrite E. apply trim_single. now apply is_digit_not_space.
  - simpl in E. injection E as -> ->.
    apply trim_id; now apply is_digit_not_space.
Qed.

Lemma trim_minus_digits ds :
  digits ds -> ds <> [] -> Chars.trim ("-" :: ds) = "-"%char :: ds.
Proof.
  intros H Hn.
  destruct (exists_last Hn) as (l' & c' & ->).
  apply Forall_app in H as [_ H]. inversion H; subst.
  apply trim_id; [reflexivity|now apply is_digit_not_space].
Qed.

Lemma radix_prefix_digits ds : digits ds -> BigInt.radix_prefix ds = None.
Proof.
  intros H. destruct ds as [|c0 [|c1 r]]; try reflexivity.
  assert (H1 : is_digit c1 = true).
  { inversion H as [|? ? _ H']; subst. now inversion H'. }
  unfold BigInt.radix_prefix.
  rewrite !(is_digit_neq c1) by (assumption || reflexivity).
  simpl. now destruct (Ascii.eqb c0 "0").
Qed.

Lemma ofChars_digits ds :
  digits ds -> ds <> [] ->
  BigInt.ofChars ds = Some (Z.of_N (val_digits ds)).
Proof.
  intros H Hn. unfold BigInt.ofChars. cbv zeta.
  rewrite (trim_digits ds H), (radix_prefix_digits ds H).
  destruct ds as [|c r]; [congruence|].
  assert (Hc : is_digit c = true) by (inversion H; assumption).
  rewrite !(is_digit_neq c) by (assumption || reflexivity).
  now rewrite (parse_radix_digits (c :: r) H Hn).
Qed.

Lemma ofChars_minus_digits ds :
  digits ds -> ds <> [] ->
  BigInt.ofChars ("-" :: ds) = Some (- Z.of_N (val_digits ds)).
Proof.
  intros H Hn. unfold BigInt.ofChars. cbv zeta.
  rewrite (trim_minus_digits ds H Hn).
  replace (BigInt.radix_prefix ("-"%char :: ds)) with (@None (N * list ascii))
    by (destruct ds; reflexivity).
  change (Ascii.eqb "-" "-") with true. cbv iota.
  now rewrite (parse_radix_digits ds H Hn).
Qed.

(** Printing a [bigint] and reading it back gives the same integer. *)
Lemma ofChars_toChars z : BigInt.ofChars (BigInt.toChars z) = Some z.
Proof.
  unfold BigInt.toChars.
  pose proof (uint_chars_digits (N.to_uint (Z.abs_N z))) as Hd.
  pose proof (to_uint_chars_nonnil (Z.abs_N z)) as Hn.
  destruct (Z.ltb_spec z 0).
  - rewrite ofChars_minus_digits, val_to_uint by assumption. f_equal. lia.
  - rewrite ofChars_digits, val_to_uint by assumption. f_equal. lia.
Qed.

Lemma ofString_toString z : BigInt.ofString (BigInt.toString z) = Some z.
Proof.
  unfold BigInt.ofString, BigInt.toString.
  rewrite list_ascii_of_string_of_list_ascii. apply ofChars_toChars.
Qed.

Lemma toString_inj z1 z2 : BigInt.toString z1 = BigInt.toString z2 -> z1 = z2.
Proof.
  intros E. pose proof (ofString_toString z1) as H1.
  rewrite E, ofString_toString in H1. congruence.
Qed.

End BigIntFacts.

Module EthersFacts.
Import Chars CharsFacts BigIntFacts.

Local Abbreviation digits l := (Forall (fun c => is_digit c = true) l).
Local Abbreviation zeros k := (repeat "0"%char k).

Lemma zeros_digits k : digits (zeros k).
Proof. induction k; simpl; constructor; auto. Qed.

Lemma all_zeros_zeros k : Ethers.all_zeros (zeros k) = true.
Proof. induction k; simpl; auto. Qed.

Lemma pad_left_spec fuel d str :
  (d < fuel + length str)%nat ->
  exists k, Ethers.pad_left fuel d str = zeros k ++ str /\
            (d < length (zeros k ++ str))%nat.
Proof.
  revert str. induction fuel as [|f IH]; intros str H; simpl.
  - exists 0%nat. simpl. split; [reflexivity|lia].
  - destruct (Nat.leb_spec (length str) d).
    + destruct (IH (Ethers.Zeros ++ str)) as (k & E & L).
      { rewrite length_app. unfold Ethers.Zeros. rewrite repeat_length. lia. }
      exists (k + 128)%nat. unfold Ethers.Zeros in *.
      rewrite repeat_app, <- app_assoc. split; [exact E|].
      now rewrite app_assoc, <- repeat_app, !length_app in *.
    + exists 0%nat. simpl. split; [reflexivity|lia].
Qed.

Lemma pad_right_spec fuel d dec :
  (d <= fuel + length dec)%nat ->
  exists k, Ethers.pad_right fuel d dec = dec ++ zeros k /\
            (d <= length dec + k)%nat.
Proof.
  revert dec. induction fuel as [|f IH]; intros dec H; simpl.
  - exists 0%nat. rewrite app_nil_r. split; [reflexivity|lia].
  - destruct (Nat.ltb_spec (length dec) d).
    + destruct (IH (dec ++ Ethers.Zeros)) as (k & E & L).
      { rewrite length_app. unfold Ethers.Zeros. rewrite repeat_length. lia. }
      exists (128 + k)%nat. unfold Ethers.Zeros in *.
      rewrite repeat_app, app_assoc. split; [exact E|].
      rewrite length_app, repeat_length in L. lia.
    + exists 0%nat. rewrite app_nil_r. split; [reflexivity|lia].
Qed.

(** Trimming in front of the point drops zeros only, and keeps one digit. *)
Lemma trim_zeros_point w rest :
  digits w -> w <> [] ->
  exists k w', w = zeros k ++ w' /\ w' <> [] /\ digits w' /\
    Ethers.trim_zeros (w ++ "." :: rest) = w' ++ "."%char :: rest.
Proof.
  intros H. induction H as [|c w Hc Hw IH]; intros Hn; [congruence|].
  simpl. destruct (Ascii.eqb_spec c "0") as [->|Hc0].
  - destruct w as [|c1 w1].
    + exists 0%nat, ["0"%char]. simpl. repeat split; auto; congruence.
    + assert (H1 : is_digit c1 = true) by (inversion Hw; assumption).
      destruct IH as (k & w' & E & Hn' & Hd' & T); [congruence|].
      exists (S k), w'.
      change ((c1 :: w1) ++ "."%char :: rest)
        with (c1 :: (w1 ++ "."%char :: rest)) in *.
      cbv iota. rewrite (is_digit_neq c1 "." H1 eq_refl).
      simpl. rewrite <- E. repeat split; auto.
  - exists 0%nat, (c :: w). simpl. repeat split; auto; congruence.
Qed.

(** The shape of a printed magnitude: digits, a point, digits; padding the
    fraction back to [d] places and reading the digits gives the value. *)
Lemma toChars_shape (n : N) (d : nat) :
  (0 < d)%nat ->
  exists w f j,
    Ethers.toChars (Z.of_N n) d = w ++ "."%char :: f /\
    digits w /\ w <> [] /\ digits f /\ f <> [] /\
    length (f ++ zeros j) = d /\
    val_digits (w ++ f ++ zeros j) = n.
Proof.
  intros Hd. unfold Ethers.toChars.
  replace (Z.of_N n <? 0) with false by (symmetry; apply Z.ltb_ge; lia).
  destruct d as [|d']; [lia|]. set (d := S d') in *.
  unfold BigInt.toChars.
  replace (Z.abs (Z.of_N n) <? 0) with false by (symmetry; apply Z.ltb_ge; lia).
  replace (Z.abs_N (Z.abs (Z.of_N n))) with n by lia.
  set (str0 := uint_chars (N.to_uint n)).
  assert (D0 : digits str0) by apply uint_chars_digits.
  assert (V0 : val_digits str0 = n) by apply val_to_uint.
  destruct (pad_left_spec (S d) d str0) as (k & -> & L); [lia|].
  set (str := zeros k ++ str0) in *.
  assert (Ds : digits str) by (apply Forall_app; split; [apply zeros_digits|assumption]).
  assert (Vs : val_digits str = n).
  { unfold str, val_digits. now rewrite val_acc_app, val_acc_zeros. }
  set (index := (length str - d)%nat).
  set (whole := firstn index str). set (frac := skipn index str).
  assert (Ewf : whole ++ frac = str) by apply firstn_skipn.
  assert (Lf : length frac = d) by (unfold frac; rewrite length_skipn; lia).
  assert (Lw : whole <> []).
  { intros E. apply (f_equal (@length ascii)) in E.
    unfold whole in E. rewrite length_firstn in E. simpl in E. lia. }
  assert (Dw : digits whole) by (rewrite <- Ewf in Ds; now apply Forall_app in Ds).
  assert (Df : digits frac) by (rewrite <- Ewf in Ds; now apply Forall_app in Ds).
  destruct (trim_zeros_point whole frac Dw Lw) as (k1 & w' & Ew & Nw' & Dw' & ->).
  replace (rev (w' ++ "."%char :: frac)) with (rev frac ++ "."%char :: rev w')
    by (rewrite rev_app_distr; simpl; now rewrite <- app_assoc).
  destruct (trim_zeros_point (rev frac) (rev w')) as (j & fr & Ef & Nf & Dfr & ->).
  { now apply Forall_rev. }
  { intros E. apply (f_equal (@length ascii)) in E.
    rewrite length_rev in E. simpl in E. lia. }
  replace (rev (fr ++ "."%char :: rev w')) with (w' ++ "."%char :: rev fr)
    by (rewrite rev_app_distr; simpl; now rewrite rev_involutive, <- app_assoc).
  assert (Ef' : frac = rev fr ++ zeros j).
  { rewrite <- (rev_involutive frac), Ef, rev_app_distr. now rewrite rev_repeat. }
  exists w', (rev fr), j. simpl.
  repeat split; auto.
  - now apply Forall_rev.
  - intros E. apply Nf. apply (f_equal (@rev ascii)) in E.
    now rewrite rev_involutive in E.
  - now rewrite <- Ef'.
  - transitivity (val_digits (whole ++ frac)); [|now rewrite Ewf].
    rewrite Ew, <- Ef'. unfold val_digits.
    now rewrite <- app_assoc, (val_acc_app (zeros k1)), val_acc_zeros.
Qed.

Lemma fromChars_point sign w f j d :
  (sign = [] \/ sign = ["-"%char]) ->
  digits w -> w <> [] -> digits f -> f <> [] ->
  length (f ++ zeros j) = d ->
  Ethers.format_ok d = true ->
  Ethers.fromChars (sign ++ w ++ "." :: f) d =
    match BigInt.ofChars (sign ++ w ++ f ++ zeros j) with
    | Some v => if Ethers.in_range v then Some v else None
    | None => None
    end.
Proof.
  intros Hs Dw Nw Df Nf L Fok. unfold Ethers.fromChars.
  assert (E0 : match sign ++ w ++ "."%char :: f with
               | c :: r => if Ascii.eqb c "-" then (["-"%char], r)
                           else ([], sign ++ w ++ "."%char :: f)
               | [] => ([], sign ++ w ++ "."%char :: f)
               end = (sign, w ++ "."%char :: f)).
  { destruct Hs as [-> | ->]; [|reflexivity].
    destruct w as [|c w]; [congruence|]. simpl.
    assert (Hc : is_digit c = true) by (inversion Dw; assumption).
    now rewrite (is_digit_neq c "-" Hc eq_refl). }
  rewrite E0. clear E0.
  rewrite (span_digits w ("."%char :: f) Dw eq_refl).
  change (Ascii.eqb "." ".") with true. cbv iota.
  rewrite <- (app_nil_r f) at 1.
  rewrite (span_digits f [] Df I).
  replace (length w + length f =? 0)%nat with false
    by (symmetry; apply Nat.eqb_neq; destruct w; simpl; [congruence|lia]).
  rewrite Fok. simpl negb. cbv iota.
  destruct (pad_right_spec d d f) as (m & -> & Lm); [lia|].
  rewrite length_app, repeat_length in L.
  assert (Hdrop : skipn d (f ++ zeros m) = zeros (length f + m - d)).
  { rewrite drop_app_ge by lia. rewrite skipn_repeat. f_equal. lia. }
  assert (Htake : firstn d (f ++ zeros m) = f ++ zeros j).
  { rewrite take_app_ge by lia. rewrite firstn_repeat. do 2 f_equal. lia. }
  rewrite Hdrop, all_zeros_zeros, Htake. simpl negb. cbv iota.
  now destruct w.
Qed.

Lemma toChars_sign v d :
  Ethers.toChars v d =
  (if v <? 0 then ["-"%char] else []) ++ Ethers.toChars (Z.of_N (Z.abs_N v)) d.
Proof.
  rewrite N2Z.inj_abs_N. unfold Ethers.toChars.
  rewrite Z.abs_idemp.
  replace (Z.abs v <? 0) with false by (symmetry; apply Z.ltb_ge; lia).
  destruct d; reflexivity.
Qed.

Lemma fromChars_whole sign w :
  (sign = [] \/ sign = ["-"%char]) -> digits w -> w <> [] ->
  Ethers.fromChars (sign ++ w) 0 =
    match BigInt.ofChars (sign ++ w) with
    | Some v => if Ethers.in_range v then Some v else None
    | None => None
    end.
Proof.
  intros Hs Dw Nw. unfold Ethers.fromChars.
  assert (E0 : match sign ++ w with
               | c :: r => if Ascii.eqb c "-" then (["-"%char], r)
                           else ([], sign ++ w)
               | [] => ([], sign ++ w)
               end = (sign, w)).
  { destruct Hs as [-> | ->]; [|reflexivity].
    destruct w as [|c w]; [congruence|]. simpl.
    assert (Hc : is_digit c = true) by (inversion Dw; assumption).
    now rewrite (is_digit_neq c "-" Hc eq_refl). }
  rewrite E0. clear E0.
  rewrite <- (app_nil_r w) at 1.
  rewrite (span_digits w [] Dw I). simpl span. cbv iota beta.
  replace (length w + length (@nil ascii) =? 0)%nat with false
    by (symmetry; apply Nat.eqb_neq; destruct w; simpl; [congruence|lia]).
  simpl. rewrite app_nil_r. now destruct w.
Qed.

(** Reading back what the codec printed gives the integer that was printed,
    at every scale the format admits. *)
Theorem fromChars_toChars v d :
  Ethers.format_ok d = true -> Ethers.in_range v = true ->
  Ethers.fromChars (Ethers.toChars v d) d = Some v.
Proof.
  intros Fok Hr. rewrite toChars_sign.
  assert (Hs : (if v <? 0 then ["-"%char] else []) = [] \/
               (if v <? 0 then ["-"%char] else []) = ["-"%char])
    by (destruct (v <? 0); auto).
  destruct d as [|d'].
  - unfold Ethers.toChars at 1.
    replace (Z.of_N (Z.abs_N v) <? 0) with false by (symmetry; apply Z.ltb_ge; lia).
    unfold BigInt.toChars.
    replace (Z.abs (Z.of_N (Z.abs_N v)) <? 0) with false
      by (symmetry; apply Z.ltb_ge; lia).
    replace (Z.abs_N (Z.abs (Z.of_N (Z.abs_N v)))) with (Z.abs_N v) by lia.
    simpl app at 2.
    pose proof (uint_chars_digits (N.to_uint (Z.abs_N v))) as Hd.
    pose proof (to_uint_chars_nonnil (Z.abs_N v)) as Hn.
    rewrite fromChars_whole by assumption.
    destruct (Z.ltb_spec v 0).
    + simpl app. rewrite ofChars_minus_digits, val_to_uint by assumption.
      replace (- Z.of_N (Z.abs_N v)) with v by lia. now rewrite Hr.
    + simpl app. rewrite ofChars_digits, val_to_uint by assumption.
      replace (Z.of_N (Z.abs_N v)) with v by lia. now rewrite Hr.
  - destruct (toChars_shape (Z.abs_N v) (S d')) as
      (w & f & j & -> & Dw & Nw & Df & Nf & L & V); [lia|].
    rewrite (fromChars_point _ w f j) by assumption.
    assert (Dall : digits (w ++ f ++ zeros j)).
    { repeat (apply Forall_app; split); auto using zeros_digits. }
    assert (Nall : w ++ f ++ zeros j <> []) by (destruct w; simpl; congruence).
    destruct (Z.ltb_spec v 0).
    + simpl app. rewrite ofChars_minus_digits, V by assumption.
      replace (- Z.of_N (Z.abs_N v)) with v by lia. now rewrite Hr.
    + simpl app. rewrite ofChars_digits, V by assumption.
      replace (Z.of_N (Z.abs_N v)) with v by lia. now rewrite Hr.
Qed.

Theorem parseUnits_formatUnits v d s :
  Ethers.formatUnits v d = Some s -> Ethers.parseUnits s d = Some v.
Proof.
  unfold Ethers.formatUnits, Ethers.parseUnits.
  destruct (Ethers.format_ok d) eqn:Fok; [|discriminate].
  destruct (Ethers.in_range v) eqn:Hr; [|discriminate].
  simpl. intros [= <-].
  rewrite list_ascii_of_string_of_list_ascii.
  now apply fromChars_toChars.
Qed.

(** Whatever [parseUnits] accepts lies in the signed 512-bit range. *)
Lemma parseUnits_in_range s d v :
  Ethers.parseUnits s d = Some v -> Ethers.in_range v = true.
Proof.
  unfold Ethers.parseUnits, Ethers.fromChars.
  repeat match goal with
         | |- context [match ?x with _ => _ end] => destruct x eqn:?
         end; try discriminate; congruence.
Qed.

End EthersFacts.

Local Open Scope string_scope.
Local Open Scope list_scope.
Local Open Scope Z_scope.

(** * Unit conversion *)

Module UnitConverterFacts.
Import UnitConverter EthersFacts BigIntFacts.

Lemma UNIT_DECIMALS_ok u : Ethers.format_ok (UNIT_DECIMALS u) = true.
Proof. destruct u; reflexivity. Qed.

Lemma formatUnits_in_range v u :
  Ethers.in_range v = true ->
  Ethers.formatUnits v (UNIT_DECIMALS u) =
    Some (string_of_list_ascii (Ethers.toChars v (UNIT_DECIMALS u))).
Proof.
  intros H. unfold Ethers.formatUnits. now rewrite UNIT_DECIMALS_ok, H.
Qed.

(** Converting is: read the amount in the source unit, print it in the
    target unit. *)
Lemma convertUnits_parse A U V n :
  Ethers.parseUnits A (UNIT_DECIMALS U) = Some n ->
  convertUnits A U V = Ethers.formatUnits n (UNIT_DECIMALS V).
Proof. intros H. unfold convertUnits. now rewrite H. Qed.

(** The repository's own unit tests of the converter. *)
Example test_convert_ether_to_wei :
  convertUnits "1" ether wei = Some "1000000000000000000".
Proof. vm_compute. reflexivity. Qed.

Example test_convert_wei_to_ether :
  convertUnits "1000000000000000000" wei ether = Some "1.0".
Proof. vm_compute. reflexivity. Qed.

Example test_convert_gwei_to_wei :
  convertUnits "1" gwei wei = Some "1000000000".
Proof. vm_compute. reflexivity. Qed.

Example test_weiToEth : weiToEth 1000000000000000000 = Some "1.0".
Proof. vm_compute. reflexivity. Qed.

Example test_ethToWei : ethToWei "1" = Some 1000000000000000000.
Proof. vm_compute. reflexivity. Qed.

Example test_weiToGwei : weiToGwei 1000000000 = Some "1.0".
Proof. vm_compute. reflexivity. Qed.

(** C3, as stated, fails: one ether goes to wei and comes back as ["1.0"],
    which is not the string ["1"] that went in. *)
Lemma convertUnits_roundtrip_not_exact :
  exists B,
    convertUnits "1" ether wei = Some B /\
    convertUnits B wei ether = Some "1.0" /\
    "1.0" <> "1".
Proof.
  exists "1000000000000000000".
  split; [vm_compute; reflexivity|].
  split; [vm_compute; reflexivity|discriminate].
Qed.

(** C3, amended: for every amount [A] that [parseUnits] accepts in unit [U]
    (it denotes [n] base units) and every pair of units, converting to [V]
    and back succeeds and yields the canonical rendering [C] of [n] in [U];
    [C] denotes the same amount as [A], it is [A] itself exactly when [A] is
    already that rendering, and a further round trip leaves [C] unchanged. *)
Theorem convertUnits_roundtrip (A : string) (U V : EthUnit) (n : Z) :
  Ethers.parseUnits A (UNIT_DECIMALS U) = Some n ->
  exists B C,
    convertUnits A U V = Some B /\
    convertUnits B V U = Some C /\
    Ethers.formatUnits n (UNIT_DECIMALS U) = Some C /\
    Ethers.parseUnits C (UNIT_DECIMALS U) = Some n /\
    (C = A <-> Ethers.formatUnits n (UNIT_DECIMALS U) = Some A) /\
    (exists B', convertUnits C U V = Some B' /\ convertUnits B' V U = Some C).
Proof.
  intros HA.
  pose proof (parseUnits_in_range _ _ _ HA) as Hr.
  pose proof (formatUnits_in_range n V Hr) as HB.
  pose proof (formatUnits_in_range n U Hr) as HC.
  pose proof (parseUnits_formatUnits _ _ _ HB) as HB'.
  pose proof (parseUnits_formatUnits _ _ _ HC) as HC'.
  eexists _, _.
  split; [rewrite (convertUnits_parse _ _ _ _ HA); exact HB|].
  split; [rewrite (convertUnits_parse _ _ _ _ HB'); exact HC|].
  split; [exact HC|]. split; [exact HC'|]. split.
  - rewrite HC. split; [intros <-; reflexivity|intros [= <-]; reflexivity].
  - eexists. split.
    + rewrite (convertUnits_parse _ _ _ _ HC'). exact HB.
    + rewrite (convertUnits_parse _ _ _ _ HB'). exact HC.
Qed.

Lemma convertUnits_roundtrip_witness :
  exists B C,
    convertUnits "1" ether wei = Some B /\
    convertUnits B wei ether = Some C /\
    Ethers.formatUnits (10 ^ 18) (UNIT_DECIMALS ether) = Some C /\
    Ethers.parseUnits C (UNIT_DECIMALS ether) = Some (10 ^ 18) /\
    (C = "1" <-> Ethers.formatUnits (10 ^ 18) (UNIT_DECIMALS ether) = Some "1") /\
    (exists B', convertUnits C ether wei = Some B' /\
                convertUnits B' wei ether = Some C).
Proof.
  apply (convertUnits_roundtrip "1" ether wei (10 ^ 18)).
  vm_compute. reflexivity.
Defined.

(** C4, as stated, fails: a negative operand is not refused, and the cost
    that comes back is negative. *)
Lemma calculateTxCost_negative :
  calculateTxCost (-1) 1 =
    Some {| cost_wei := "-1";
            cost_gwei := "-0.000000001";
            cost_eth := "-0.000000000000000001" |}.
Proof. vm_compute. reflexivity. Qed.

(** C4, amended: [calculateTxCost] checks no sign.  It fails exactly when
    the product leaves the signed 512-bit range of the fixed-point codec;
    otherwise its three strings all denote [gasUsed * gasPrice], in wei,
    gwei (nine decimals) and ether (eighteen decimals). *)
Theorem calculateTxCost_product (gasUsed gasPrice : Z) :
  match calculateTxCost gasUsed gasPrice with
  | Some cost =>
      Ethers.in_range (gasUsed * gasPrice) = true /\
      BigInt.ofString (cost_wei cost) = Some (gasUsed * gasPrice) /\
      Ethers.parseUnits (cost_gwei cost) 9 = Some (gasUsed * gasPrice) /\
      Ethers.parseEther (cost_eth cost) = Some (gasUsed * gasPrice)
  | None => Ethers.in_range (gasUsed * gasPrice) = false
  end.
Proof.
  unfold calculateTxCost, Ethers.formatEther, Ethers.parseEther.
  destruct (Ethers.formatUnits (gasUsed * gasPrice) 9) as [g|] eqn:Hg.
  - assert (Hr : Ethers.in_range (gasUsed * gasPrice) = true).
    { unfold Ethers.formatUnits in Hg.
      destruct (Ethers.in_range _); [reflexivity|].
      now rewrite andb_false_r in Hg. }
    destruct (Ethers.formatUnits (gasUsed * gasPrice) 18) as [e|] eqn:He.
    + simpl. repeat split; auto using ofString_toString, parseUnits_formatUnits.
    + unfold Ethers.formatUnits in He. rewrite Hr in He. discriminate.
  - unfold Ethers.formatUnits in Hg.
    destruct (Ethers.in_range _); [discriminate|reflexivity].
Qed.

End UnitConverterFacts.

(** * Network table *)

Module NetworksFacts.
Import Networks.

Lemma own_other network :
  network <> "mainnet" -> network <> "sepolia" ->
  own NETWORKS !! network = None.
Proof.
  intros H1 H2. cbn [NETWORKS own].
  rewrite !lookup_insert_ne by congruence. apply lookup_empty.
Qed.


Lemma get_sepolia : get NETWORKS "sepolia" = Some (Config sepolia).
Proof. reflexivity. Qed.

Lemma get_other network :
  network <> "mainnet" -> network <> "sepolia" ->
  network ∉ Object_prototype -> get NETWORKS network = None.
Proof.
  intros H1 H2 H3. unfold get. rewrite own_other by assumption.
  cbn [NETWORKS inherited]. now rewrite bool_decide_eq_false_2.
Qed.

Lemma get_inherited network :
  network ∈ Object_prototype ->
  get NETWORKS network = Some (Inherited network).
Proof.
  intros H. unfold get. rewrite own_other.
  - cbn [NETWORKS inherited]. now rewrite bool_decide_eq_true_2.
  - intros ->.
    apply (bool_decide_eq_false_1 ("mainnet" ∈ Object_prototype));
      [reflexivity|exact H].
  - intros ->.
    apply (bool_decide_eq_false_1 ("sepolia" ∈ Object_prototype));
      [reflexivity|exact H].
Qed.

(** The values the function can return. *)
Lemma getNetworkConfig_cases network url :
  (exists u, getNetworkConfig network url = Config (customConfig u)) \/
  getNetworkConfig network url = Config mainnet \/
  (network = "sepolia" /\ getNetworkConfig network url = Config sepolia) \/
  getNetworkConfig network url = Inherited network.
Proof.
  unfold getNetworkConfig. destruct (_ && _); [left; eauto|].
  destruct (String.eqb_spec network "mainnet") as [->|H1]; [right; left; reflexivity|].
  destruct (String.eqb_spec network "sepolia") as [->|H2];
    [right; right; left; split; reflexivity|].
  destruct (decide (network ∈ Object_prototype)) as [H3|H3].
  - right; right; right. now rewrite get_inherited.
  - right; left. now rewrite get_other.
Qed.

(** The repository's own unit tests of the table. *)
Example test_mainnet_config :
  get_chainId (getNetworkConfig "mainnet" None) = Some 324 /\
  get_rpcUrl (getNetworkConfig "mainnet" None)
    = Some "https://mainnet.era.zksync.io".
Proof. split; vm_compute; reflexivity. Qed.

Example test_sepolia_config :
  get_chainId (getNetworkConfig "sepolia" None) = Some 300 /\
  get_rpcUrl (getNetworkConfig "sepolia" None)
    = Some "https://sepolia.era.zksync.dev" /\
  is_Some (get_testnetPaymaster (getNetworkConfig "sepolia" None)).
Proof. repeat split; vm_compute; eauto. Qed.

Example test_custom_config :
  get_rpcUrl (getNetworkConfig "custom" (Some "https://custom-rpc.example.com"))
    = Some "https://custom-rpc.example.com" /\
  get_name (getNetworkConfig "custom" (Some "https://custom-rpc.example.com"))
    = Some "Custom Network".
Proof. split; vm_compute; reflexivity. Qed.




End NetworksFacts.

(** * Dates *)

Module DateFacts.
Import Date.

(** [DayFromYear] advances by the length of the year, so it is increasing
    and the year of a day is unique. *)
Lemma DayFromYear_succ y : DayFromYear (y + 1) = DayFromYear y + DaysInYear y.
Proof.
  unfold DayFromYear, DaysInYear.
  destruct (Z.eqb_spec (y mod 4) 0), (Z.eqb_spec (y mod 100) 0),
    (Z.eqb_spec (y mod 400) 0); cbn [negb];
    Z.div_mod_to_equations; lia.
Qed.

(** [YearFromTime] is the year ECMAScript defines: the one whose first day
    is at or before the day of [t] while the first day of the next year is
    after it. *)
Lemma YearFromTime_spec t :
  DayFromYear (YearFromTime t) <= Day t < DayFromYear (YearFromTime t + 1).
Proof.
  unfold YearFromTime. set (d := Day t). clearbody d.
  set (y := 1970 + d * 400 / 146097).
  destruct (DayFromYear y >? d) eqn:E1.
  - rewrite Z.gtb_ltb in E1. apply Z.ltb_lt in E1.
    replace (y - 1 + 1) with y by lia.
    split; [|lia]. unfold DayFromYear in *. subst y.
    Z.div_mod_to_equations. lia.
  - rewrite Z.gtb_ltb in E1. apply Z.ltb_ge in E1.
    destruct (DayFromYear (y + 1) <=? d) eqn:E2.
    + apply Z.leb_le in E2. split; [lia|].
      unfold DayFromYear in *. subst y.
      Z.div_mod_to_equations. lia.
    + apply Z.leb_gt in E2. lia.
Qed.

Lemma DayWithinYear_range t :
  0 <= DayWithinYear t < DaysInYear (YearFromTime t).
Proof.
  unfold DayWithinYear. pose proof (YearFromTime_spec t) as H.
  rewrite DayFromYear_succ in H. lia.
Qed.

(** Known renderings: the epoch, a leap day, the last second before the
    epoch, the first year written with six digits, and the two ends of the
    range. *)
Example toISOString_samples :
  toISOString 0 = Some "1970-01-01T00:00:00.000Z" /\
  toISOString (1700000000 * 1000) = Some "2023-11-14T22:13:20.000Z" /\
  toISOString (951782400 * 1000) = Some "2000-02-29T00:00:00.000Z" /\
  toISOString (-1000) = Some "1969-12-31T23:59:59.000Z" /\
  toISOString (253402300800 * 1000) = Some "+010000-01-01T00:00:00.000Z" /\
  toISOString maxTime = Some "+275760-09-13T00:00:00.000Z" /\
  toISOString (- maxTime) = Some "-271821-04-20T00:00:00.000Z" /\
  toISOString (maxTime + 1) = None /\
  toISOString (- maxTime - 1) = None.
Proof. repeat split; vm_compute; reflexivity. Qed.

End DateFacts.

Local Open Scope string_scope.
Local Open Scope list_scope.
Local Open Scope Z_scope.

(** * The polling trigger *)

Module TriggerFacts.
Import Trigger.

Ltac run_m :=
  cbv [mbind M_bind mret M_ret ret await read write throw then_advance].

(** ** Computations that do not touch the store *)

Lemma pure_ret {A} (a : A) : pure_m (ret a).
Proof. intros s. reflexivity. Qed.

Lemma pure_await {A} (o : option A) : pure_m (await o).
Proof. intros s. reflexivity. Qed.

Lemma pure_read {A} (f : Store -> A) : pure_m (read f).
Proof. intros s. reflexivity. Qed.

Lemma pure_bind {A B} (m : M A) (f : A -> M B) :
  pure_m m -> (forall a, pure_m (f a)) -> pure_m (m ≫= f).
Proof.
  intros Hm Hf s. specialize (Hm s). run_m.
  destruct (m s) as [s' [a|]]; simpl in *; subst; [apply Hf|reflexivity].
Qed.

Lemma good_ret evs : Forall plain evs -> good (ret evs).
Proof. intros H s. split; [reflexivity|]. simpl. now intros ? [= <-]. Qed.

Lemma good_throw : good throw.
Proof. intros s. split; [reflexivity|]. simpl. discriminate. Qed.

Lemma good_bind_pure {A} (m : M A) (f : A -> M (list Event)) :
  pure_m m -> (forall a, good (f a)) -> good (m ≫= f).
Proof.
  intros Hm Hf s. specialize (Hm s). run_m.
  destruct (m s) as [s' [a|]]; simpl in *; subst.
  - apply Hf.
  - split; [reflexivity|discriminate].
Qed.

Lemma good_bind (m : M (list Event)) (f : list Event -> M (list Event)) :
  good m -> (forall evs, Forall plain evs -> good (f evs)) -> good (m ≫= f).
Proof.
  intros Hm Hf s. destruct (Hm s) as [Hs Hp]. run_m.
  destruct (m s) as [s' [a|]]; simpl in *; subst.
  - apply Hf. now apply Hp.
  - split; [reflexivity|discriminate].
Qed.

Lemma good_await {A} (o : option A) (f : A -> M (list Event)) :
  (forall a, good (f a)) -> good (x ← await o; f x).
Proof. intros. apply good_bind_pure; auto using pure_await. Qed.

Lemma good_await_some {A} (o : option A) (f : A -> M (list Event)) :
  (forall a, o = Some a -> good (f a)) -> good (x ← await o; f x).
Proof.
  intros Hf s. run_m. destruct o as [a|].
  - now apply Hf.
  - split; [reflexivity|discriminate].
Qed.

Lemma Forall_snoc {A} (P : A -> Prop) l x :
  Forall P l -> P x -> Forall P (l ++ [x]).
Proof. intros. apply Forall_app. split; auto. Qed.

Section Scans.

Context (lib : Library) (provider : Provider).
Context (params : Params) (config : Networks.Value).

Lemma good_scan_newBlock n blockNum acc :
  Forall plain acc -> good (scan_newBlock provider config n blockNum acc).
Proof.
  revert blockNum acc. induction n as [|n IH]; intros blockNum acc Hacc; simpl.
  - now apply good_ret.
  - apply good_await. intros [b|]; [|apply IH; assumption].
    apply good_await_some. intros item Hitem. apply IH.
    apply Forall_snoc; [assumption|].
    unfold newBlockEvent in Hitem.
    destruct (Date.toISOString _); [|discriminate].
    injection Hitem as <-. exact I.
Qed.

Lemma good_scan_newL1Batch n batchNum acc :
  Forall plain acc -> good (scan_newL1Batch provider config n batchNum acc).
Proof.
  revert batchNum acc. induction n as [|n IH]; intros batchNum acc Hacc; simpl.
  - now apply good_ret.
  - apply good_await. intros d. apply IH.
    apply Forall_snoc; [assumption|exact I].
Qed.

Lemma good_scan_tx received block tx acc :
  Forall plain acc -> good (scan_tx params config received block tx acc).
Proof.
  intros Hacc. unfold scan_tx.
  destruct (_ || _); [|now apply good_ret].
  apply good_bind_pure.
  - destruct (tx_value tx) as [v|]; [destruct (v =? 0)|];
      auto using pure_ret, pure_await.
  - intros v. apply good_ret. apply Forall_snoc; [assumption|exact I].
Qed.

Lemma good_scan_txs received block txs acc :
  Forall plain acc -> good (scan_txs params config received block txs acc).
Proof.
  revert acc. induction txs as [|tx txs IH]; intros acc Hacc; simpl.
  - now apply good_ret.
  - apply good_bind; [now apply good_scan_tx|]. intros evs Hevs. now apply IH.
Qed.

Lemma good_scan_eth received n blockNum acc :
  Forall plain acc ->
  good (scan_eth provider params config received n blockNum acc).
Proof.
  revert blockNum acc. induction n as [|n IH]; intros blockNum acc Hacc; simpl.
  - now apply good_ret.
  - apply good_await. intros b. apply good_bind.
    + destruct b; [now apply good_scan_txs|now apply good_ret].
    + intros evs Hevs. now apply IH.
Qed.

Lemma good_scan_logs step logs acc :
  (forall log acc, Forall plain acc -> good (step log acc)) ->
  Forall plain acc -> good (scan_logs step logs acc).
Proof.
  intros Hstep. revert acc.
  induction logs as [|log logs IH]; intros acc Hacc; simpl.
  - now apply good_ret.
  - apply good_bind; [now apply Hstep|]. intros evs Hevs. now apply IH.
Qed.

Lemma good_scan_tokenLog log acc :
  Forall plain acc -> good (scan_tokenLog params config log acc).
Proof.
  intros Hacc. unfold scan_tokenLog.
  repeat (apply good_await; intros ?).
  destruct (passes_filter _ _ _); apply good_ret; auto.
  apply Forall_snoc; [assumption|exact I].
Qed.

Lemma good_scan_nftLog log acc :
  Forall plain acc -> good (scan_nftLog params config log acc).
Proof.
  intros Hacc. unfold scan_nftLog.
  destruct (_ <=? _)%nat; [|now apply good_ret].
  repeat (apply good_await; intros ?).
  destruct (passes_filter _ _ _); apply good_ret; auto.
  apply Forall_snoc; [assumption|exact I].
Qed.

Lemma good_scan_eventLog iface log acc :
  Forall plain acc -> good (scan_eventLog params config iface log acc).
Proof.
  intros Hacc. unfold scan_eventLog.
  destruct (iface_parseLog iface log); apply good_ret; auto.
  apply Forall_snoc; [assumption|exact I].
Qed.

Lemma good_scan_contractEvent fromBlock toBlock :
  good (scan_contractEvent lib provider params config fromBlock toBlock).
Proof.
  unfold scan_contractEvent. apply good_await. intros iface.
  destruct (iface_eventTopic iface) as [t|]; [|now apply good_ret].
  destruct (nonempty t); [|now apply good_ret].
  apply good_await. intros logs.
  apply good_scan_logs; auto using good_scan_eventLog.
Qed.

End Scans.

(** ** Kinds without a latch *)

Lemma framed_good m : good m -> framed m.
Proof.
  intros H s. destruct (H s) as [E P]. rewrite E. repeat split; auto.
Qed.

Lemma framed_bind_pure {A} (m : M A) (f : A -> M (list Event)) :
  pure_m m -> (forall a, framed (f a)) -> framed (m ≫= f).
Proof.
  intros Hm Hf s. specialize (Hm s). run_m.
  destruct (m s) as [s' [a|]]; simpl in *; subst.
  - apply Hf.
  - repeat split; auto; discriminate.
Qed.

Lemma framed_then_advance scan mark :
  good scan ->
  (forall s, tx_ (mark s) = tx_ s /\
             batch_executed_ (mark s) = batch_executed_ s) ->
  framed (then_advance scan mark).
Proof.
  intros Hscan Hmark s. destruct (Hscan s) as [E P]. run_m.
  destruct (scan s) as [s' [evs|]]; simpl in *; subst.
  - destruct (Hmark s) as [-> ->].
    repeat split; auto; try discriminate;
      try (intros ? [= <-]; now apply P).
  - repeat split; auto; discriminate.
Qed.

Lemma framed_if (b : bool) m1 m2 :
  framed m1 -> framed m2 -> framed (if b then m1 else m2).
Proof. now destruct b. Qed.

Section Polls.

Context (lib : Library) (provider : Provider).
Context (params : Params) (config : Networks.Value).

Local Ltac framed_guarded :=
  apply framed_bind_pure; [apply pure_await|intros ?];
  apply framed_bind_pure; [apply pure_read|intros ?];
  apply framed_if; [|apply framed_good, good_ret; constructor];
  apply framed_then_advance; [|intros ?; split; reflexivity].

Lemma framed_newBlock : framed (poll_newBlock provider config).
Proof.
  unfold poll_newBlock. framed_guarded.
  apply good_scan_newBlock. constructor.
Qed.

Lemma framed_newL1Batch : framed (poll_newL1Batch provider config).
Proof.
  unfold poll_newL1Batch. framed_guarded.
  apply good_scan_newL1Batch. constructor.
Qed.

Lemma framed_eth received : framed (poll_eth lib provider params config received).
Proof.
  unfold poll_eth. apply framed_if; [apply framed_good, good_throw|].
  framed_guarded. apply good_scan_eth. constructor.
Qed.

Lemma framed_tokenTransfer :
  framed (poll_tokenTransfer lib provider params config).
Proof.
  unfold poll_tokenTransfer. framed_guarded.
  apply good_await. intros logs.
  apply good_scan_logs; [apply good_scan_tokenLog|constructor].
Qed.

Lemma framed_nftTransfer :
  framed (poll_nftTransfer lib provider params config).
Proof.
  unfold poll_nftTransfer. framed_guarded.
  apply good_await. intros logs.
  apply good_scan_logs; [apply good_scan_nftLog|constructor].
Qed.

Lemma framed_contractEvent :
  framed (poll_contractEvent lib provider params config).
Proof.
  unfold poll_contractEvent. framed_guarded.
  apply good_scan_contractEvent.
Qed.

Lemma framed_balanceChange :
  framed (poll_balanceChange lib provider params config).
Proof.
  unfold poll_balanceChange. cbv zeta.
  apply framed_if; [apply framed_good, good_throw|].
  apply framed_bind_pure; [apply pure_await|intros c].
  apply framed_bind_pure; [apply pure_read|intros stored].
  change (framed (then_advance
    match stored with
    | Some lastBalance =>
        if negb (String.eqb (BigInt.toString c) lastBalance)
        then
          previousBalance ← await (BigInt.ofString lastBalance);
          previousBalanceEth ← await (formatEther previousBalance);
          currentBalanceEth ← await (formatEther c);
          changeEth ← await (formatEther (c - previousBalance));
          ret [BalanceChangeEvent (watchAddress params) lastBalance
                 previousBalanceEth (BigInt.toString c) currentBalanceEth
                 (BigInt.toString (c - previousBalance)) changeEth
                 (if c - previousBalance >? 0 then "increase" else "decrease")
                 (net config)]
        else ret []
    | None => ret []
    end
    (set_lastBalance (BigInt.toString c)))).
  apply framed_then_advance; [|intros ?; split; reflexivity].
  destruct stored as [lb|]; [|apply good_ret; constructor].
  destruct (negb _); [|apply good_ret; constructor].
  repeat (apply good_await; intros ?).
  apply good_ret. repeat constructor.
Qed.

End Polls.

(** ** What [poll] adds to [poll_body] *)

Lemma poll_fst lib credentials params provider s :
  fst (poll lib credentials params provider s) =
  fst (poll_body lib provider params
         (config_of credentials) s).
Proof. unfold poll, deliver. now destruct (poll_body _ _ _ _ s). Qed.

Lemma poll_emitted lib credentials params provider s :
  emitted (snd (poll lib credentials params provider s)) =
  default [] (snd (poll_body lib provider params
                     (config_of credentials) s)).
Proof.
  unfold poll, deliver.
  destruct (poll_body _ _ _ _ s) as [s' [[|e evs]|]]; reflexivity.
Qed.

Lemma poll_threw lib credentials params provider s :
  snd (poll lib credentials params provider s) = Threw <->
  snd (poll_body lib provider params
         (config_of credentials) s) = None.
Proof.
  unfold poll, deliver. destruct (poll_body _ _ _ _ s) as [s' [[|e evs]|]];
    simpl; split; congruence.
Qed.

(** ** Counting items *)

Lemma count_nil p : count p [] = 0%nat.
Proof. reflexivity. Qed.

Lemma count_cons p e evs :
  count p (e :: evs) = ((if p e then 1 else 0) + count p evs)%nat.
Proof. unfold count. simpl. now destruct (p e). Qed.

Lemma count_app p evs1 evs2 :
  count p (evs1 ++ evs2) = (count p evs1 + count p evs2)%nat.
Proof. unfold count. now rewrite List.filter_app, length_app. Qed.

Lemma count_plain_batch b evs :
  Forall plain evs -> count (is_batch_event b) evs = 0%nat.
Proof.
  induction 1 as [|e evs He _ IH]; [reflexivity|].
  rewrite count_cons, IH. now destruct e.
Qed.

Lemma count_plain_tx h evs :
  Forall plain evs -> count (is_tx_event h) evs = 0%nat.
Proof.
  induction 1 as [|e evs He _ IH]; [reflexivity|].
  rewrite count_cons, IH. now destruct e.
Qed.

Ltac nil_case :=
  repeat split; auto; try lia;
  try (intros ? He; inversion He);
  try (unfold count; simpl; intros; (lia || discriminate)).

Lemma latch_step_idle b : latch_step b b 0.
Proof. repeat split; auto; lia. Qed.

Ltac idle :=
  split; [intros; apply latch_step_idle|];
  split; [intros; apply latch_step_idle|];
  try discriminate; try reflexivity; try (intros _; repeat split).

(** A kind without a latch moves neither family. *)
Lemma framed_latches m s :
  framed m ->
  (forall b, latch_step (batch_latched s b) (batch_latched (fst (m s)) b)
               (count (is_batch_event b) (default [] (snd (m s))))) /\
  (forall h, latch_step (tx_latched s h) (tx_latched (fst (m s)) h)
               (count (is_tx_event h) (default [] (snd (m s))))).
Proof.
  intros H. destruct (H s) as (_ & Ht & Hb & Hp).
  unfold batch_latched, tx_latched. rewrite Ht, Hb.
  destruct (snd (m s)) as [evs|]; simpl.
  - specialize (Hp evs eq_refl). split; intros x.
    + rewrite count_plain_batch by assumption. apply latch_step_idle.
    + rewrite count_plain_tx by assumption. apply latch_step_idle.
  - split; intros x; apply latch_step_idle.
Qed.

(** ** blockFinalized: the batch latch *)

Section Finalized.

Context (provider : Provider) (config : Networks.Value).
Hypothesis Hcoherent : coherent provider.

(** The items already collected are a prefix of the result. *)
Lemma scan_blockFinalized_acc n batchNum acc s :
  scan_blockFinalized provider config n batchNum acc s =
  (fst (scan_blockFinalized provider config n batchNum [] s),
   (fun evs => acc ++ evs) <$>
     snd (scan_blockFinalized provider config n batchNum [] s)).
Proof.
  revert batchNum acc s. induction n as [|n IH]; intros batchNum acc s.
  - simpl. run_m. simpl. now rewrite app_nil_r.
  - simpl. run_m.
    destruct (getL1BatchDetails provider batchNum) as [d|]; [|reflexivity].
    destruct (_ && _).
    + rewrite (IH _ (acc ++ _)), (IH _ [_]). cbn [fst snd].
      destruct (snd _); simpl; [|reflexivity].
      now rewrite <- app_assoc.
    + apply IH.
Qed.

Lemma batch_latched_set s b x :
  batch_latched (set_batch_executed_ b true s) x =
  if decide (b = x) then true else batch_latched s x.
Proof.
  unfold batch_latched. simpl. rewrite lookup_insert.
  now destruct (decide (b = x)).
Qed.

Lemma scan_blockFinalized_spec n batchNum s :
  same_cursors s (fst (scan_blockFinalized provider config n batchNum [] s)) /\
  (forall e, e ∈ default [] (snd (scan_blockFinalized provider config n
                                     batchNum [] s)) ->
             forall h, is_tx_event h e = false) /\
  forall x,
    latch_step (batch_latched s x)
      (batch_latched (fst (scan_blockFinalized provider config n batchNum [] s)) x)
      (count (is_batch_event x)
         (default [] (snd (scan_blockFinalized provider config n batchNum [] s)))).
Proof.
  revert batchNum s. induction n as [|n IH]; intros batchNum s.
  - simpl. nil_case.
  - simpl. run_m.
    destruct (getL1BatchDetails provider batchNum) as [d|] eqn:Hd;
      [|simpl; nil_case].
    pose proof (proj1 Hcoherent _ _ Hd) as Hnum.
    destruct (_ && _) eqn:Hcond.
    + apply andb_true_iff in Hcond as [_ Hlatch].
      apply negb_true_iff in Hlatch. fold (batch_latched s batchNum) in Hlatch.
      rewrite scan_blockFinalized_acc. cbn [fst snd].
      destruct (IH (batchNum + 1) (set_batch_executed_ batchNum true s))
        as (Hc & Htx & Hstep).
      destruct (scan_blockFinalized provider config n (batchNum + 1) []
                  (set_batch_executed_ batchNum true s)) as [s' r].
      cbn [fst snd] in *.
      split; [exact Hc|]. split.
      * intros e He h. destruct r as [evs|]; simpl in *; [|inversion He].
        apply elem_of_cons in He as [->|He]; [reflexivity|now apply Htx].
      * intros x. specialize (Hstep x).
        rewrite batch_latched_set in Hstep.
        destruct Hstep as (HA & HB & HC).
        destruct r as [evs|]; simpl in *.
        -- rewrite count_cons. unfold blockFinalizedEvent at 1. simpl.
           rewrite Hnum.
           destruct (decide (batchNum = x)) as [->|Hne].
           ++ rewrite Z.eqb_refl. destruct (HA eq_refl) as [-> Hafter].
              repeat split; auto; congruence.
           ++ replace (batchNum =? x) with false
                by (symmetry; now apply Z.eqb_neq).
              simpl. split; [intros Hb; exact (HA Hb)|].
              split; [exact HB|exact HC].
        -- assert (Hmono : batch_latched s x = true -> batch_latched s' x = true).
           { intros Hb. apply HA. now destruct (decide (batchNum = x)). }
           unfold count. simpl. repeat split; auto; lia.
    + apply IH.
Qed.

Lemma count_none p evs :
  (forall e, e ∈ evs -> p e = false) -> count p evs = 0%nat.
Proof.
  induction evs as [|e evs IH]; intros H; [reflexivity|].
  rewrite count_cons, (H e) by apply list_elem_of_here.
  apply IH. intros e' He'. apply H. now apply list_elem_of_further.
Qed.

Lemma same_cursors_refl s : same_cursors s s.
Proof. repeat split. Qed.

Lemma poll_blockFinalized_latches s :
  (forall b,
     latch_step (batch_latched s b)
       (batch_latched (fst (poll_blockFinalized provider config s)) b)
       (count (is_batch_event b)
          (default [] (snd (poll_blockFinalized provider config s))))) /\
  (forall h,
     latch_step (tx_latched s h)
       (tx_latched (fst (poll_blockFinalized provider config s)) h)
       (count (is_tx_event h)
          (default [] (snd (poll_blockFinalized provider config s))))) /\
  (snd (poll_blockFinalized provider config s) = None ->
   same_cursors s (fst (poll_blockFinalized provider config s))).
Proof.
  unfold poll_blockFinalized. run_m.
  destruct (getL1BatchNumber provider) as [c|];
    [|cbn [fst snd]; idle].
  set (n := Z.to_nat _). set (b0 := _ + 1).
  destruct (scan_blockFinalized_spec n b0 s) as (Hc & Htx & Hstep).
  destruct (scan_blockFinalized provider config n b0 [] s) as [s' r].
  cbn [fst snd] in *.
  assert (Ht : forall h, tx_latched s' h = tx_latched s h).
  { intros h. unfold tx_latched. destruct Hc as (_&_&_&_&_&_&_&_&->).
    reflexivity. }
  destruct r as [evs|]; cbn [fst snd from_option Datatypes.id] in *.
  - split; [exact Hstep|]. split; [|discriminate].
    intros h. change (tx_latched (set_lastFinalizedBatch c s') h)
      with (tx_latched s' h).
    rewrite Ht, (count_none _ evs) by (intros e He; now apply Htx).
    apply latch_step_idle.
  - split; [exact Hstep|]. split; [|intros _; exact Hc].
    intros h. rewrite Ht. apply latch_step_idle.
Qed.

End Finalized.

(** ** transactionConfirmed: the transaction latch *)

Section Confirmed.

Context (provider : Provider) (params : Params).
Context (config : Networks.Value).
Hypothesis Hcoherent : coherent provider.

Lemma tx_latched_set s h x :
  tx_latched (set_tx_ h true s) x =
  if decide (h = x) then true else tx_latched s x.
Proof.
  unfold tx_latched. simpl. rewrite lookup_insert.
  now destruct (decide (h = x)).
Qed.

Lemma poll_transactionConfirmed_latches s :
  (forall b,
     latch_step (batch_latched s b)
       (batch_latched (fst (poll_transactionConfirmed provider params config s)) b)
       (count (is_batch_event b)
          (default [] (snd (poll_transactionConfirmed provider params config s))))) /\
  (forall h,
     latch_step (tx_latched s h)
       (tx_latched (fst (poll_transactionConfirmed provider params config s)) h)
       (count (is_tx_event h)
          (default [] (snd (poll_transactionConfirmed provider params config s))))) /\
  (snd (poll_transactionConfirmed provider params config s) = None ->
   fst (poll_transactionConfirmed provider params config s) = s).
Proof.
  unfold poll_transactionConfirmed. run_m. cbv zeta.
  fold (tx_latched s (txHash params)).
  destruct (tx_latched s (txHash params)) eqn:Hl; cbn [negb fst snd from_option Datatypes.id];
    [idle|].
  destruct (getTransactionReceipt provider (txHash params)) as [[r|]|] eqn:Hr;
    cbn [fst snd from_option Datatypes.id]; try idle.
  pose proof (proj2 Hcoherent _ _ Hr) as Hhash.
  destruct (negb _); cbn [fst snd from_option Datatypes.id]; [|idle].
  destruct (getBlockNumber provider) as [c|]; cbn [fst snd from_option Datatypes.id]; [|idle].
  destruct (_ >=? _); cbn [fst snd from_option Datatypes.id]; [|idle].
  split; [intros b; apply latch_step_idle|]. split; [|discriminate].
  intros h. rewrite tx_latched_set, count_cons. simpl. rewrite Hhash.
  destruct (decide (txHash params = h)) as [<-|Hne].
  - rewrite String.eqb_refl, Hl. unfold count. simpl.
    repeat split; auto; discriminate.
  - replace (String.eqb (txHash params) h) with false
      by (symmetry; now apply String.eqb_neq).
    apply latch_step_idle.
Qed.

End Confirmed.

(** ** Every kind *)

Section AnyKind.

Context (lib : Library) (provider : Provider).
Context (params : Params) (config : Networks.Value).

Lemma framed_threw m s :
  framed m -> snd (m s) = None -> same_cursors s (fst (m s)).
Proof.
  intros H Hn. destruct (H s) as (E & _). rewrite (E Hn).
  apply same_cursors_refl.
Qed.

(** Whatever the kind, one invocation moves both latch families by
    [latch_step], and a throw leaves every cursor but the batch latches as
    it was. *)
Lemma poll_body_spec s :
  coherent provider ->
  (forall b,
     latch_step (batch_latched s b)
       (batch_latched (fst (poll_body lib provider params config s)) b)
       (count (is_batch_event b)
          (default [] (snd (poll_body lib provider params config s))))) /\
  (forall h,
     latch_step (tx_latched s h)
       (tx_latched (fst (poll_body lib provider params config s)) h)
       (count (is_tx_event h)
          (default [] (snd (poll_body lib provider params config s))))) /\
  (snd (poll_body lib provider params config s) = None ->
   same_cursors s (fst (poll_body lib provider params config s))).
Proof.
  intros Hco. unfold poll_body.
  assert (Hframed : forall m, framed m ->
    (forall b, latch_step (batch_latched s b) (batch_latched (fst (m s)) b)
                 (count (is_batch_event b) (default [] (snd (m s))))) /\
    (forall h, latch_step (tx_latched s h) (tx_latched (fst (m s)) h)
                 (count (is_tx_event h) (default [] (snd (m s))))) /\
    (snd (m s) = None -> same_cursors s (fst (m s)))).
  { intros m Hm. destruct (framed_latches m s Hm) as [Hb Ht].
    split; [exact Hb|]. split; [exact Ht|]. now apply framed_threw. }
  destruct (triggerOn params).
  - apply Hframed, framed_newBlock.
  - apply Hframed, framed_newL1Batch.
  - destruct (poll_transactionConfirmed_latches provider params config Hco s)
      as (Hb & Ht & Hn).
    split; [exact Hb|]. split; [exact Ht|].
    intros E. rewrite (Hn E). apply same_cursors_refl.
  - apply Hframed, framed_eth.
  - apply Hframed, framed_eth.
  - apply Hframed, framed_tokenTransfer.
  - apply Hframed, framed_nftTransfer.
  - apply Hframed, framed_contractEvent.
  - now apply poll_blockFinalized_latches.
  - apply Hframed, framed_balanceChange.
Qed.

End AnyKind.

(** ** A throw never moves a watermark *)

Lemma scan_blockFinalized_cursors provider config n batchNum acc s :
  same_cursors s (fst (scan_blockFinalized provider config n batchNum acc s)).
Proof.
  revert batchNum acc s. induction n as [|n IH]; intros batchNum acc s.
  - apply same_cursors_refl.
  - simpl. run_m.
    destruct (getL1BatchDetails provider batchNum) as [d|];
      [|apply same_cursors_refl].
    destruct (_ && _); [|apply IH].
    exact (IH (batchNum + 1) _ (set_batch_executed_ batchNum true s)).
Qed.

Lemma poll_transactionConfirmed_threw provider params config s :
  snd (poll_transactionConfirmed provider params config s) = None ->
  fst (poll_transactionConfirmed provider params config s) = s.
Proof.
  unfold poll_transactionConfirmed. run_m. cbv zeta.
  destruct (negb _); [|reflexivity].
  destruct (getTransactionReceipt _ _) as [[r|]|]; try reflexivity.
  destruct (negb _); [|reflexivity].
  destruct (getBlockNumber provider); [|reflexivity].
  destruct (_ >=? _); [discriminate|reflexivity].
Qed.

(** When an invocation throws, every watermark, the balance snapshot and
    the transaction latches are what they were before it; for every kind
    but blockFinalized the whole store is. *)
Lemma poll_threw_keeps_cursors lib credentials params provider s :
  snd (poll lib credentials params provider s) = Threw ->
  same_cursors s (fst (poll lib credentials params provider s)) /\
  (triggerOn params <> blockFinalized ->
   fst (poll lib credentials params provider s) = s).
Proof.
  rewrite poll_threw, poll_fst. unfold poll_body.
  set (config := config_of _).
  assert (Hframed : forall m, framed m -> snd (m s) = None ->
            same_cursors s (fst (m s)) /\ (fst (m s) = s)).
  { intros m Hm Hn. destruct (Hm s) as (E & _).
    rewrite (E Hn). split; [apply same_cursors_refl|reflexivity]. }
  destruct (triggerOn params); intros Hn.
  - destruct (Hframed _ (framed_newBlock provider config) Hn); auto.
  - destruct (Hframed _ (framed_newL1Batch provider config) Hn); auto.
  - rewrite (poll_transactionConfirmed_threw _ _ _ _ Hn).
    split; [apply same_cursors_refl|reflexivity].
  - destruct (Hframed _ (framed_eth lib provider params config true) Hn); auto.
  - destruct (Hframed _ (framed_eth lib provider params config false) Hn); auto.
  - destruct (Hframed _ (framed_tokenTransfer lib provider params config) Hn); auto.
  - destruct (Hframed _ (framed_nftTransfer lib provider params config) Hn); auto.
  - destruct (Hframed _ (framed_contractEvent lib provider params config) Hn); auto.
  - split; [|congruence]. revert Hn. unfold poll_blockFinalized. run_m.
    destruct (getL1BatchNumber provider) as [c|];
      [|intros _; apply same_cursors_refl].
    set (n := Z.to_nat _). set (b0 := _ + 1).
    pose proof (scan_blockFinalized_cursors provider config n b0 [] s) as Hc.
    destruct (scan_blockFinalized provider config n b0 [] s) as [s' [evs|]];
      [discriminate|intros _; exact Hc].
  - destruct (Hframed _ (framed_balanceChange lib provider params config) Hn); auto.
Qed.

(** ** A stale tip and the guarded kinds *)

Lemma or_number_stored w fallback : w <> 0 -> or_number (Some w) fallback = w.
Proof.
  intros H. unfold or_number.
  now replace (w =? 0) with false by (symmetry; now apply Z.eqb_neq).
Qed.

Lemma or_number_zero fallback : or_number (Some 0) fallback = fallback.
Proof. reflexivity. Qed.

(** For the seven kinds that test [current > last], a tip that is not past
    a stored, non-zero watermark emits nothing and leaves the store as it
    is. *)
Lemma poll_stale_tip_guarded lib credentials params provider s w current :
  guarded (triggerOn params) = true ->
  watermark (triggerOn params) s = Some w -> w <> 0 ->
  tip (triggerOn params) provider = Some current -> current <= w ->
  fst (poll lib credentials params provider s) = s /\
  emitted (snd (poll lib credentials params provider s)) = [].
Proof.
  intros Hg Hw Hnz Htip Hle. rewrite poll_fst, poll_emitted.
  unfold poll_body.
  assert (Hgt : (current >? w) = false)
    by (rewrite Z.gtb_ltb; apply Z.ltb_ge; lia).
  destruct (triggerOn params); try discriminate; simpl in Hw, Htip;
    unfold poll_newBlock, poll_newL1Batch, poll_eth, poll_tokenTransfer,
      poll_nftTransfer, poll_contractEvent;
    try (destruct (negb (isValidAddress _ _)); [split; reflexivity|]);
    run_m; rewrite Htip, Hw, (or_number_stored _ _ Hnz), Hgt;
    split; reflexivity.
Qed.

(** ** Runs of invocations *)

Lemma latch_step_trans a b c n m :
  latch_step a b n -> latch_step b c m -> latch_step a c (n + m).
Proof.
  intros (A1 & B1 & C1) (A2 & B2 & C2). split; [|split].
  - intros Ha. destruct (A1 Ha) as [-> Hb]. destruct (A2 Hb) as [-> Hc].
    split; [reflexivity|assumption].
  - destruct n as [|[|n]]; [simpl; assumption| |lia].
    destruct (A2 (C1 eq_refl)) as [-> _]. lia.
  - intros Hs. destruct n as [|[|n]]; [apply C2; simpl in Hs; lia| |lia].
    now destruct (A2 (C1 eq_refl)).
Qed.

Lemma all_emitted_cons o os : all_emitted (o :: os) = emitted o ++ all_emitted os.
Proof. reflexivity. Qed.

Lemma run_latches lib invs s :
  Forall (fun i => coherent (inv_provider i)) invs ->
  (forall b, latch_step (batch_latched s b)
               (batch_latched (fst (run lib invs s)) b)
               (count (is_batch_event b) (all_emitted (snd (run lib invs s))))) /\
  (forall h, latch_step (tx_latched s h)
               (tx_latched (fst (run lib invs s)) h)
               (count (is_tx_event h) (all_emitted (snd (run lib invs s))))).
Proof.
  intros H. revert s. induction H as [|i invs Hi _ IH]; intros s.
  - split; intros x; apply latch_step_idle.
  - simpl.
    pose proof (poll_fst lib (inv_credentials i) (inv_params i)
                  (inv_provider i) s) as Ef.
    pose proof (poll_emitted lib (inv_credentials i) (inv_params i)
                  (inv_provider i) s) as Ee.
    destruct (poll_body_spec lib (inv_provider i) (inv_params i)
                (config_of (inv_credentials i)) s Hi) as (Hb & Ht & _).
    rewrite <- Ef, <- Ee in Hb, Ht.
    destruct (poll lib (inv_credentials i) (inv_params i) (inv_provider i) s)
      as [s' o].
    destruct (IH s') as [Hb' Ht'].
    destruct (run lib invs s') as [s'' os]. cbn [fst snd] in *.
    split; intros x; rewrite all_emitted_cons, count_app;
      eapply latch_step_trans; eauto.
Qed.

(** ** The claims about stale tips, failures and latches *)

(** What blockFinalized does with a tip that is not past the stored
    watermark: the loop body never runs, and the watermark is overwritten
    with the tip all the same. *)
Lemma poll_stale_tip_blockFinalized lib credentials params provider s w current :
  triggerOn params = blockFinalized ->
  lastFinalizedBatch s = Some w -> w <> 0 ->
  getL1BatchNumber provider = Some current -> current <= w ->
  poll lib credentials params provider s =
    (set_lastFinalizedBatch current s, Returned None).
Proof.
  intros Hk Hw Hnz Htip Hle. unfold poll, poll_body. rewrite Hk.
  unfold poll_blockFinalized. run_m.
  rewrite Htip, Hw, (or_number_stored _ _ Hnz).
  replace (Z.to_nat (current - w)) with 0%nat by lia. reflexivity.
Qed.

(** C1, at the input where the code departs from it: the stored
    blockFinalized watermark is 100 and the provider reports batch 95.  No
    item is emitted, but the stored watermark falls back to 95; newL1Batch,
    on the same chain and the same stored value, leaves its watermark at
    100. *)
Theorem blockFinalized_stale_tip_regresses :
  poll Samples.lib Samples.credentials (Samples.params blockFinalized)
    (Samples.chain 95 Samples.executed 0)
    (set_lastFinalizedBatch 100 emptyStore)
  = (set_lastFinalizedBatch 95 emptyStore, Returned None) /\
  poll Samples.lib Samples.credentials (Samples.params newL1Batch)
    (Samples.chain 95 Samples.executed 0)
    (set_lastL1Batch 100 emptyStore)
  = (set_lastL1Batch 100 emptyStore, Returned None).
Proof. split; vm_compute; reflexivity. Qed.

(** C2, at the input where the code departs from it: watermark 5, tip 7,
    batches 6 and 7 executed, and the lookup of batch 7 throws during the
    first invocation.  The watermark stays 5, but the latch of batch 6 was
    already set when the exception discarded its item; the retry emits
    batch 7 only, and no later run over coherent providers emits
    batch 6. *)
Theorem blockFinalized_partial_failure_loses_batch :
  let failing :=
    Samples.chain 7 (fun n => if n =? 7 then None else Samples.executed n) 0 in
  let healthy := Samples.chain 7 Samples.executed 0 in
  let s0 := set_lastFinalizedBatch 5 emptyStore in
  let s1 := set_batch_executed_ 6 true s0 in
  let s2 := set_lastFinalizedBatch 7 (set_batch_executed_ 7 true s1) in
  poll Samples.lib Samples.credentials (Samples.params blockFinalized)
    failing s0 = (s1, Threw) /\
  poll Samples.lib Samples.credentials (Samples.params blockFinalized)
    healthy s1 =
    (s2, Returned (Some [BlockFinalizedEvent 7 "verified" None None
                           (Some "0xe") (Some "zkSync Era Mainnet")])) /\
  forall invs,
    Forall (fun i => coherent (inv_provider i)) invs ->
    count (is_batch_event 6) (all_emitted (snd (run Samples.lib invs s1))) = 0%nat.
Proof.
  cbv zeta. split; [vm_compute; reflexivity|].
  split; [vm_compute; reflexivity|].
  intros invs H.
  destruct (run_latches Samples.lib invs
              (set_batch_executed_ 6 true (set_lastFinalizedBatch 5 emptyStore)) H)
    as [Hb _].
  destruct (Hb 6) as (HA & _). apply HA. vm_compute. reflexivity.
Qed.

(** ** balanceChange *)

Lemma in_range_small v :
  - 2 ^ 256 <= v <= 2 ^ 256 -> Ethers.in_range v = true.
Proof.
  intros H. unfold Ethers.in_range.
  assert (2 ^ 256 < 2 ^ 511) by (apply Z.pow_lt_mono_r; lia).
  apply andb_true_iff. split; [apply Z.leb_le|apply Z.ltb_lt]; lia.
Qed.

(** C6, as stated, fails: the snapshot ["0100"] and the balance 100 are the
    same integer, and an item is emitted (with a change of zero). *)
Lemma balanceChange_same_integer_emits :
  BigInt.ofString "0100" = Some 100 /\
  emitted (snd (poll Samples.lib Samples.credentials
                  (Samples.params balanceChange)
                  (Samples.chain 7 Samples.executed 100)
                  (set_lastBalance "0100" emptyStore)))
  = [BalanceChangeEvent "0xd8da6bf26964af9d7eed9e03e53415d37aa96045"
       "0100" "0.0000000000000001" "100" "0.0000000000000001" "0" "0.0"
       "decrease" (Some "zkSync Era Mainnet")].
Proof. split; vm_compute; reflexivity. Qed.

Lemma formatEther_in_range v :
  formatEther v = if Ethers.in_range v
                  then Some (string_of_list_ascii (Ethers.toChars v 18))
                  else None.
Proof. reflexivity. Qed.

(** C6, amended: with a valid watched address and a balance [c] read from
    the chain.  Without a snapshot, or with a snapshot that is the decimal
    rendering of [c], the invocation emits nothing and stores the rendering
    of [c].  With a snapshot that differs from that rendering as a string
    it emits exactly one item, which reports the snapshot, [c] and their
    difference, and stores the rendering of [c] — provided the snapshot
    reads back ([snapshot_reads]); if it does not, the invocation throws,
    emits nothing and keeps the snapshot.  A snapshot written by an earlier
    invocation for a 256-bit balance [q] always reads back, and differs as
    a string exactly when [q <> c]. *)
Theorem balanceChange_poll (lib : Library) (credentials : Credentials)
  (params : Params) (provider : Provider) (s : Store) (c : Z) :
  triggerOn params = balanceChange ->
  isValidAddress lib (watchAddress params) = true ->
  getBalance provider (watchAddress params) = Some c ->
  (lastBalance s = None ->
   poll lib credentials params provider s =
     (set_lastBalance (BigInt.toString c) s, Returned None)) /\
  (forall snapshot,
     lastBalance s = Some snapshot ->
     (snapshot = BigInt.toString c ->
      poll lib credentials params provider s =
        (set_lastBalance (BigInt.toString c) s, Returned None)) /\
     (snapshot <> BigInt.toString c ->
      TriggerSpec.snapshot_reads c snapshot = true ->
      exists previous previousEth currentEth changeEth,
        BigInt.ofString snapshot = Some previous /\
        poll lib credentials params provider s =
          (set_lastBalance (BigInt.toString c) s,
           Returned (Some
             [BalanceChangeEvent (watchAddress params) snapshot previousEth
                (BigInt.toString c) currentEth
                (BigInt.toString (c - previous)) changeEth
                (if c - previous >? 0 then "increase" else "decrease")
                (Networks.get_name (config_of credentials))]))) /\
     (snapshot <> BigInt.toString c ->
      TriggerSpec.snapshot_reads c snapshot = false ->
      poll lib credentials params provider s = (s, Threw))) /\
  (forall q,
     0 <= c < 2 ^ 256 -> 0 <= q < 2 ^ 256 ->
     TriggerSpec.snapshot_reads c (BigInt.toString q) = true /\
     (BigInt.toString q = BigInt.toString c <-> q = c)).
Proof.
  intros Hk Hvalid Hbal.
  assert (Hpoll : poll lib credentials params provider s =
                  deliver (poll_balanceChange lib provider params
                             (config_of credentials) s))
    by (unfold poll, poll_body; now rewrite Hk).
  rewrite Hpoll. unfold poll_balanceChange. cbv zeta.
  rewrite Hvalid. cbn [negb]. run_m. rewrite Hbal.
  split; [|split].
  - intros ->. reflexivity.
  - intros snapshot ->. split; [|split].
    + intros ->. now rewrite String.eqb_refl.
    + intros Hne Hreads.
      replace (String.eqb (BigInt.toString c) snapshot) with false
        by (symmetry; apply String.eqb_neq; congruence).
      cbn [negb]. unfold TriggerSpec.snapshot_reads in Hreads.
      destruct (BigInt.ofString snapshot) as [previous|]; [|discriminate].
      apply andb_prop in Hreads. destruct Hreads as [Hreads H3].
      apply andb_prop in Hreads. destruct Hreads as [H1 H2].
      rewrite !formatEther_in_range, H1, H2, H3.
      do 4 eexists. split; reflexivity.
    + intros Hne Hreads.
      replace (String.eqb (BigInt.toString c) snapshot) with false
        by (symmetry; apply String.eqb_neq; congruence).
      cbn [negb]. unfold TriggerSpec.snapshot_reads in Hreads.
      destruct (BigInt.ofString snapshot) as [previous|]; [|reflexivity].
      rewrite !formatEther_in_range.
      destruct (Ethers.in_range previous); [|reflexivity].
      destruct (Ethers.in_range c); [|reflexivity].
      cbn [andb] in Hreads. now rewrite Hreads.
  - intros q Hc Hq. split.
    + unfold TriggerSpec.snapshot_reads.
      rewrite BigIntFacts.ofString_toString.
      rewrite !in_range_small by lia. reflexivity.
    + split; [apply BigIntFacts.toString_inj|now intros ->].
Qed.

Lemma balanceChange_poll_witness :
  let params := Samples.params balanceChange in
  let provider := Samples.chain 7 Samples.executed 250 in
  let s := set_lastBalance "100" emptyStore in
  exists previous previousEth currentEth changeEth,
    BigInt.ofString "100" = Some previous /\
    poll Samples.lib Samples.credentials params provider s =
      (set_lastBalance (BigInt.toString 250) s,
       Returned (Some
         [BalanceChangeEvent (watchAddress params) "100" previousEth
            (BigInt.toString 250) currentEth
            (BigInt.toString (250 - previous)) changeEth
            (if 250 - previous >? 0 then "increase" else "decrease")
            (Networks.get_name (config_of Samples.credentials))])).
Proof.
  cbv zeta.
  refine (proj1 (proj2 (proj1 (proj2
            (balanceChange_poll Samples.lib Samples.credentials
               (Samples.params balanceChange)
               (Samples.chain 7 Samples.executed 250)
               (set_lastBalance "100" emptyStore) 250 _ _ _))
            "100" _)) _ _).
  - reflexivity.
  - reflexivity.
  - reflexivity.
  - reflexivity.
  - discriminate.
  - vm_compute. reflexivity.
Defined.

(** A snapshot that is not a number: the comparison finds it different,
    [BigInt] rejects it, and the invocation throws with the snapshot left
    in place. *)
Example balanceChange_unreadable_snapshot :
  poll Samples.lib Samples.credentials (Samples.params balanceChange)
    (Samples.chain 7 Samples.executed 100) (set_lastBalance "abc" emptyStore)
  = (set_lastBalance "abc" emptyStore, Threw).
Proof. vm_compute. reflexivity. Qed.

(** ** The first invocation, and a stored zero *)

Local Ltac first_scan Htip Hw :=
  run_m; rewrite Htip, Hw; cbn [or_number Z.eqb];
  repeat match goal with
         | |- context [?c >? ?c - 1] =>
             replace (c >? c - 1) with true
               by (symmetry; rewrite Z.gtb_ltb; apply Z.ltb_lt; lia)
         | |- context [Z.to_nat (?c - (?c - 1))] =>
             replace (Z.to_nat (c - (c - 1))) with 1%nat by lia
         | |- context [Z.to_nat (?c - (?c - 10))] =>
             replace (Z.to_nat (c - (c - 10))) with 10%nat by lia
         | |- context [?c - 1 + 1] => replace (c - 1 + 1) with c by lia
         | |- context [?c - 10 + 1] => replace (c - 10 + 1) with (c - 9) by lia
         end;
  try reflexivity.

(** Spelled out for newBlock: one lookup, of block [current]. *)
Lemma scan_newBlock_one provider config current mark s :
  then_advance (scan_newBlock provider config 1 current []) mark s =
  match getBlock provider current false with
  | Some (Some block) =>
      match newBlockEvent config block with
      | Some item => (mark s, Some [item])
      | None => (s, None)
      end
  | Some None => (mark s, Some [])
  | None => (s, None)
  end.
Proof.
  simpl. run_m.
  destruct (getBlock provider current false) as [[b|]|]; try reflexivity.
  now destruct (newBlockEvent config b).
Qed.

Lemma scan_newL1Batch_one provider config current mark s :
  then_advance (scan_newL1Batch provider config 1 current []) mark s =
  match getL1BatchDetails provider current with
  | Some details => (mark s, Some [NewL1BatchEvent details (net config)])
  | None => (s, None)
  end.
Proof.
  simpl. run_m. now destruct (getL1BatchDetails provider current).
Qed.

(** The scans of newBlock and newL1Batch never look at the store. *)
Lemma scan_newBlock_const provider config n blockNum acc s s0 :
  snd (scan_newBlock provider config n blockNum acc s) =
  snd (scan_newBlock provider config n blockNum acc s0).
Proof.
  revert blockNum acc. induction n as [|n IH]; intros blockNum acc;
    [reflexivity|].
  simpl. run_m.
  destruct (getBlock provider blockNum false) as [[b|]|]; [| |reflexivity].
  - destruct (newBlockEvent config b); [apply IH|reflexivity].
  - apply IH.
Qed.

Lemma scan_newL1Batch_const provider config n batchNum acc s s0 :
  snd (scan_newL1Batch provider config n batchNum acc s) =
  snd (scan_newL1Batch provider config n batchNum acc s0).
Proof.
  revert batchNum acc. induction n as [|n IH]; intros batchNum acc;
    [reflexivity|].
  simpl. run_m. destruct (getL1BatchDetails provider batchNum); [|reflexivity].
  apply IH.
Qed.

Lemma then_advance_clear scan mark clear s :
  good scan ->
  (forall s0, snd (scan s) = snd (scan s0)) ->
  mark (clear s) = mark s ->
  snd (deliver (then_advance scan mark s)) =
    snd (deliver (then_advance scan mark (clear s))) /\
  (snd (deliver (then_advance scan mark s)) <> Threw ->
   fst (deliver (then_advance scan mark s)) =
     fst (deliver (then_advance scan mark (clear s)))).
Proof.
  intros Hg Hconst Hmark.
  pose proof (proj1 (Hg s)) as E1. pose proof (proj1 (Hg (clear s))) as E2.
  pose proof (Hconst (clear s)) as E3.
  unfold deliver. run_m.
  destruct (scan s) as [s1 r1], (scan (clear s)) as [s2 r2].
  cbn [fst snd] in *. subst.
  destruct r2 as [[|e evs]|]; cbn [fst snd]; split; congruence.
Qed.

(** C10: a stored [lastBlock] (for newBlock) or [lastL1Batch] (for
    newL1Batch) equal to 0 counts as absent.  With the tip at [current] the
    invocation scans the one unit [current] and stores [current] — it does
    not scan from 1 — and its outcome, and the store it leaves unless it
    throws, are those of the same invocation on the store without the
    key. *)
Theorem zero_watermark_reseeds (lib : Library) (credentials : Credentials)
  (params : Params) (provider : Provider) (s : Store) (current : Z) :
  (triggerOn params = newBlock -> lastBlock s = Some 0 ->
   getBlockNumber provider = Some current ->
   poll lib credentials params provider s =
     deliver (then_advance (scan_newBlock provider (config_of credentials) 1 current [])
                (set_lastBlock current) s) /\
   snd (poll lib credentials params provider s) =
     snd (poll lib credentials params provider (clear_lastBlock s)) /\
   (snd (poll lib credentials params provider s) <> Threw ->
    fst (poll lib credentials params provider s) =
      fst (poll lib credentials params provider (clear_lastBlock s)))) /\
  (triggerOn params = newL1Batch -> lastL1Batch s = Some 0 ->
   getL1BatchNumber provider = Some current ->
   poll lib credentials params provider s =
     deliver (then_advance (scan_newL1Batch provider (config_of credentials) 1 current [])
                (set_lastL1Batch current) s) /\
   snd (poll lib credentials params provider s) =
     snd (poll lib credentials params provider (clear_lastL1Batch s)) /\
   (snd (poll lib credentials params provider s) <> Threw ->
    fst (poll lib credentials params provider s) =
      fst (poll lib credentials params provider (clear_lastL1Batch s)))).
Proof.
  split; intros Hk Hw Htip.
  - assert (E : poll lib credentials params provider s =
                deliver (then_advance (scan_newBlock provider (config_of credentials) 1 current [])
                           (set_lastBlock current) s)).
    { unfold poll, poll_body. rewrite Hk. unfold poll_newBlock.
      first_scan Htip Hw. }
    assert (E' : poll lib credentials params provider (clear_lastBlock s) =
                 deliver (then_advance
                            (scan_newBlock provider (config_of credentials) 1 current [])
                            (set_lastBlock current) (clear_lastBlock s))).
    { unfold poll, poll_body. rewrite Hk. unfold poll_newBlock.
      first_scan Htip (eq_refl : lastBlock (clear_lastBlock s) = None). }
    rewrite E, E'. split; [reflexivity|].
    apply then_advance_clear.
    + apply good_scan_newBlock. constructor.
    + intros s0. apply scan_newBlock_const.
    + reflexivity.
  - assert (E : poll lib credentials params provider s =
                deliver (then_advance
                           (scan_newL1Batch provider (config_of credentials) 1 current [])
                           (set_lastL1Batch current) s)).
    { unfold poll, poll_body. rewrite Hk. unfold poll_newL1Batch.
      first_scan Htip Hw. }
    assert (E' : poll lib credentials params provider (clear_lastL1Batch s) =
                 deliver (then_advance
                            (scan_newL1Batch provider (config_of credentials) 1 current [])
                            (set_lastL1Batch current) (clear_lastL1Batch s))).
    { unfold poll, poll_body. rewrite Hk. unfold poll_newL1Batch.
      first_scan Htip (eq_refl : lastL1Batch (clear_lastL1Batch s) = None). }
    rewrite E, E'. split; [reflexivity|].
    apply then_advance_clear.
    + apply good_scan_newL1Batch. constructor.
    + intros s0. apply scan_newL1Batch_const.
    + reflexivity.
Qed.

Lemma zero_watermark_reseeds_witness :
  let provider := Samples.chain 7 Samples.executed 0 in
  let s := set_lastBlock 0 emptyStore in
  poll Samples.lib Samples.credentials (Samples.params newBlock) provider s =
    deliver (then_advance
               (scan_newBlock provider (config_of Samples.credentials) 1 7 [])
               (set_lastBlock 7) s) /\
  snd (poll Samples.lib Samples.credentials (Samples.params newBlock) provider s) =
    snd (poll Samples.lib Samples.credentials (Samples.params newBlock)
           provider (clear_lastBlock s)) /\
  (snd (poll Samples.lib Samples.credentials (Samples.params newBlock)
          provider s) <> Threw ->
   fst (poll Samples.lib Samples.credentials (Samples.params newBlock)
          provider s) =
     fst (poll Samples.lib Samples.credentials (Samples.params newBlock)
            provider (clear_lastBlock s))).
Proof.
  cbv zeta.
  apply (proj1 (zero_watermark_reseeds Samples.lib Samples.credentials
                  (Samples.params newBlock)
                  (Samples.chain 7 Samples.executed 0)
                  (set_lastBlock 0 emptyStore) 7));
    reflexivity.
Defined.

End TriggerFacts.

Local Open Scope string_scope.
Local Open Scope list_scope.
Local Open Scope Z_scope.

(** * The action node: address validation and provider requests *)

Module NodeFacts.
Import Client Node.

Ltac run_e :=
  cbv [mbind E_bind mret E_ret fail attempt request].

(** Setting up the client issues the network handshake, unless building the
    wallet already failed. *)
Lemma createZkSyncClient_requests lib provider network url key :
  fst (createZkSyncClient lib provider network url key []) = [getNetwork] \/
  (fst (createZkSyncClient lib provider network url key []) = [] /\
   exists message,
     snd (createZkSyncClient lib provider network url key []) = inl message).
Proof.
  unfold createZkSyncClient. run_e.
  destruct (Networks.truthy key); cbn [app fst snd].
  - destruct (newWallet lib _); cbn [app fst snd].
    + left. now destruct (on_getNetwork provider).
    + right. split; [reflexivity|eauto].
  - left. now destruct (on_getNetwork provider).
Qed.

(** C7, as stated, fails: the address ["0x123"] is invalid, the account
    operation is refused — and the handshake request of the client set-up
    has been issued for the item all the same. *)
Lemma invalid_address_still_requests :
  isValidAddress Samples.lib "0x123" = false /\
  result_of Samples.lib NodeSamples.provider
    (NodeSamples.item (account getBalanceOp) "0x123")
  = inl "Invalid Ethereum address" /\
  requests_of Samples.lib NodeSamples.provider
    (NodeSamples.item (account getBalanceOp) "0x123")
  = [getNetwork].
Proof. repeat split; vm_compute; reflexivity. Qed.

(** An operation of the node that does not validate: the account-type
    lookup sends the invalid address to the chain before [formatAddress]
    rejects it. *)
Lemma getAccountType_requests_before_validation :
  result_of Samples.lib NodeSamples.provider
    (NodeSamples.item accountAbstraction_getAccountType "0x123")
  = inl "invalid address" /\
  requests_of Samples.lib NodeSamples.provider
    (NodeSamples.item accountAbstraction_getAccountType "0x123")
  = [getNetwork; getCode "0x123"].
Proof. split; vm_compute; reflexivity. Qed.

(** C7, amended: for the operations of the [account] resource and for
    [transaction / sendEth], an item whose address fails validation fails,
    and the only provider request issued on its behalf is the network
    handshake of the client set-up (not even that one when the wallet could
    not be built): no request carries the invalid address. *)
Theorem invalid_address_fails_after_handshake
  (lib : Library) (provider : Provider) (item : Item) :
  (exists op, operation item = account op /\
              isValidAddress lib (address item) = false) \/
  (operation item = transaction_sendEth /\
   isValidAddress lib (toAddress item) = false) ->
  (exists message, result_of lib provider item = inl message) /\
  (requests_of lib provider item = [getNetwork] \/
   requests_of lib provider item = []) /\
  (Networks.truthy (privateKey item) = false ->
   requests_of lib provider item = [getNetwork]).
Proof.
  intros H. unfold result_of, requests_of, execute_item.
  unfold createZkSyncClient. run_e.
  destruct (Networks.truthy (privateKey item)) eqn:Hk; cbn [app].
  - destruct (newWallet lib _) as [w|]; cbn [app fst snd].
    + destruct (on_getNetwork provider) as [c|]; cbn [fst snd];
        [|split; [eauto|split; [now left|discriminate]]].
      unfold dispatch.
      destruct H as [(op & -> & Hv)|[-> Hv]].
      * rewrite Hv. cbn [negb fail fst snd].
        split; [eauto|split; [now left|discriminate]].
      * unfold sendEth. cbn [wallet]. rewrite Hv. cbn [negb fail fst snd].
        split; [eauto|split; [now left|discriminate]].
    + split; [eauto|split; [now right|discriminate]].
  - destruct (on_getNetwork provider) as [c|]; cbn [fst snd];
      [|split; [eauto|split; [now left|reflexivity]]].
    unfold dispatch.
    destruct H as [(op & -> & Hv)|[-> Hv]].
    + rewrite Hv. cbn [negb fail fst snd].
      split; [eauto|split; [now left|reflexivity]].
    + unfold sendEth. cbn [wallet fail fst snd].
      split; [eauto|split; [now left|reflexivity]].
Qed.

Lemma invalid_address_fails_after_handshake_witness :
  let item := NodeSamples.item (account getBalanceOp) "0x123" in
  (exists message,
     result_of Samples.lib NodeSamples.provider item = inl message) /\
  (requests_of Samples.lib NodeSamples.provider item = [getNetwork] \/
   requests_of Samples.lib NodeSamples.provider item = []) /\
  (Networks.truthy (privateKey item) = false ->
   requests_of Samples.lib NodeSamples.provider item = [getNetwork]).
Proof.
  cbv zeta.
  apply (invalid_address_fails_after_handshake Samples.lib
           NodeSamples.provider
           (NodeSamples.item (account getBalanceOp) "0x123")).
  left. exists getBalanceOp. split; reflexivity.
Defined.

End NodeFacts.

Local Open Scope string_scope.
Local Open Scope list_scope.
Local Open Scope Z_scope.

(** * More about unit conversion *)

Module UnitConverterMore.
Import UnitConverter Chars CharsFacts BigIntFacts EthersFacts.
Import UnitConverterFacts.

Local Abbreviation digits l := (Forall (fun c => is_digit c = true) l).
Local Abbreviation zeros k := (repeat "0"%char k).

(** X1: what [formatTokenAmount] prints, [parseTokenAmount] reads back as
    the same amount at the same number of decimals; at eighteen decimals
    that is [weiToEth] / [ethToWei], at nine [weiToGwei] / [gweiToWei]. *)
Theorem token_amount_roundtrip (amount : Z) (decimals : nat) (text : string) :
  formatTokenAmount amount decimals = Some text ->
  parseTokenAmount text decimals = Some amount /\
  (decimals = 18%nat -> weiToEth amount = Some text /\ ethToWei text = Some amount) /\
  (decimals = 9%nat -> weiToGwei amount = Some text /\ gweiToWei text = Some amount).
Proof.
  intros H. pose proof (parseUnits_formatUnits _ _ _ H) as P.
  split; [exact P|]. split; intros ->; split; assumption.
Qed.

Lemma token_amount_roundtrip_witness :
  parseTokenAmount "1.5" 6 = Some 1500000 /\
  (6%nat = 18%nat -> weiToEth 1500000 = Some "1.5" /\ ethToWei "1.5" = Some 1500000) /\
  (6%nat = 9%nat -> weiToGwei 1500000 = Some "1.5" /\ gweiToWei "1.5" = Some 1500000).
Proof.
  apply (token_amount_roundtrip 1500000 6 "1.5"). vm_compute. reflexivity.
Defined.

(** X2: a conversion fails exactly when its input does not parse in the
    source unit — the target unit never makes it fail — and what it returns
    denotes, in the target unit, the same number of wei as the input. *)
Theorem convertUnits_lossless (A : string) (U V : EthUnit) :
  (convertUnits A U V = None <->
   Ethers.parseUnits A (UNIT_DECIMALS U) = None) /\
  forall B, convertUnits A U V = Some B ->
            Ethers.parseUnits B (UNIT_DECIMALS V) =
            Ethers.parseUnits A (UNIT_DECIMALS U).
Proof.
  unfold convertUnits.
  destruct (Ethers.parseUnits A (UNIT_DECIMALS U)) as [n|] eqn:HA.
  - pose proof (parseUnits_in_range _ _ _ HA) as Hr.
    rewrite (formatUnits_in_range n V Hr). split; [split; discriminate|].
    intros B [= <-].
    apply parseUnits_formatUnits. now apply formatUnits_in_range.
  - split; [split; reflexivity|discriminate].
Qed.

Lemma convertUnits_lossless_witness :
  Ethers.parseUnits "1000000000000000000" (UNIT_DECIMALS wei) =
  Ethers.parseUnits "1" (UNIT_DECIMALS ether).
Proof.
  apply (proj2 (convertUnits_lossless "1" ether wei)).
  vm_compute. reflexivity.
Defined.

Lemma val_acc_zeros_scale k a : val_acc (zeros k) a = (a * 10 ^ N.of_nat k)%N.
Proof.
  revert a. induction k as [|k IH]; intros a.
  - simpl. lia.
  - cbn [repeat]. unfold val_acc in *. cbn [fold_left]. rewrite IH.
    change (digit_val "0") with 0%N.
    rewrite Nat2N.inj_succ, N.pow_succ_r'. lia.
Qed.

Lemma fromChars_whole_scaled sign w d :
  (sign = [] \/ sign = ["-"%char]) -> digits w -> w <> [] ->
  Ethers.format_ok d = true ->
  Ethers.fromChars (sign ++ w) d =
    match BigInt.ofChars (sign ++ w ++ zeros d) with
    | Some v => if Ethers.in_range v then Some v else None
    | None => None
    end.
Proof.
  intros Hs Dw Nw Fok. unfold Ethers.fromChars.
  assert (E0 : match sign ++ w with
               | c :: r => if Ascii.eqb c "-" then (["-"%char], r)
                           else ([], sign ++ w)
               | [] => ([], sign ++ w)
               end = (sign, w)).
  { destruct Hs as [-> | ->]; [|reflexivity].
    destruct w as [|c w]; [congruence|]. simpl.
    assert (Hc : is_digit c = true) by (inversion Dw; assumption).
    now rewrite (is_digit_neq c "-" Hc eq_refl). }
  rewrite E0. clear E0.
  rewrite <- (app_nil_r w) at 1.
  rewrite (span_digits w [] Dw I). cbn [span].
  replace (length w + length (@nil ascii) =? 0)%nat with false
    by (symmetry; apply Nat.eqb_neq; destruct w; simpl; [congruence|lia]).
  rewrite Fok. cbn [negb].
  destruct (pad_right_spec d d []) as (m & -> & Lm); [lia|].
  cbn [app length] in *.
  rewrite skipn_repeat, all_zeros_zeros, firstn_repeat. cbn [negb].
  replace (Nat.min d m) with d by lia.
  now destruct w.
Qed.

(** A whole number, printed in decimal, reads as that many units. *)
Lemma parseUnits_whole n d :
  Ethers.format_ok d = true ->
  Ethers.in_range (n * 10 ^ Z.of_nat d) = true ->
  Ethers.parseUnits (BigInt.toString n) d = Some (n * 10 ^ Z.of_nat d).
Proof.
  intros Fok Hr. unfold Ethers.parseUnits, BigInt.toString.
  rewrite list_ascii_of_string_of_list_ascii. unfold BigInt.toChars.
  pose proof (uint_chars_digits (N.to_uint (Z.abs_N n))) as Hd.
  pose proof (to_uint_chars_nonnil (Z.abs_N n)) as Hn.
  set (w := uint_chars (N.to_uint (Z.abs_N n))) in *.
  assert (Dall : digits (w ++ zeros d))
    by (apply Forall_app; split; [assumption|apply zeros_digits]).
  assert (Nall : w ++ zeros d <> []) by (destruct w; simpl; congruence).
  assert (V : Z.of_N (val_digits (w ++ zeros d)) = Z.abs n * 10 ^ Z.of_nat d).
  { unfold val_digits. rewrite val_acc_app, val_acc_zeros_scale.
    fold (val_digits w). unfold w. rewrite val_to_uint.
    rewrite N2Z.inj_mul, N2Z.inj_pow, N2Z.inj_abs_N, nat_N_Z. reflexivity. }
  destruct (Z.ltb_spec n 0).
  - change ("-"%char :: w) with (["-"%char] ++ w).
    rewrite fromChars_whole_scaled by auto.
    cbn [app]. rewrite ofChars_minus_digits, V by assumption.
    replace (- (Z.abs n * 10 ^ Z.of_nat d)) with (n * 10 ^ Z.of_nat d) by lia.
    now rewrite Hr.
  - change w with ([] ++ w).
    rewrite fromChars_whole_scaled by auto.
    cbn [app]. rewrite ofChars_digits, V by assumption.
    replace (Z.abs n * 10 ^ Z.of_nat d) with (n * 10 ^ Z.of_nat d) by lia.
    now rewrite Hr.
Qed.

(** At scale zero the codec prints a plain integer. *)
Lemma toChars_zero v : Ethers.toChars v 0 = BigInt.toChars v.
Proof.
  unfold Ethers.toChars, BigInt.toChars.
  replace (Z.abs v <? 0) with false by (symmetry; apply Z.ltb_ge; lia).
  replace (Z.abs_N (Z.abs v)) with (Z.abs_N v) by lia.
  now destruct (v <? 0).
Qed.

(** X3: a whole amount [n] of a unit is [n * 10 ^ decimals] wei: converting
    its decimal numeral to wei prints exactly that product, and [ethToWei]
    of the numeral is [n * 10 ^ 18]. *)
Theorem whole_amount_in_wei (n : Z) (U : EthUnit) :
  Ethers.in_range (n * 10 ^ Z.of_nat (UNIT_DECIMALS U)) = true ->
  convertUnits (BigInt.toString n) U wei =
    Some (BigInt.toString (n * 10 ^ Z.of_nat (UNIT_DECIMALS U))) /\
  (U = ether -> ethToWei (BigInt.toString n) = Some (n * 10 ^ 18)).
Proof.
  intros Hr.
  pose proof (parseUnits_whole n (UNIT_DECIMALS U) (UNIT_DECIMALS_ok U) Hr) as P.
  split.
  - unfold convertUnits. rewrite P. unfold Ethers.formatUnits.
    rewrite Hr. cbn [UNIT_DECIMALS Ethers.format_ok Nat.leb andb].
    now rewrite toChars_zero.
  - intros ->. exact P.
Qed.

Lemma whole_amount_in_wei_witness :
  convertUnits (BigInt.toString 25) gwei wei =
    Some (BigInt.toString (25 * 10 ^ Z.of_nat (UNIT_DECIMALS gwei))) /\
  (gwei = ether -> ethToWei (BigInt.toString 25) = Some (25 * 10 ^ 18)).
Proof.
  apply (whole_amount_in_wei 25 gwei). vm_compute. reflexivity.
Defined.

End UnitConverterMore.

(** * Display helpers *)

Module DisplayFacts.
Import Display.

Lemma length_string_of_list l :
  String.length (string_of_list_ascii l) = length l.
Proof. induction l as [|c l IH]; simpl; [reflexivity|now rewrite IH]. Qed.

Lemma length_list_of_string s :
  length (list_ascii_of_string s) = String.length s.
Proof. induction s as [|c s IH]; simpl; [reflexivity|now rewrite IH]. Qed.

Lemma length_append s1 s2 :
  String.length (String.append s1 s2) = (String.length s1 + String.length s2)%nat.
Proof. induction s1 as [|c s1 IH]; simpl; [reflexivity|now rewrite IH]. Qed.

Lemma string_of_list_app l1 l2 :
  string_of_list_ascii (l1 ++ l2) =
  String.append (string_of_list_ascii l1) (string_of_list_ascii l2).
Proof. induction l1 as [|c l1 IH]; simpl; [reflexivity|now rewrite IH]. Qed.

(** X4: with [chars] between 1 and the length of the address minus two,
    [truncateAddress] keeps the first [chars + 2] and the last [chars]
    characters around three dots, [2 * chars + 5] characters in all; with
    [chars = 0] nothing is cut: the whole address follows the dots. *)
Theorem truncateAddress_shape (address : string) (chars : Z) :
  0 <= chars -> chars + 2 <= Z.of_nat (String.length address) ->
  let l := list_ascii_of_string address in
  (0 < chars ->
   truncateAddress address chars =
     String.append (string_of_list_ascii (firstn (Z.to_nat chars + 2) l))
       (String.append "..."
          (string_of_list_ascii
             (skipn (String.length address - Z.to_nat chars) l))) /\
   String.length (truncateAddress address chars) = (2 * Z.to_nat chars + 5)%nat) /\
  (chars = 0 ->
   truncateAddress address chars =
     String.append (string_of_list_ascii (firstn 2 l))
       (String.append "..." address)).
Proof.
  intros H0 Hlen l. unfold truncateAddress, slice. fold l.
  pose proof (length_list_of_string address) as Ll. fold l in Ll.
  rewrite Ll. unfold relative.
  replace (0 <? 0) with false by reflexivity.
  replace (chars + 2 <? 0) with false by (symmetry; apply Z.ltb_ge; lia).
  change (Z.to_nat 0) with 0%nat. rewrite Nat.min_0_l, Nat.sub_0_r.
  change (skipn 0 l) with l.
  replace (Nat.min (Z.to_nat (chars + 2)) (String.length address))
    with (Z.to_nat chars + 2)%nat by lia.
  split.
  - intros Hpos.
    replace (- chars <? 0) with true by (symmetry; apply Z.ltb_lt; lia).
    replace (Z.to_nat (Z.max (Z.of_nat (String.length address) + - chars) 0))
      with (String.length address - Z.to_nat chars)%nat by lia.
    rewrite (firstn_all2 (skipn _ l)) by (rewrite length_skipn; lia).
    split; [reflexivity|].
    rewrite !length_append, !length_string_of_list, length_firstn, length_skipn.
    simpl String.length. lia.
  - intros ->. change (- 0 <? 0) with false. cbv iota.
    change (Z.to_nat (- 0)) with 0%nat. rewrite Nat.min_0_l, Nat.sub_0_r.
    change (skipn 0 l) with l.
    rewrite (firstn_all2 (n := String.length address) l) by lia.
    unfold l at 2. now rewrite string_of_list_ascii_of_string.
Qed.

Lemma truncateAddress_shape_witness :
  let address := "0xd8da6bf26964af9d7eed9e03e53415d37aa96045" in
  let l := list_ascii_of_string address in
  (0 < 4 ->
   truncateAddress address 4 =
     String.append (string_of_list_ascii (firstn (Z.to_nat 4 + 2) l))
       (String.append "..."
          (string_of_list_ascii
             (skipn (String.length address - Z.to_nat 4) l))) /\
   String.length (truncateAddress address 4) = (2 * Z.to_nat 4 + 5)%nat) /\
  (4 = 0 ->
   truncateAddress address 4 =
     String.append (string_of_list_ascii (firstn 2 l))
       (String.append "..." address)).
Proof.
  cbv zeta.
  apply (truncateAddress_shape "0xd8da6bf26964af9d7eed9e03e53415d37aa96045" 4).
  - lia.
  - vm_compute. discriminate.
Defined.

Example truncateAddress_default :
  truncateAddress "0xd8da6bf26964af9d7eed9e03e53415d37aa96045" 4 = "0xd8da...6045".
Proof. vm_compute. reflexivity. Qed.

End DisplayFacts.

(** * System contracts *)

Module SystemContractsFacts.
Import SystemContracts.

(** X5: every entry of the table is [0x] followed by forty hexadecimal
    digits, [getSystemContractInfo] returns the entry under its own name,
    and two different names have the same address only if they are
    [COMPRESSOR] and [EVENT_WRITER]. *)
Theorem system_contracts_table (name other : SystemContractName) :
  is_hex_address (info_address (getSystemContractInfo name)) = true /\
  info_address (getSystemContractInfo name) = SYSTEM_CONTRACTS name /\
  info_name (getSystemContractInfo name) = name_text name /\
  (SYSTEM_CONTRACTS name = SYSTEM_CONTRACTS other -> name <> other ->
   (name = COMPRESSOR /\ other = EVENT_WRITER) \/
   (name = EVENT_WRITER /\ other = COMPRESSOR)) /\
  SYSTEM_CONTRACTS COMPRESSOR = SYSTEM_CONTRACTS EVENT_WRITER.
Proof.
  split; [destruct name; vm_compute; reflexivity|].
  split; [reflexivity|]. split; [reflexivity|]. split; [|reflexivity].
  destruct name, other; intros E N;
    solve [congruence | discriminate E | left; split; reflexivity
          | right; split; reflexivity].
Qed.

Lemma system_contracts_table_witness :
  (COMPRESSOR = COMPRESSOR /\ EVENT_WRITER = EVENT_WRITER) \/
  (COMPRESSOR = EVENT_WRITER /\ EVENT_WRITER = COMPRESSOR).
Proof.
  apply (proj1 (proj2 (proj2 (proj2
           (system_contracts_table COMPRESSOR EVENT_WRITER)))));
    [reflexivity|discriminate].
Defined.

End SystemContractsFacts.

(** * The receipt lookup with retries *)

Module RetryFacts.
Import Client Retry.

Lemma rounds_S txHash k :
  rounds txHash (S k) = Lookup txHash :: Sleep 2000 :: rounds txHash k.
Proof. reflexivity. Qed.

Lemma rounds_snoc txHash k :
  rounds txHash k ++ [Lookup txHash; Sleep 2000] = rounds txHash (S k).
Proof.
  induction k as [|k IH]; [reflexivity|].
  change (rounds txHash (S k) ++ [Lookup txHash; Sleep 2000])
    with (Lookup txHash :: Sleep 2000 ::
          (rounds txHash k ++ [Lookup txHash; Sleep 2000])).
  rewrite IH. reflexivity.
Qed.

(** The loop from index [i] on, while every answer is [null] and a pause
    follows each of them. *)
Lemma retry_nulls answer txHash maxRetries k : forall n i log,
  (k <= n)%nat -> 0 <= i ->
  (forall j, i <= j < i + Z.of_nat k -> answer j = Some None) ->
  i + Z.of_nat k <= maxRetries - 1 ->
  retry answer txHash maxRetries n i log =
  retry answer txHash maxRetries (n - k) (i + Z.of_nat k)
    (log ++ rounds txHash k).
Proof.
  induction k as [|k IH]; intros n i log Hn Hi Hnull Hmax.
  - simpl. rewrite Nat.sub_0_r, Z.add_0_r, app_nil_r. reflexivity.
  - destruct n as [|n]; [lia|]. cbn [retry].
    rewrite (Hnull i) by lia.
    replace (i <? maxRetries - 1) with true by (symmetry; apply Z.ltb_lt; lia).
    rewrite (IH n (i + 1)); try lia.
    + replace (i + Z.of_nat (S k)) with (i + 1 + Z.of_nat k) by lia.
      rewrite rounds_S, <- !app_assoc. reflexivity.
    + intros j Hj. apply Hnull. lia.
Qed.

(** X6: if the [k]-th answer (counting from 0, [k < maxRetries]) is the
    first that carries a receipt, the helper returns that receipt after
    exactly [k + 1] lookups with a pause of two seconds between consecutive
    lookups, and none after the last. *)
Theorem getTransactionReceipt_first_receipt
  (answer : Z -> option (option TransactionReceipt)) (txHash : string)
  (maxRetries : Z) (k : nat) (receipt : TransactionReceipt) :
  Z.of_nat k < maxRetries ->
  (forall j, 0 <= j < Z.of_nat k -> answer j = Some None) ->
  answer (Z.of_nat k) = Some (Some receipt) ->
  getTransactionReceipt answer txHash maxRetries =
    (rounds txHash k ++ [Lookup txHash], Some (Some receipt)).
Proof.
  intros Hk Hnull Hhit. unfold getTransactionReceipt.
  rewrite (retry_nulls answer txHash maxRetries k); try lia.
  - destruct (Z.to_nat maxRetries - k)%nat as [|n] eqn:E; [lia|].
    cbn [retry]. rewrite Z.add_0_l, Hhit. reflexivity.
  - intros j Hj. apply Hnull. lia.
Qed.

Lemma getTransactionReceipt_first_receipt_witness :
  let receipt := {| txr_status := 1; txr_blockNumber := 7; txr_gasUsed := 21000 |} in
  getTransactionReceipt
    (fun j => if j =? 2 then Some (Some receipt) else Some None) "0xabc" 3 =
    (rounds "0xabc" 2 ++ [Lookup "0xabc"], Some (Some receipt)).
Proof.
  cbv zeta.
  apply (getTransactionReceipt_first_receipt
           (fun j => if j =? 2
                     then Some (Some {| txr_status := 1; txr_blockNumber := 7;
                                        txr_gasUsed := 21000 |})
                     else Some None) "0xabc" 3 2).
  - lia.
  - intros j Hj. replace (j =? 2) with false by (symmetry; apply Z.eqb_neq; lia).
    reflexivity.
  - reflexivity.
Defined.

(** X7: if none of the first [maxRetries] answers carries a receipt, the
    helper returns [null] after exactly [maxRetries] lookups and
    [maxRetries - 1] pauses (it does not pause after the last lookup); with
    [maxRetries <= 0] it asks nothing at all. *)
Theorem getTransactionReceipt_gives_up
  (answer : Z -> option (option TransactionReceipt)) (txHash : string)
  (maxRetries : Z) :
  (forall j, 0 <= j < maxRetries -> answer j = Some None) ->
  getTransactionReceipt answer txHash maxRetries =
    (match Z.to_nat maxRetries with
     | O => []
     | S k => rounds txHash k ++ [Lookup txHash]
     end, Some None).
Proof.
  intros Hnull. unfold getTransactionReceipt.
  destruct (Z.to_nat maxRetries) as [|k] eqn:E; [reflexivity|].
  rewrite (retry_nulls answer txHash maxRetries k); try lia.
  - replace (S k - k)%nat with 1%nat by lia. cbn [retry].
    rewrite Z.add_0_l, (Hnull (Z.of_nat k)) by lia.
    replace (Z.of_nat k <? maxRetries - 1) with false
      by (symmetry; apply Z.ltb_ge; lia).
    reflexivity.
  - intros j Hj. apply Hnull. lia.
Qed.

Lemma getTransactionReceipt_gives_up_witness :
  getTransactionReceipt (fun _ => Some None) "0xabc" 3 =
    (match Z.to_nat 3 with
     | O => []
     | S k => rounds "0xabc" k ++ [Lookup "0xabc"]
     end, Some None).
Proof.
  apply (getTransactionReceipt_gives_up (fun _ => Some None) "0xabc" 3).
  intros j Hj. reflexivity.
Defined.

End RetryFacts.

Local Open Scope string_scope.
Local Open Scope list_scope.
Local Open Scope Z_scope.

(** * The action node: the loop over items and its requests *)

Module NodeMore.
Import Client Node NodeSpec.

Lemma appends_ret {A} (a : A) : appends (mret a).
Proof. intros t. cbv [mret E_ret]. simpl. now rewrite app_nil_r. Qed.

Lemma appends_fail {A} message : appends (@fail A message).
Proof. intros t. cbv [fail]. simpl. now rewrite app_nil_r. Qed.

Lemma appends_attempt {A} (r : option A) message : appends (attempt r message).
Proof. intros t. cbv [attempt]. simpl. now rewrite app_nil_r. Qed.

Lemma appends_request {A} q (answer : option A) : appends (request q answer).
Proof. intros t. reflexivity. Qed.

Lemma appends_bind {A B} (m : E A) (f : A -> E B) :
  appends m -> (forall a, appends (f a)) -> appends (m ≫= f).
Proof.
  intros Hm Hf t. cbv [mbind E_bind]. rewrite (Hm t).
  destruct (m []) as [tm [e|a]]; cbn [fst snd].
  - reflexivity.
  - rewrite (Hf a (t ++ tm)), (Hf a tm). cbn [fst snd].
    now rewrite app_assoc.
Qed.

Ltac appends_step :=
  first
    [ apply appends_ret | apply appends_fail | apply appends_attempt
    | apply appends_request
    | apply appends_bind; [|intros ?]
    | match goal with
      | |- appends (if ?b then _ else _) => destruct b
      | |- appends (match ?x with _ => _ end) => destruct x
      end ].

Section Appends.

Context (lib : Library) (provider : Provider).

Lemma appends_createZkSyncClient network url key :
  appends (createZkSyncClient lib provider network url key).
Proof. unfold createZkSyncClient. repeat appends_step. Qed.

Lemma appends_dispatch item client : appends (dispatch lib provider item client).
Proof.
  unfold dispatch, account_operation, sendEth. repeat appends_step.
Qed.

Lemma appends_execute_item item : appends (execute_item lib provider item).
Proof.
  unfold execute_item. apply appends_bind.
  - apply appends_createZkSyncClient.
  - intros client. apply appends_dispatch.
Qed.

(** One item, on any log: its requests are added, its result is its own. *)
Lemma execute_item_on item t :
  execute_item lib provider item t =
  (t ++ requests_of lib provider item, result_of lib provider item).
Proof. apply appends_execute_item. Qed.

(** X8: with [continueOnFail] the loop never throws.  It returns one output
    per input item, in order — the item's result, or an object holding its
    error message — and the requests issued are those of the items, one
    item after the other. *)
Theorem execute_continue (items : list Item) (returnData : list IDataObject)
  (t : list Request) :
  execute lib provider true items returnData t =
  (t ++ concat (map (requests_of lib provider) items),
   inr (returnData ++ map (output_of lib provider) items)).
Proof.
  revert returnData t. induction items as [|item items IH]; intros returnData t.
  - simpl. cbv [mret E_ret]. now rewrite !app_nil_r.
  - cbn [execute]. rewrite execute_item_on. unfold output_of at 1.
    cbn [map concat].
    destruct (result_of lib provider item) as [message|result] eqn:E;
      rewrite IH, <- !app_assoc; reflexivity.
Qed.

(** X9: without [continueOnFail] the first failing item ends the batch: the
    loop throws that item's error, returns no output at all, and issues no
    request for any item after it. *)
Theorem execute_aborts (done_ : list Item) (bad : Item) (rest : list Item)
  (message : string) (returnData : list IDataObject) (t : list Request) :
  Forall (succeeds lib provider) done_ ->
  result_of lib provider bad = inl message ->
  execute lib provider false (done_ ++ bad :: rest) returnData t =
  (t ++ concat (map (requests_of lib provider) (done_ ++ [bad])),
   inl message).
Proof.
  intros Hok Hbad. revert returnData t.
  induction Hok as [|item done_ [result Hitem] _ IH]; intros returnData t.
  - cbn [app execute map concat]. rewrite execute_item_on, Hbad.
    now rewrite app_nil_r.
  - cbn [app execute map concat]. rewrite execute_item_on, Hitem, IH.
    now rewrite <- app_assoc.
Qed.

End Appends.

Lemma execute_aborts_witness :
  let good := NodeSamples.item (account getBalanceOp)
                "0xd8da6bf26964af9d7eed9e03e53415d37aa96045" in
  let bad := NodeSamples.item (account getBalanceOp) "0x123" in
  execute Samples.lib NodeSamples.provider false ([good] ++ bad :: [good]) [] [] =
  ([] ++ concat (map (requests_of Samples.lib NodeSamples.provider)
                   ([good] ++ [bad])),
   inl "Invalid Ethereum address").
Proof.
  cbv zeta. apply execute_aborts.
  - constructor; [|constructor]. eexists. vm_compute. reflexivity.
  - vm_compute. reflexivity.
Defined.

(** ** What is requested, and when *)

Section Requests.

Context (lib : Library) (provider : Provider).

(** X10: the first request made for an item is always the network
    handshake; when the handshake is rejected, or the wallet cannot be
    built, the item fails and nothing else is requested. *)
Theorem handshake_first (item : Item) :
  (requests_of lib provider item = [] \/
   exists rest, requests_of lib provider item = getNetwork :: rest) /\
  (on_getNetwork provider = None ->
   (requests_of lib provider item = [] \/
    requests_of lib provider item = [getNetwork]) /\
   exists message, result_of lib provider item = inl message).
Proof.
  unfold requests_of, result_of, execute_item, createZkSyncClient.
  cbv [mbind E_bind mret E_ret attempt request].
  destruct (Networks.truthy (privateKey item)); cbn [app fst snd].
  - destruct (newWallet lib _) as [w|]; cbn [app fst snd].
    + destruct (on_getNetwork provider) as [c|]; cbn [fst snd].
      * rewrite (appends_dispatch lib provider item _ [getNetwork]).
        cbn [fst snd app]. split; [right; eauto|discriminate].
      * split; [right; eauto|]. intros _. split; [now right|eauto].
    + split; [now left|]. intros _. split; [now left|eauto].
  - destruct (on_getNetwork provider) as [c|]; cbn [fst snd].
    + rewrite (appends_dispatch lib provider item _ [getNetwork]).
      cbn [fst snd app]. split; [right; eauto|discriminate].
    + split; [right; eauto|]. intros _. split; [now right|eauto].
Qed.

End Requests.

Lemma handshake_first_witness :
  let provider :=
    {| on_getNetwork := None;
       on_getBalance := fun _ => Some 0;
       on_getTransactionCount := fun _ => Some 0;
       on_getCode := fun _ => Some "0x";
       on_sendTransaction := fun _ _ _ => None;
       on_waitReceipt := fun _ => Some None;
       on_estimateGas := fun _ _ => Some 21000;
       on_l2TokenAddress := fun _ => None;
       on_contractCall := fun _ _ _ => Some 0 |} in
  let item := NodeSamples.item contract_getCode "0x123" in
  (requests_of Samples.lib provider item = [] \/
   requests_of Samples.lib provider item = [getNetwork]) /\
  exists message, result_of Samples.lib provider item = inl message.
Proof.
  cbv zeta.
  refine (proj2 (handshake_first Samples.lib _ _) _). reflexivity.
Defined.

(** ** Sending ether *)

Lemma paymaster_only_sepolia network url :
  network <> "sepolia" ->
  Networks.get_testnetPaymaster (Networks.getNetworkConfig network url) = None.
Proof.
  intros H.
  destruct (NetworksFacts.getNetworkConfig_cases network url)
    as [[u ->] | [-> | [[E _] | ->]]]; try reflexivity.
  contradiction.
Qed.

Local Ltac no_send :=
  repeat match goal with
         | |- context [match ?x with _ => _ end] => destruct x
         end;
  cbn [fst snd app In]; intuition discriminate.

(** X11: a transaction is handed to the wallet only by [transaction /
    sendEth], and only when a private key is configured, the recipient
    passes validation and the amount parses; it goes to that recipient with
    that amount.  A paymaster is attached only when [usePaymaster] is set
    and the network configuration names a testnet paymaster, which no
    network but [sepolia] does. *)
Theorem sendTransaction_only_when_safe (lib : Library) (provider : Provider)
  (item : Item) (to : string) (value : Z) (paymaster : option string) :
  In (sendTransaction to value paymaster) (requests_of lib provider item) ->
  operation item = transaction_sendEth /\
  Networks.truthy (privateKey item) = true /\
  isValidAddress lib (toAddress item) = true /\
  to = toAddress item /\
  parseEther (amount item) = Some value /\
  paymaster =
    (if usePaymaster item
     then Networks.get_testnetPaymaster
            (Networks.getNetworkConfig (network item) (customRpcUrl item))
     else None) /\
  (network item <> "sepolia" -> paymaster = None).
Proof.
  unfold requests_of, execute_item, createZkSyncClient.
  cbv [mbind E_bind mret E_ret attempt request fail].
  destruct (Networks.truthy (privateKey item)) eqn:Hk; cbn [app fst snd].
  - destruct (newWallet lib _) as [w|]; cbn [app fst snd In];
      [|intuition discriminate].
    destruct (on_getNetwork provider) as [c|]; cbn [fst snd In];
      [|intuition discriminate].
    unfold dispatch. destruct (operation item) eqn:Hop;
      try (unfold account_operation;
           cbv [mbind E_bind mret E_ret attempt request fail]; no_send).
    unfold sendEth. cbn [wallet].
    destruct (isValidAddress lib (toAddress item)) eqn:Hv; cbn [negb];
      [|cbv [fail]; cbn [fst In]; intuition discriminate].
    cbv [mbind E_bind mret E_ret attempt request fail].
    destruct (parseEther (amount item)) as [v|] eqn:Hp; cbn [fst snd app In];
      [|intuition discriminate].
    set (pm := if usePaymaster item then _ else None).
    assert (Hpm : network item <> "sepolia" -> pm = None).
    { intros Hn. unfold pm. destruct (usePaymaster item); [|reflexivity].
      now apply paymaster_only_sepolia. }
    destruct (on_sendTransaction provider (toAddress item) v pm) as [r|];
      cbn [fst snd app In].
    + destruct (on_waitReceipt provider _) as [receipt|]; cbn [fst snd app In].
      * destruct (formatEther _); cbn [fst In];
          intros [H|[H|[H|[]]]]; try discriminate;
          injection H as <- <- <-; repeat split; auto.
      * intros [H|[H|[H|[]]]]; try discriminate;
          injection H as <- <- <-; repeat split; auto.
    + intros [H|[H|[]]]; try discriminate;
        injection H as <- <- <-; repeat split; auto.
  - destruct (on_getNetwork provider) as [c|]; cbn [fst snd In];
      [|intuition discriminate].
    unfold dispatch. destruct (operation item) eqn:Hop;
      try (unfold account_operation;
           cbv [mbind E_bind mret E_ret attempt request fail]; no_send).
    unfold sendEth. cbn [wallet]. cbv [fail]. cbn [fst In].
    intuition discriminate.
Qed.

Lemma sendTransaction_only_when_safe_witness :
  let lib :=
    {| getAddress := getAddress Samples.lib; id := id Samples.lib;
       newWallet := fun _ => Some "0xd8da6bf26964af9d7eed9e03e53415d37aa96045";
       newInterface := newInterface Samples.lib |} in
  let recipient := "0xd8da6bf26964af9d7eed9e03e53415d37aa96045" in
  let item :=
    {| operation := transaction_sendEth; address := ""; toAddress := recipient;
       amount := "1"; usePaymaster := true; contractAddress := "";
       l1TokenAddress := ""; validateAddressInput := "";
       network := "mainnet"; customRpcUrl := None;
       privateKey := Some "0x01" |} in
  operation item = transaction_sendEth /\
  Networks.truthy (privateKey item) = true /\
  isValidAddress lib (toAddress item) = true /\
  recipient = toAddress item /\
  parseEther (amount item) = Some (10 ^ 18) /\
  None =
    (if usePaymaster item
     then Networks.get_testnetPaymaster
            (Networks.getNetworkConfig (network item) (customRpcUrl item))
     else None) /\
  (network item <> "sepolia" -> @None string = None).
Proof.
  cbv zeta.
  eapply (sendTransaction_only_when_safe _ NodeSamples.provider).
  vm_compute. right. left. reflexivity.
Defined.

End NodeMore.

Local Open Scope string_scope.
Local Open Scope list_scope.
Local Open Scope Z_scope.

(** * More on the polling trigger *)

Module TriggerMore.
Import Trigger TriggerFacts TriggerSpec.

(** ** The range a watermark kind scans *)

Section Ranges.

Context (provider : Provider) (config : Networks.Value).

Lemma newBlockEvent_valid block :
  match newBlockEvent config block with
  | Some _ => Date.valid (block_timestamp block * 1000) = true
  | None => Date.valid (block_timestamp block * 1000) = false
  end.
Proof.
  unfold newBlockEvent, Date.toISOString.
  now destruct (Date.valid (block_timestamp block * 1000)).
Qed.

Lemma scan_newBlock_range n blockNum acc s :
  (forall i, blockNum <= i < blockNum + Z.of_nat n ->
             block_ok provider i = true) ->
  scan_newBlock provider config n blockNum acc s =
  (s, Some (acc ++ omap (block_item provider config)
                     (seqZ blockNum (Z.of_nat n)))).
Proof.
  revert blockNum acc. induction n as [|n IH]; intros blockNum acc H.
  - cbn [scan_newBlock]. run_m. now rewrite app_nil_r.
  - rewrite seqZ_cons by lia. cbn [scan_newBlock]. run_m.
    pose proof (H blockNum ltac:(lia)) as Hok. unfold block_ok in Hok.
    replace (Z.pred (Z.of_nat (S n))) with (Z.of_nat n) by lia.
    replace (Z.succ blockNum) with (blockNum + 1) by lia.
    cbn [omap list_omap]. unfold block_item at 1.
    destruct (getBlock provider blockNum false) as [[block|]|];
      [| |discriminate].
    + pose proof (newBlockEvent_valid block) as Hv.
      destruct (newBlockEvent config block) as [item|]; [|congruence].
      rewrite IH by (intros i Hi; apply H; lia).
      now rewrite <- app_assoc.
    + rewrite IH by (intros i Hi; apply H; lia). reflexivity.
Qed.

Lemma scan_newBlock_rejects n blockNum acc s :
  (exists i, blockNum <= i < blockNum + Z.of_nat n /\
             block_ok provider i = false) ->
  scan_newBlock provider config n blockNum acc s = (s, None).
Proof.
  revert blockNum acc. induction n as [|n IH]; intros blockNum acc [i [Hi E]].
  - lia.
  - cbn [scan_newBlock]. run_m.
    assert (Hnext : block_ok provider blockNum = true ->
                    exists i, blockNum + 1 <= i < blockNum + 1 + Z.of_nat n /\
                              block_ok provider i = false).
    { intros Hok. exists i. split; [|exact E].
      assert (i <> blockNum) by congruence. lia. }
    unfold block_ok at 1 in Hnext.
    destruct (getBlock provider blockNum false) as [[block|]|];
      [| |reflexivity].
    + pose proof (newBlockEvent_valid block) as Hv.
      destruct (newBlockEvent config block) as [item|]; [|reflexivity].
      apply IH, Hnext, Hv.
    + apply IH, Hnext. reflexivity.
Qed.

Lemma scan_newL1Batch_range n batchNum acc s :
  (forall i, batchNum <= i < batchNum + Z.of_nat n ->
             getL1BatchDetails provider i <> None) ->
  scan_newL1Batch provider config n batchNum acc s =
  (s, Some (acc ++ omap (batch_item provider config)
                     (seqZ batchNum (Z.of_nat n)))).
Proof.
  revert batchNum acc. induction n as [|n IH]; intros batchNum acc H.
  - cbn [scan_newL1Batch]. run_m. now rewrite app_nil_r.
  - rewrite seqZ_cons by lia. cbn [scan_newL1Batch]. run_m.
    destruct (getL1BatchDetails provider batchNum) as [details|] eqn:E;
      [|exfalso; apply (H batchNum); [lia|exact E]].
    rewrite IH by (intros i Hi; apply H; lia).
    replace (Z.pred (Z.of_nat (S n))) with (Z.of_nat n) by lia.
    replace (Z.succ batchNum) with (batchNum + 1) by lia.
    cbn [omap list_omap]. unfold batch_item at 2. rewrite E.
    now rewrite <- app_assoc.
Qed.

Lemma scan_newL1Batch_rejects n batchNum acc s :
  (exists i, batchNum <= i < batchNum + Z.of_nat n /\
             getL1BatchDetails provider i = None) ->
  scan_newL1Batch provider config n batchNum acc s = (s, None).
Proof.
  revert batchNum acc. induction n as [|n IH]; intros batchNum acc [i [Hi E]].
  - lia.
  - cbn [scan_newL1Batch]. run_m.
    destruct (getL1BatchDetails provider batchNum) as [details|] eqn:E0;
      [|reflexivity].
    apply IH. exists i. split; [|exact E].
    assert (i <> batchNum) by congruence. lia.
Qed.

Lemma batch_items_length n batchNum :
  (forall i, batchNum <= i < batchNum + Z.of_nat n ->
             getL1BatchDetails provider i <> None) ->
  length (omap (batch_item provider config) (seqZ batchNum (Z.of_nat n))) = n.
Proof.
  revert batchNum. induction n as [|n IH]; intros batchNum H.
  - reflexivity.
  - rewrite seqZ_cons by lia. cbn [omap list_omap]. unfold batch_item at 1.
    destruct (getL1BatchDetails provider batchNum) eqn:E;
      [|exfalso; apply (H batchNum); [lia|exact E]].
    cbn [length]. f_equal.
    replace (Z.pred (Z.of_nat (S n))) with (Z.of_nat n) by lia.
    apply IH. intros i Hi. apply H. lia.
Qed.

End Ranges.

(** X12: newBlock with the tip ahead of the watermark it starts from.  When
    every block lookup of the range answers and the timestamp of every
    block found is a date that can be rendered, the invocation hands back,
    in order, one item for each block of the range that exists (a [null]
    block is passed over, and [null] is returned when there is none) and
    stores the tip; when a lookup rejects, or [toISOString] throws on the
    timestamp of a block, it throws and the store is as it was. *)
Theorem newBlock_range (lib : Library) (credentials : Credentials)
  (params : Params) (provider : Provider) (s : Store) (current : Z) :
  triggerOn params = newBlock ->
  getBlockNumber provider = Some current ->
  start_of newBlock s current < current ->
  ((forall i, start_of newBlock s current < i <= current ->
              block_ok provider i = true) ->
   poll lib credentials params provider s =
   deliver (set_lastBlock current s,
            Some (omap (block_item provider (config_of credentials))
                    (seqZ (start_of newBlock s current + 1)
                       (current - start_of newBlock s current))))) /\
  ((exists i, start_of newBlock s current < i <= current /\
              block_ok provider i = false) ->
   poll lib credentials params provider s = (s, Threw)).
Proof.
  intros Hkind Htip Hlt. unfold start_of in *. cbn [watermark] in *.
  set (w := or_number (lastBlock s) (current - 1)) in *.
  assert (Hgt : (current >? w) = true)
    by (rewrite Z.gtb_ltb; apply Z.ltb_lt; lia).
  unfold poll, poll_body. rewrite Hkind. unfold poll_newBlock.
  split; intros H.
  - run_m. rewrite Htip. fold w. rewrite Hgt.
    rewrite scan_newBlock_range by (intros i Hi; apply H; lia).
    rewrite Z2Nat.id by lia. reflexivity.
  - run_m. rewrite Htip. fold w. rewrite Hgt.
    rewrite scan_newBlock_rejects; [reflexivity|].
    destruct H as [i [Hi E]]. exists i. split; [lia|exact E].
Qed.

Lemma newBlock_range_witness :
  let provider := Samples.chain 7 Samples.executed 0 in
  let s := set_lastBlock 5 emptyStore in
  poll Samples.lib Samples.credentials (Samples.params newBlock) provider s =
  deliver (set_lastBlock 7 s,
           Some (omap (block_item provider (config_of Samples.credentials))
                   (seqZ (start_of newBlock s 7 + 1)
                      (7 - start_of newBlock s 7)))).
Proof.
  cbv zeta.
  refine (proj1 (newBlock_range Samples.lib Samples.credentials
                   (Samples.params newBlock) _ _ 7 _ _ _) _).
  - reflexivity.
  - reflexivity.
  - vm_compute. reflexivity.
  - intros i _. reflexivity.
Defined.

(** A block whose timestamp is past the last date: the lookup answers, the
    rendering of the date throws, and the watermark stays. *)
Example newBlock_timestamp_out_of_range :
  let late :=
    {| block_number := 7; block_hash := "0xb10c";
       block_timestamp := 8640000000001;
       block_gasLimit := 1; block_gasUsed := 0;
       block_transactions := []; block_prefetchedTransactions := [] |} in
  let provider :=
    {| getBlockNumber := Some 7;
       getBlock := fun _ _ => Some (Some late);
       getL1BatchNumber := Some 7;
       getL1BatchDetails := Samples.executed;
       getTransactionReceipt := fun _ => Some None;
       getLogs := fun _ => Some [];
       getBalance := fun _ => Some 0 |} in
  poll Samples.lib Samples.credentials (Samples.params newBlock) provider
    (set_lastBlock 6 emptyStore) = (set_lastBlock 6 emptyStore, Threw).
Proof. vm_compute. reflexivity. Qed.

(** X13: newL1Batch with the tip ahead of the watermark it starts from is
    all or nothing.  When every batch lookup of the range answers, the
    invocation hands back exactly one item per batch of the range, in
    order (so never [null]), and stores the tip; when one lookup fails it
    throws, hands back nothing of the range and leaves the store as it
    was. *)
Theorem newL1Batch_all_or_nothing (lib : Library) (credentials : Credentials)
  (params : Params) (provider : Provider) (s : Store) (current : Z) :
  triggerOn params = newL1Batch ->
  getL1BatchNumber provider = Some current ->
  start_of newL1Batch s current < current ->
  ((forall i, start_of newL1Batch s current < i <= current ->
              getL1BatchDetails provider i <> None) ->
   exists items,
     poll lib credentials params provider s =
       (set_lastL1Batch current s, Returned (Some items)) /\
     items = omap (batch_item provider (config_of credentials))
               (seqZ (start_of newL1Batch s current + 1)
                  (current - start_of newL1Batch s current)) /\
     Z.of_nat (length items) = current - start_of newL1Batch s current) /\
  ((exists i, start_of newL1Batch s current < i <= current /\
              getL1BatchDetails provider i = None) ->
   poll lib credentials params provider s = (s, Threw)).
Proof.
  intros Hkind Htip Hlt. unfold start_of in *. cbn [watermark] in *.
  set (w := or_number (lastL1Batch s) (current - 1)) in *.
  assert (Hgt : (current >? w) = true)
    by (rewrite Z.gtb_ltb; apply Z.ltb_lt; lia).
  unfold poll, poll_body. rewrite Hkind. unfold poll_newL1Batch.
  split; intros H.
  - eexists. split; [|split; [reflexivity|]].
    + run_m. rewrite Htip. fold w. rewrite Hgt.
      rewrite scan_newL1Batch_range by (intros i Hi; apply H; lia).
      rewrite Z2Nat.id by lia. cbn [app deliver].
      pose proof (batch_items_length provider (config_of credentials)
                    (Z.to_nat (current - w)) (w + 1)) as Hlen.
      rewrite Z2Nat.id in Hlen by lia.
      destruct (omap _ _) as [|e items] eqn:E; [|reflexivity].
      exfalso. cbn [length] in Hlen.
      assert (Z.to_nat (current - w) <> 0%nat) by lia.
      symmetry in Hlen. apply H0, Hlen. intros i Hi. apply H. lia.
    + pose proof (batch_items_length provider (config_of credentials)
                    (Z.to_nat (current - w)) (w + 1)) as Hlen.
      rewrite Z2Nat.id in Hlen by lia.
      rewrite Hlen by (intros i Hi; apply H; lia). lia.
  - run_m. rewrite Htip. fold w. rewrite Hgt.
    rewrite scan_newL1Batch_rejects; [reflexivity|].
    destruct H as [i [Hi E]]. exists i. split; [lia|exact E].
Qed.

Lemma newL1Batch_all_or_nothing_witness :
  let provider :=
    Samples.chain 7 (fun n => if n =? 7 then None else Samples.executed n) 0 in
  let s := set_lastL1Batch 5 emptyStore in
  poll Samples.lib Samples.credentials (Samples.params newL1Batch) provider s
  = (s, Threw).
Proof.
  cbv zeta.
  refine (proj2 (newL1Batch_all_or_nothing Samples.lib Samples.credentials
                   (Samples.params newL1Batch) _ _ 7 _ _ _) _).
  - reflexivity.
  - reflexivity.
  - vm_compute. reflexivity.
  - exists 7. vm_compute. repeat split; discriminate.
Defined.

(** ** What an invocation may do to the store *)

Lemma then_advance_shape scan mark s :
  good scan ->
  fst (then_advance scan mark s) = s \/
  fst (then_advance scan mark s) = mark s.
Proof.
  intros G. destruct (G s) as [Hs _]. run_m.
  destruct (scan s) as [s1 r]. cbn [fst] in Hs. subst s1.
  destruct r; auto.
Qed.

Lemma guarded_shape (tipv : option Z) (key : Store -> option Z)
  (mark : Z -> Store -> Store) (scan : Z -> Z -> M (list Event)) s :
  (forall c w, good (scan c w)) ->
  let m : M (list Event) :=
    c ← await tipv;
    stored ← read key;
    if c >? or_number stored (c - 1)
    then then_advance (scan c (or_number stored (c - 1))) (mark c)
    else ret [] in
  fst (m s) = s \/
  exists c, c > or_number (key s) (c - 1) /\ fst (m s) = mark c s.
Proof.
  intros G m. unfold m.
  cbv [mbind M_bind mret M_ret ret await read].
  destruct tipv as [c|]; [|left; reflexivity].
  destruct (c >? or_number (key s) (c - 1)) eqn:Hgt; [|left; reflexivity].
  destruct (then_advance_shape (scan c (or_number (key s) (c - 1)))
              (mark c) s (G _ _)) as [H|H]; [left; exact H|].
  right. exists c. split; [|exact H].
  rewrite Z.gtb_ltb in Hgt. apply Z.ltb_lt in Hgt. lia.
Qed.

Lemma same_but_finalized_scan provider config n batchNum acc s mark :
  (forall s0, same_but_finalized s0 (mark s0)) ->
  same_but_finalized s
    (fst (then_advance (scan_blockFinalized provider config n batchNum acc)
            mark s)).
Proof.
  intros Hmark.
  pose proof (scan_blockFinalized_cursors provider config n batchNum acc s)
    as Hc.
  run_m. destruct (scan_blockFinalized _ _ _ _ _ _) as [s1 r].
  cbn [fst] in Hc. unfold same_cursors in Hc.
  destruct Hc as (H1 & H2 & H3 & H4 & H5 & H6 & _ & H8 & H9).
  destruct r; cbn [fst].
  - destruct (Hmark s1) as (M1 & M2 & M3 & M4 & M5 & M6 & M8 & M9).
    unfold same_but_finalized. repeat split; congruence.
  - unfold same_but_finalized. repeat split; assumption.
Qed.

Lemma poll_store_step lib credentials params provider s :
  store_step params s (fst (poll lib credentials params provider s)).
Proof.
  rewrite poll_fst. unfold store_step, poll_body.
  destruct (triggerOn params).
  - apply (guarded_shape (getBlockNumber provider) lastBlock set_lastBlock
             (fun c w => scan_newBlock provider (config_of credentials)
                           (Z.to_nat (c - w)) (w + 1) [])).
    intros c w. apply good_scan_newBlock. constructor.
  - apply (guarded_shape (getL1BatchNumber provider) lastL1Batch
             set_lastL1Batch
             (fun c w => scan_newL1Batch provider (config_of credentials)
                           (Z.to_nat (c - w)) (w + 1) [])).
    intros c w. apply good_scan_newL1Batch. constructor.
  - unfold poll_transactionConfirmed. run_m.
    destruct (negb _); [|left; reflexivity].
    destruct (getTransactionReceipt provider (txHash params)) as [[r|]|];
      try (left; reflexivity).
    destruct (negb _); [|left; reflexivity].
    destruct (getBlockNumber provider) as [c|]; [|left; reflexivity].
    destruct (_ >=? _); [right|left]; reflexivity.
  - unfold poll_eth. destruct (negb _); [left; reflexivity|].
    apply (guarded_shape (getBlockNumber provider) lastCheckedBlock
             set_lastCheckedBlock
             (fun c w => scan_eth provider params (config_of credentials)
                           true (Z.to_nat (c - w)) (w + 1) [])).
    intros c w. apply good_scan_eth. constructor.
  - unfold poll_eth. destruct (negb _); [left; reflexivity|].
    apply (guarded_shape (getBlockNumber provider) lastCheckedBlock
             set_lastCheckedBlock
             (fun c w => scan_eth provider params (config_of credentials)
                           false (Z.to_nat (c - w)) (w + 1) [])).
    intros c w. apply good_scan_eth. constructor.
  - apply (guarded_shape (getBlockNumber provider) lastTokenBlock
             set_lastTokenBlock
             (fun c w =>
                logs ← await (getLogs provider
                                (transferFilter lib params (w + 1) c));
                scan_logs (scan_tokenLog params (config_of credentials))
                  logs [])).
    intros c w. apply good_await. intros logs.
    apply good_scan_logs; [apply good_scan_tokenLog|constructor].
  - apply (guarded_shape (getBlockNumber provider) lastNftBlock
             set_lastNftBlock
             (fun c w =>
                logs ← await (getLogs provider
                                (transferFilter lib params (w + 1) c));
                scan_logs (scan_nftLog params (config_of credentials))
                  logs [])).
    intros c w. apply good_await. intros logs.
    apply good_scan_logs; [apply good_scan_nftLog|constructor].
  - apply (guarded_shape (getBlockNumber provider) lastEventBlock
             set_lastEventBlock
             (fun c w => scan_contractEvent lib provider params
                           (config_of credentials) (w + 1) c)).
    intros c w. apply good_scan_contractEvent.
  - unfold poll_blockFinalized.
    cbv [mbind M_bind mret M_ret ret await read].
    destruct (getL1BatchNumber provider) as [c|];
      [|cbn [fst]; unfold same_but_finalized; repeat split; reflexivity].
    apply same_but_finalized_scan.
    intros s0. unfold same_but_finalized. repeat split; reflexivity.
  - unfold poll_balanceChange. destruct (negb _); [left; reflexivity|].
    run_m.
    destruct (getBalance provider (watchAddress params)) as [c|];
      [|left; reflexivity].
    destruct (lastBalance s) as [snapshot|]; [|right; eexists; reflexivity].
    destruct (negb _); [|right; eexists; reflexivity].
    destruct (BigInt.ofString snapshot) as [p|]; [|left; reflexivity].
    destruct (formatEther p); [|left; reflexivity].
    destruct (formatEther c); [|left; reflexivity].
    destruct (formatEther (c - p)); [|left; reflexivity].
    right; eexists; reflexivity.
Qed.

Lemma run_fst_cons lib i invs s :
  fst (run lib (i :: invs) s) =
  fst (run lib invs
         (fst (poll lib (inv_credentials i) (inv_params i)
                 (inv_provider i) s))).
Proof.
  cbn [run]. destruct (poll _ _ _ _ _) as [s1 o]. cbn [fst].
  destruct (run lib invs s1) as [s2 os]. reflexivity.
Qed.

Lemma or_number_positive w fallback : 0 < w -> or_number (Some w) fallback = w.
Proof. intros H. apply or_number_stored. lia. Qed.

Lemma poll_watermark_grows lib credentials params provider s kind w :
  guarded kind = true -> watermark kind s = Some w -> 0 < w ->
  exists w', watermark kind (fst (poll lib credentials params provider s))
             = Some w' /\ w <= w'.
Proof.
  intros Hg Hw Hpos.
  pose proof (poll_store_step lib credentials params provider s) as Hstep.
  unfold store_step in Hstep.
  destruct (triggerOn params); destruct kind; try discriminate Hg;
    cbn [watermark] in *;
    try (destruct Hstep as [->|[c [Hc ->]]];
         [exists w; split; [assumption|lia]|];
         cbn [lastBlock lastL1Batch lastCheckedBlock lastTokenBlock
              lastNftBlock lastEventBlock set_lastBlock set_lastL1Batch
              set_lastCheckedBlock set_lastTokenBlock set_lastNftBlock
              set_lastEventBlock];
         first [ exists w; split; [assumption|lia]
               | rewrite Hw, or_number_positive in Hc by assumption;
                 exists c; split; [reflexivity|lia] ]);
    try (destruct Hstep as [-> | ->]; exists w; (split; [exact Hw|lia]));
    try (destruct Hstep as [->|[b ->]]; exists w; (split; [exact Hw|lia]));
    try (destruct Hstep as (H1 & H2 & H3 & H4 & H5 & H6 & _);
         exists w; (split; [congruence|lia])).
Qed.

(** X14: over any run of invocations, of any kinds and against any
    providers, the watermark of a guarded kind that holds a positive
    number never goes back: at the end it holds a number at least as
    large. *)
Theorem watermark_never_regresses (lib : Library) (invs : list Invocation)
  (s : Store) (kind : TriggerKind) (w : Z) :
  guarded kind = true -> watermark kind s = Some w -> 0 < w ->
  exists w', watermark kind (fst (run lib invs s)) = Some w' /\ w <= w'.
Proof.
  intros Hg. revert s w. induction invs as [|i invs IH]; intros s w Hw Hpos.
  - exists w. split; [exact Hw|lia].
  - rewrite run_fst_cons.
    destruct (poll_watermark_grows lib (inv_credentials i) (inv_params i)
                (inv_provider i) s kind w Hg Hw Hpos) as [w1 [Hw1 Hle]].
    destruct (IH _ w1 Hw1 ltac:(lia)) as [w2 [Hw2 Hle2]].
    exists w2. split; [exact Hw2|lia].
Qed.

Lemma watermark_never_regresses_witness :
  let invs :=
    [Samples.invocation newBlock (Samples.chain 7 Samples.executed 0);
     Samples.invocation blockFinalized (Samples.chain 3 Samples.executed 0);
     Samples.invocation newBlock (Samples.chain 6 Samples.executed 0)] in
  let s := set_lastBlock 5 emptyStore in
  exists w', watermark newBlock (fst (run Samples.lib invs s)) = Some w' /\
             5 <= w'.
Proof.
  cbv zeta.
  apply watermark_never_regresses; [reflexivity|reflexivity|lia].
Defined.

(** X15: an invocation writes only the keys of its own kind.  Each
    watermark key is left alone by every kind but its own ([lastCheckedBlock]
    is shared by ethReceived and ethSent), the balance snapshot by every
    kind but balanceChange, the [tx_] latches by every kind but
    transactionConfirmed, and the [batch_executed_] latches by every kind
    but blockFinalized. *)
Theorem poll_footprint (lib : Library) (credentials : Credentials)
  (params : Params) (provider : Provider) (s : Store) :
  let s' := fst (poll lib credentials params provider s) in
  (triggerOn params <> newBlock -> lastBlock s' = lastBlock s) /\
  (triggerOn params <> newL1Batch -> lastL1Batch s' = lastL1Batch s) /\
  (triggerOn params <> ethReceived -> triggerOn params <> ethSent ->
   lastCheckedBlock s' = lastCheckedBlock s) /\
  (triggerOn params <> tokenTransfer -> lastTokenBlock s' = lastTokenBlock s) /\
  (triggerOn params <> nftTransfer -> lastNftBlock s' = lastNftBlock s) /\
  (triggerOn params <> contractEvent -> lastEventBlock s' = lastEventBlock s) /\
  (triggerOn params <> blockFinalized ->
   lastFinalizedBatch s' = lastFinalizedBatch s /\
   batch_executed_ s' = batch_executed_ s) /\
  (triggerOn params <> balanceChange -> lastBalance s' = lastBalance s) /\
  (triggerOn params <> transactionConfirmed -> tx_ s' = tx_ s).
Proof.
  cbv zeta.
  pose proof (poll_store_step lib credentials params provider s) as Hstep.
  unfold store_step in Hstep.
  destruct (triggerOn params);
    try (destruct Hstep as [->|[c [_ ->]]];
         repeat split; intros; try reflexivity; congruence);
    try (destruct Hstep as [-> | ->];
         repeat split; intros; try reflexivity; congruence);
    try (destruct Hstep as [->|[b ->]];
         repeat split; intros; try reflexivity; congruence).
  destruct Hstep as (H1 & H2 & H3 & H4 & H5 & H6 & H8 & H9).
  repeat split; intros; try assumption; congruence.
Qed.

Lemma poll_footprint_witness :
  let s := set_lastBlock 3 (set_lastFinalizedBatch 5 emptyStore) in
  let s' := fst (poll Samples.lib Samples.credentials
                   (Samples.params blockFinalized)
                   (Samples.chain 7 Samples.executed 0) s) in
  lastBlock s' = lastBlock s /\ lastBalance s' = lastBalance s /\
  tx_ s' = tx_ s.
Proof.
  cbv zeta.
  pose proof (poll_footprint Samples.lib Samples.credentials
                (Samples.params blockFinalized)
                (Samples.chain 7 Samples.executed 0)
                (set_lastBlock 3 (set_lastFinalizedBatch 5 emptyStore)))
    as H.
  cbv zeta in H.
  destruct H as (H1 & _ & _ & _ & _ & _ & _ & H8 & H9).
  split; [apply H1; discriminate|].
  split; [apply H8; discriminate|apply H9; discriminate].
Defined.

(** ** The log kinds *)

Section Logs.

Context (params : Params) (config : Networks.Value).

Lemma scan_tokenLog_cases log acc s :
  if token_log_ok log
  then exists items,
         scan_tokenLog params config log acc s = (s, Some (acc ++ items)) /\
         (length items <= 1)%nat
  else scan_tokenLog params config log acc s = (s, None).
Proof.
  unfold token_log_ok, scan_tokenLog. run_m.
  destruct (log_topics log) as [|t0 [|t1 [|t2 ts]]]; cbn; try reflexivity.
  destruct (BigInt.ofString (log_data log)) as [v|]; [|reflexivity].
  destruct (passes_filter _ _ _).
  - eexists. split; [reflexivity|]. cbn. lia.
  - exists []. rewrite app_nil_r. split; [reflexivity|]. cbn. lia.
Qed.

Lemma scan_logs_token logs acc s :
  if forallb token_log_ok logs
  then exists items,
         scan_logs (scan_tokenLog params config) logs acc s
         = (s, Some (acc ++ items)) /\
         (length items <= length logs)%nat
  else scan_logs (scan_tokenLog params config) logs acc s = (s, None).
Proof.
  revert acc. induction logs as [|log logs IH]; intros acc.
  - cbn. exists []. now rewrite app_nil_r.
  - cbn [forallb scan_logs]. cbv [mbind M_bind].
    pose proof (scan_tokenLog_cases log acc s) as H.
    destruct (token_log_ok log); cbn [andb].
    + destruct H as [items [-> Hlen]].
      specialize (IH (acc ++ items)).
      destruct (forallb token_log_ok logs).
      * destruct IH as [items' [-> Hlen']].
        exists (items ++ items'). rewrite app_assoc. split; [reflexivity|].
        rewrite length_app. cbn [length]. lia.
      * exact IH.
    + now rewrite H.
Qed.

Lemma scan_logs_skip (step : Log -> list Event -> M (list Event))
  (keep : Log -> bool) logs acc s :
  (forall log acc s, keep log = false -> step log acc s = (s, Some acc)) ->
  scan_logs step logs acc s = scan_logs step (List.filter keep logs) acc s.
Proof.
  intros Hskip. revert acc s. induction logs as [|log logs IH]; intros acc s.
  - reflexivity.
  - cbn [List.filter]. destruct (keep log) eqn:E.
    + cbn [scan_logs]. cbv [mbind M_bind].
      destruct (step log acc s) as [s1 [acc1|]]; [apply IH|reflexivity].
    + cbn [scan_logs]. cbv [mbind M_bind]. rewrite Hskip by exact E.
      apply IH.
Qed.

Lemma scan_nftLog_skip log acc s :
  has_tokenId log = false ->
  scan_nftLog params config log acc s = (s, Some acc).
Proof.
  unfold has_tokenId, scan_nftLog. intros ->. reflexivity.
Qed.

Lemma scan_eventLog_skip iface log acc s :
  decodable iface log = false ->
  scan_eventLog params config iface log acc s = (s, Some acc).
Proof.
  unfold decodable, scan_eventLog.
  destruct (iface_parseLog iface log); [discriminate|reflexivity].
Qed.

Lemma scan_logs_event iface logs acc s :
  exists items,
    scan_logs (scan_eventLog params config iface) logs acc s
    = (s, Some (acc ++ items)) /\
    length items = length (List.filter (decodable iface) logs).
Proof.
  revert acc. induction logs as [|log logs IH]; intros acc.
  - exists []. now rewrite app_nil_r.
  - cbn [scan_logs List.filter]. cbv [mbind M_bind].
    unfold scan_eventLog at 1, decodable at 1.
    destruct (iface_parseLog iface log) as [decoded|].
    + cbv [ret mret M_ret].
      destruct (IH (acc ++
                    [ContractEventEvent (decoded_name <$> decoded)
                       (contractAddress params)
                       (default [] (decoded_args <$> decoded))
                       (log_blockNumber log) (log_transactionHash log)
                       (log_index log) (net config)]))
        as [items [-> Hlen]].
      eexists (_ :: items). rewrite <- app_assoc. split; [reflexivity|].
      cbn [length]. now rewrite Hlen.
    + cbv [ret mret M_ret]. apply IH.
Qed.

End Logs.

(** X16: tokenTransfer with the tip ahead of the watermark it starts from,
    when [getLogs] has answered.  The invocation throws exactly when one of
    the logs has fewer than three topics or a data field that [BigInt]
    rejects (such as the empty [0x] of an ERC-721 transfer), whichever side
    of the address filter the log is on; the store is then as it was, so
    the same range is read again by the next invocation.  Otherwise it
    returns at most one item per log and stores the tip. *)
Theorem tokenTransfer_throws_iff (lib : Library) (credentials : Credentials)
  (params : Params) (provider : Provider) (s : Store) (current : Z)
  (logs : list Log) :
  triggerOn params = tokenTransfer ->
  getBlockNumber provider = Some current ->
  start_of tokenTransfer s current < current ->
  getLogs provider
    (transferFilter lib params (start_of tokenTransfer s current + 1) current)
    = Some logs ->
  (forallb token_log_ok logs = false ->
   poll lib credentials params provider s = (s, Threw)) /\
  (forallb token_log_ok logs = true ->
   fst (poll lib credentials params provider s)
     = set_lastTokenBlock current s /\
   snd (poll lib credentials params provider s) <> Threw /\
   (length (emitted (snd (poll lib credentials params provider s)))
    <= length logs)%nat).
Proof.
  intros Hkind Htip Hlt Hlogs. unfold start_of in *. cbn [watermark] in *.
  set (w := or_number (lastTokenBlock s) (current - 1)) in *.
  assert (Hgt : (current >? w) = true)
    by (rewrite Z.gtb_ltb; apply Z.ltb_lt; lia).
  pose proof (scan_logs_token params (config_of credentials) logs [] s) as H.
  assert (Hpoll :
    poll lib credentials params provider s =
    deliver
      (match scan_logs (scan_tokenLog params (config_of credentials))
               logs [] s with
       | (s1, Some items) => (set_lastTokenBlock current s1, Some items)
       | (s1, None) => (s1, None)
       end)).
  { unfold poll, poll_body. rewrite Hkind. unfold poll_tokenTransfer.
    run_m. rewrite Htip. fold w. rewrite Hgt, Hlogs.
    destruct (scan_logs _ _ _ _) as [s1 [items|]]; reflexivity. }
  rewrite Hpoll. clear Hpoll.
  destruct (forallb token_log_ok logs).
  - split; [discriminate|]. intros _.
    destruct H as [items [-> Hlen]]. cbn [app].
    destruct items; cbn; (split; [reflexivity|split; [discriminate|]]);
      cbn in Hlen; lia.
  - split; [|discriminate]. intros _. now rewrite H.
Qed.

Lemma tokenTransfer_throws_iff_witness :
  let nft_log :=
    {| log_topics := ["0xddf2"; "0x01"; "0x02"; "0x03"]; log_data := "0x";
       log_blockNumber := 7; log_transactionHash := "0xabc";
       log_index := 0 |} in
  let provider := with_logs [nft_log] (Samples.chain 7 Samples.executed 0) in
  let s := set_lastTokenBlock 5 emptyStore in
  poll Samples.lib Samples.credentials (Samples.params tokenTransfer)
    provider s = (s, Threw).
Proof.
  cbv zeta.
  refine (proj1 (tokenTransfer_throws_iff Samples.lib Samples.credentials
                   (Samples.params tokenTransfer) _ _ 7 _ _ _ _ _) _).
  - reflexivity.
  - reflexivity.
  - vm_compute. reflexivity.
  - reflexivity.
  - vm_compute. reflexivity.
Defined.

(** X17: nftTransfer passes over a log with fewer than four topics (an
    ERC-20 transfer, which has the same signature hash): whatever the
    store, the tip and the filter, the invocation behaves as if [getLogs]
    had answered without those logs; it does not throw because of them. *)
Theorem nftTransfer_skips_short_logs (lib : Library)
  (credentials : Credentials) (params : Params) (provider : Provider)
  (s : Store) (logs : list Log) :
  triggerOn params = nftTransfer ->
  poll lib credentials params (with_logs logs provider) s =
  poll lib credentials params
    (with_logs (List.filter has_tokenId logs) provider) s.
Proof.
  intros Hkind. unfold poll, poll_body. rewrite Hkind.
  unfold poll_nftTransfer. run_m. cbn [with_logs getBlockNumber getLogs].
  destruct (getBlockNumber provider) as [c|]; [|reflexivity].
  destruct (c >? _); [|reflexivity].
  rewrite (scan_logs_skip (scan_nftLog params (config_of credentials))
             has_tokenId logs [] s); [reflexivity|].
  intros log acc s0. apply scan_nftLog_skip.
Qed.

Lemma nftTransfer_skips_short_logs_witness :
  let erc20_log :=
    {| log_topics := ["0xddf2"; "0x01"; "0x02"]; log_data := "0x05";
       log_blockNumber := 7; log_transactionHash := "0xabc";
       log_index := 0 |} in
  let provider := Samples.chain 7 Samples.executed 0 in
  let s := set_lastNftBlock 5 emptyStore in
  poll Samples.lib Samples.credentials (Samples.params nftTransfer)
    (with_logs [erc20_log] provider) s =
  poll Samples.lib Samples.credentials (Samples.params nftTransfer)
    (with_logs [] provider) s.
Proof.
  cbv zeta.
  exact (nftTransfer_skips_short_logs Samples.lib Samples.credentials
           (Samples.params nftTransfer)
           (Samples.chain 7 Samples.executed 0)
           (set_lastNftBlock 5 emptyStore) _ eq_refl).
Defined.

(** X18: contractEvent never fails on a log.  A log [parseLog] throws on is
    passed over, as if [getLogs] had answered without it; and once the
    interface is built, the tip is ahead of the watermark the invocation
    starts from and [getLogs] has answered, the invocation returns, stores
    the tip and hands back one item per log that decodes (none when the
    interface has no event topic, in which case the range is never read
    again either). *)
Theorem contractEvent_skips_undecodable (lib : Library)
  (credentials : Credentials) (params : Params) (provider : Provider)
  (s : Store) (logs : list Log) (iface : Interface) :
  triggerOn params = contractEvent ->
  newInterface lib (eventAbi params) = Some iface ->
  poll lib credentials params (with_logs logs provider) s =
  poll lib credentials params
    (with_logs (List.filter (decodable iface) logs) provider) s /\
  forall current,
    getBlockNumber provider = Some current ->
    start_of contractEvent s current < current ->
    fst (poll lib credentials params (with_logs logs provider) s)
      = set_lastEventBlock current s /\
    snd (poll lib credentials params (with_logs logs provider) s) <> Threw /\
    length (emitted (snd (poll lib credentials params
                            (with_logs logs provider) s)))
      = if truthy_hash (iface_eventTopic iface)
        then length (List.filter (decodable iface) logs)
        else 0%nat.
Proof.
  intros Hkind Hiface. split.
  - unfold poll, poll_body. rewrite Hkind.
    unfold poll_contractEvent, scan_contractEvent. run_m.
    cbn [with_logs getBlockNumber getLogs].
    destruct (getBlockNumber provider) as [c|]; [|reflexivity].
    destruct (c >? _); [|reflexivity].
    rewrite Hiface.
    destruct (iface_eventTopic iface) as [topic|]; [|reflexivity].
    destruct (nonempty topic); [|reflexivity].
    rewrite (scan_logs_skip (scan_eventLog params (config_of credentials)
                               iface) (decodable iface) logs [] s);
      [reflexivity|].
    intros log acc s0. apply scan_eventLog_skip.
  - intros current Htip Hlt. unfold start_of in *. cbn [watermark] in *.
    set (w := or_number (lastEventBlock s) (current - 1)) in *.
    assert (Hgt : (current >? w) = true)
      by (rewrite Z.gtb_ltb; apply Z.ltb_lt; lia).
    unfold poll, poll_body. rewrite Hkind.
    unfold poll_contractEvent, scan_contractEvent. run_m.
    cbn [with_logs getBlockNumber getLogs].
    rewrite Htip. fold w. rewrite Hgt, Hiface. unfold truthy_hash.
    destruct (iface_eventTopic iface) as [topic|];
      [|cbn; repeat split; discriminate].
    destruct (nonempty topic); [|cbn; repeat split; discriminate].
    destruct (scan_logs_event params (config_of credentials) iface logs [] s)
      as [items [-> Hlen]].
    cbn [app]. rewrite <- Hlen.
    destruct items; cbn; repeat split; discriminate.
Qed.

Lemma contractEvent_skips_undecodable_witness :
  let iface :=
    {| iface_eventTopic := Some "0xddf2";
       iface_parseLog := fun log =>
         if (length (log_topics log) =? 1)%nat
         then Some (Some {| decoded_name := "Ping"; decoded_args := [] |})
         else None |} in
  let lib :=
    {| getAddress := getAddress Samples.lib; id := id Samples.lib;
       newWallet := newWallet Samples.lib;
       newInterface := fun _ => Some iface |} in
  let log (topics : list string) :=
    {| log_topics := topics; log_data := "0x"; log_blockNumber := 7;
       log_transactionHash := "0xabc"; log_index := 0 |} in
  let provider := Samples.chain 7 Samples.executed 0 in
  let s := set_lastEventBlock 5 emptyStore in
  poll lib Samples.credentials (Samples.params contractEvent)
    (with_logs [log ["0xddf2"]; log []] provider) s =
  poll lib Samples.credentials (Samples.params contractEvent)
    (with_logs (List.filter (decodable iface) [log ["0xddf2"]; log []])
       provider) s.
Proof.
  cbv zeta.
  refine (proj1 (contractEvent_skips_undecodable _ Samples.credentials
                   (Samples.params contractEvent) _ _ _ _ _ _)).
  - reflexivity.
  - reflexivity.
Defined.

(** ** ethReceived / ethSent *)

Section Eth.

Context (provider : Provider) (params : Params).
Context (config : Networks.Value).

Lemma scan_tx_items received block tx acc s acc' :
  Forall (eth_item received (watchAddress params)) acc ->
  snd (scan_tx params config received block tx acc s) = Some acc' ->
  Forall (eth_item received (watchAddress params)) acc'.
Proof.
  intros Hacc. unfold scan_tx.
  destruct (_ || _) eqn:Hmatch;
    [|cbv [ret mret M_ret]; cbn [snd]; intros [= <-]; exact Hacc].
  assert (Hside : lower_eq (if received then tx_to tx else tx_from tx)
                    (watchAddress params) = true).
  { destruct received; cbn [andb negb orb] in Hmatch.
    - now rewrite orb_false_r in Hmatch.
    - exact Hmatch. }
  run_m.
  assert (Hitem : forall valueEth,
            (tx_value tx = None \/ tx_value tx = Some 0 -> valueEth = "0") ->
            Forall (eth_item received (watchAddress params))
              (acc ++
               [EthTransferEvent (if received then "received" else "sent")
                  (tx_hash tx) (tx_from tx) (tx_to tx)
                  (BigInt.toString <$> tx_value tx) valueEth
                  (block_number block) (net config)])).
  { intros valueEth Hzero. apply Forall_snoc; [exact Hacc|].
    cbn [eth_item]. split; [reflexivity|]. split; [exact Hside|].
    intros H. apply Hzero. destruct (tx_value tx) as [v|]; [|now left].
    right. destruct H as [H|H]; [discriminate|].
    cbn in H. injection H as H.
    change "0" with (BigInt.toString 0) in H.
    now apply BigIntFacts.toString_inj in H; subst. }
  destruct (tx_value tx) as [v|] eqn:Hv.
  - destruct (v =? 0) eqn:Hz.
    + cbn [snd]. intros [= <-]. apply Hitem. reflexivity.
    + destruct (formatEther v) as [valueEth|]; cbn [snd];
        [|discriminate].
      intros [= <-]. apply Hitem.
      intros [H|H]; [discriminate|].
      injection H as ->. discriminate.
  - cbn [snd]. intros [= <-]. apply Hitem. reflexivity.
Qed.

Lemma scan_txs_items received block txs acc s acc' :
  Forall (eth_item received (watchAddress params)) acc ->
  snd (scan_txs params config received block txs acc s) = Some acc' ->
  Forall (eth_item received (watchAddress params)) acc'.
Proof.
  revert acc s. induction txs as [|tx txs IH]; intros acc s Hacc.
  - cbn. intros [= <-]. exact Hacc.
  - cbn [scan_txs]. cbv [mbind M_bind].
    pose proof (scan_tx_items received block tx acc s) as Htx.
    destruct (scan_tx params config received block tx acc s)
      as [s1 [acc1|]]; [|discriminate].
    apply IH. now apply Htx.
Qed.

Lemma scan_eth_items received n blockNum acc s acc' :
  Forall (eth_item received (watchAddress params)) acc ->
  snd (scan_eth provider params config received n blockNum acc s)
    = Some acc' ->
  Forall (eth_item received (watchAddress params)) acc'.
Proof.
  revert blockNum acc s. induction n as [|n IH]; intros blockNum acc s Hacc.
  - cbn. intros [= <-]. exact Hacc.
  - cbn [scan_eth]. cbv [mbind M_bind await].
    destruct (getBlock provider blockNum true) as [[block|]|];
      [| |discriminate].
    + pose proof (scan_txs_items received block
                    (block_prefetchedTransactions block) acc s) as Htxs.
      destruct (scan_txs params config received block _ acc s)
        as [s1 [acc1|]]; [|discriminate].
      apply IH. now apply Htxs.
    + cbv [ret mret M_ret]. apply IH. exact Hacc.
Qed.

End Eth.

(** X19: every item of an ethReceived invocation is of type [received] and
    its [to] equals the watched address up to letter case; every item of an
    ethSent invocation is of type [sent] with its [from] matching in the
    same way (a transaction without a recipient is never received).  A
    transfer of no value, or of value zero, is rendered as [0] in
    [valueEth], not as the [0.0] the formatter gives. *)
Theorem eth_items_match (lib : Library) (credentials : Credentials)
  (params : Params) (provider : Provider) (s : Store) (received : bool) :
  triggerOn params = (if received then ethReceived else ethSent) ->
  Forall (eth_item received (watchAddress params))
    (emitted (snd (poll lib credentials params provider s))).
Proof.
  intros Hkind. rewrite poll_emitted. unfold poll_body. rewrite Hkind.
  assert (H : Forall (eth_item received (watchAddress params))
                (default [] (snd (poll_eth lib provider params
                                    (config_of credentials) received s)))).
  { unfold poll_eth. destruct (negb _); [constructor|].
    run_m. destruct (getBlockNumber provider) as [c|]; [|constructor].
    destruct (c >? _); [|constructor].
    pose proof (scan_eth_items provider params (config_of credentials)
                  received
                  (Z.to_nat (c - or_number (lastCheckedBlock s) (c - 1)))
                  (or_number (lastCheckedBlock s) (c - 1) + 1) [] s) as Hscan.
    destruct (scan_eth _ _ _ _ _ _ _ _) as [s1 [items|]]; [|constructor].
    apply Hscan; [constructor|reflexivity]. }
  destruct received; exact H.
Qed.

Lemma eth_items_match_witness :
  let watch := "0xd8da6bf26964af9d7eed9e03e53415d37aa96045" in
  let tx :=
    {| tx_hash := "0xabc"; tx_from := Some "0x01";
       tx_to := Some "0xD8DA6BF26964AF9D7EED9E03E53415D37AA96045";
       tx_value := Some 0 |} in
  let block :=
    {| block_number := 7; block_hash := "0xb10c"; block_timestamp := 0;
       block_gasLimit := 1; block_gasUsed := 0;
       block_transactions := ["0xabc"];
       block_prefetchedTransactions := [tx] |} in
  let provider :=
    {| getBlockNumber := Some 7;
       getBlock := fun _ _ => Some (Some block);
       getL1BatchNumber := Some 7;
       getL1BatchDetails := Samples.executed;
       getTransactionReceipt := fun _ => Some None;
       getLogs := fun _ => Some [];
       getBalance := fun _ => Some 0 |} in
  Forall (eth_item true watch)
    (emitted (snd (poll Samples.lib Samples.credentials
                     (Samples.params ethReceived) provider
                     (set_lastCheckedBlock 6 emptyStore)))).
Proof.
  cbv zeta.
  exact (eth_items_match Samples.lib Samples.credentials
           (Samples.params ethReceived) _ _ true eq_refl).
Defined.

(** ** blockFinalized *)

Section FinalizedRange.

Context (provider : Provider) (config : Networks.Value).

Lemma scan_blockFinalized_range n batchNum acc s0 s :
  (forall x, batchNum <= x -> batch_latched s x = batch_latched s0 x) ->
  (forall i, batchNum <= i < batchNum + Z.of_nat n ->
             getL1BatchDetails provider i <> None) ->
  exists s',
    scan_blockFinalized provider config n batchNum acc s =
    (s', Some (acc ++ omap (finalized_item provider config s0)
                        (seqZ batchNum (Z.of_nat n)))) /\
    forall x,
      batch_latched s' x = true <->
      batch_latched s x = true \/
      (batchNum <= x < batchNum + Z.of_nat n /\
       finalized_item provider config s0 x <> None).
Proof.
  revert batchNum acc s. induction n as [|n IH]; intros batchNum acc s Hs H.
  - exists s. cbn [scan_blockFinalized]. run_m. rewrite app_nil_r.
    split; [reflexivity|]. intros x. split; [now left|].
    intros [Hx|[Hx _]]; [exact Hx|lia].
  - rewrite seqZ_cons by lia. cbn [scan_blockFinalized]. run_m.
    destruct (getL1BatchDetails provider batchNum) as [details|] eqn:E;
      [|exfalso; apply (H batchNum); [lia|exact E]].
    replace (Z.pred (Z.of_nat (S n))) with (Z.of_nat n) by lia.
    replace (Z.succ batchNum) with (batchNum + 1) by lia.
    cbn [omap list_omap]. unfold finalized_item at 1. rewrite E.
    change (is_set (batch_executed_ s !! batchNum))
      with (batch_latched s batchNum).
    rewrite (Hs batchNum) by lia.
    destruct (_ && _ && _) eqn:Hcond.
    + destruct (IH (batchNum + 1)
                  (acc ++ [blockFinalizedEvent config details])
                  (set_batch_executed_ batchNum true s)) as [s' [Hscan Hl]].
      { intros x Hx. rewrite batch_latched_set.
        destruct (decide (batchNum = x)); [lia|]. apply Hs. lia. }
      { intros i Hi. apply H. lia. }
      exists s'. rewrite Hscan, <- app_assoc. split; [reflexivity|].
      intros x. rewrite Hl, batch_latched_set.
      destruct (decide (batchNum = x)) as [<-|Hne].
      * split; [|now left]. intros _. right. split; [lia|].
        unfold finalized_item. rewrite E, Hcond. discriminate.
      * split; (intros [Hx|[Hx Hf]]; [now left|right; split; [lia|exact Hf]]).
    + destruct (IH (batchNum + 1) acc s) as [s' [Hscan Hl]].
      { intros x Hx. apply Hs. lia. }
      { intros i Hi. apply H. lia. }
      exists s'. rewrite Hscan. split; [reflexivity|].
      intros x. rewrite Hl. split.
      * intros [Hx|[Hx Hf]]; [now left|right; split; [lia|exact Hf]].
      * intros [Hx|[Hx Hf]]; [now left|].
        destruct (decide (batchNum = x)) as [<-|Hne];
          [|right; split; [lia|exact Hf]].
        exfalso. apply Hf. unfold finalized_item. now rewrite E, Hcond.
Qed.

End FinalizedRange.

(** X20: blockFinalized when every batch lookup of its range answers (the
    range runs from the watermark the invocation starts from, or from ten
    batches back, up to the tip).  The items handed back are, in order,
    those of the batches of the range that are verified, carry an execute
    hash and were not latched before the invocation; the tip is stored; and
    afterwards exactly the batches latched before and the batches just
    reported are latched.  With the tip at or below the watermark the range
    is empty. *)
Theorem blockFinalized_range (lib : Library) (credentials : Credentials)
  (params : Params) (provider : Provider) (s : Store) (current : Z) :
  triggerOn params = blockFinalized ->
  getL1BatchNumber provider = Some current ->
  (forall i, start_of blockFinalized s current < i <= current ->
             getL1BatchDetails provider i <> None) ->
  let s' := fst (poll lib credentials params provider s) in
  snd (poll lib credentials params provider s) =
    snd (deliver (s, Some (omap (finalized_item provider
                                   (config_of credentials) s)
                             (seqZ (start_of blockFinalized s current + 1)
                                (current - start_of blockFinalized s current)))))
  /\ lastFinalizedBatch s' = Some current
  /\ forall x,
       batch_latched s' x = true <->
       batch_latched s x = true \/
       (start_of blockFinalized s current < x <= current /\
        finalized_item provider (config_of credentials) s x <> None).
Proof.
  intros Hkind Htip H. cbv zeta. unfold start_of in *. cbn [watermark] in *.
  set (w := or_number (lastFinalizedBatch s) (current - 10)) in *.
  unfold poll, poll_body. rewrite Hkind. unfold poll_blockFinalized.
  run_m. rewrite Htip. fold w.
  destruct (scan_blockFinalized_range provider (config_of credentials)
              (Z.to_nat (current - w)) (w + 1) [] s s)
    as [s1 [Hscan Hl]].
  { reflexivity. }
  { intros i Hi. apply H. lia. }
  rewrite Hscan. cbn [app].
  assert (Hseq : seqZ (w + 1) (Z.of_nat (Z.to_nat (current - w)))
                 = seqZ (w + 1) (current - w)).
  { unfold seqZ. now rewrite Nat2Z.id. }
  rewrite Hseq. split; [|split].
  - cbn [deliver snd]. reflexivity.
  - cbn [deliver fst]. reflexivity.
  - intros x. cbn [deliver fst].
    change (batch_latched (set_lastFinalizedBatch current s1) x)
      with (batch_latched s1 x).
    rewrite Hl. split; (intros [Hx|[Hx Hf]]; [now left|right; split; [lia|exact Hf]]).
Qed.

Lemma blockFinalized_range_witness :
  let provider := Samples.chain 7 Samples.executed 0 in
  let s := set_batch_executed_ 6 true (set_lastFinalizedBatch 5 emptyStore) in
  emitted (snd (poll Samples.lib Samples.credentials
                  (Samples.params blockFinalized) provider s))
  = [BlockFinalizedEvent 7 "verified" None None (Some "0xe")
       (Some "zkSync Era Mainnet")].
Proof.
  cbv zeta.
  rewrite (proj1 (blockFinalized_range Samples.lib Samples.credentials
                    (Samples.params blockFinalized)
                    (Samples.chain 7 Samples.executed 0)
                    (set_batch_executed_ 6 true
                       (set_lastFinalizedBatch 5 emptyStore))
                    7 eq_refl eq_refl
                    (fun i _ => ltac:(discriminate)))).
  vm_compute. reflexivity.
Defined.

(** ** transactionConfirmed *)

(** X21: transactionConfirmed hands back an item exactly when the latch of
    the hash is not set, the receipt exists with a non-zero block number,
    and the tip is at least [confirmations - 1] blocks past the receipt's
    block; the latch is then set.  With the latch set nothing is asked of
    the provider, and with the receipt still missing the block number is
    not asked for: in both cases the invocation returns [null] and leaves
    the store as it was, whatever the other calls would have answered. *)
Theorem transactionConfirmed_emits_iff (lib : Library)
  (credentials : Credentials) (params : Params) (provider : Provider)
  (s : Store) :
  triggerOn params = transactionConfirmed ->
  (tx_latched s (txHash params) = true ->
   poll lib credentials params provider s = (s, Returned None)) /\
  (getTransactionReceipt provider (txHash params) = Some None ->
   poll lib credentials params provider s = (s, Returned None)) /\
  (emitted (snd (poll lib credentials params provider s)) <> [] <->
   tx_latched s (txHash params) = false /\
   exists receipt current,
     getTransactionReceipt provider (txHash params) = Some (Some receipt) /\
     receipt_blockNumber receipt <> 0 /\
     getBlockNumber provider = Some current /\
     confirmations params <= current - receipt_blockNumber receipt + 1) /\
  (emitted (snd (poll lib credentials params provider s)) <> [] ->
   fst (poll lib credentials params provider s)
     = set_tx_ (txHash params) true s).
Proof.
  intros Hkind. unfold poll, poll_body. rewrite Hkind.
  unfold poll_transactionConfirmed, tx_latched. run_m.
  destruct (is_set (tx_ s !! txHash params)); cbn [negb].
  { cbn. repeat split; try reflexivity; try (intros; congruence).
    intros [H _]. discriminate. }
  destruct (getTransactionReceipt provider (txHash params))
    as [[receipt|]|] eqn:Hr.
  - destruct (receipt_blockNumber receipt =? 0) eqn:Hbn; cbn [negb].
    + apply Z.eqb_eq in Hbn. cbn.
      repeat split; try discriminate; try (intros; congruence).
      intros (_ & r & c & [= <-] & Hne & _). contradiction.
    + apply Z.eqb_neq in Hbn.
      destruct (getBlockNumber provider) as [current|] eqn:Hc.
      * destruct (_ >=? _) eqn:Hge.
        -- cbn. repeat split; try discriminate; try (intros; congruence).
           exists receipt, current. repeat split; auto.
           rewrite Z.geb_leb in Hge. apply Z.leb_le in Hge. exact Hge.
        -- cbn. repeat split; try discriminate; try (intros; congruence).
           intros (_ & r & c & [= <-] & _ & [= <-] & Hle).
           rewrite Z.geb_leb in Hge. apply Z.leb_gt in Hge. lia.
      * cbn. repeat split; try discriminate; try (intros; congruence).
        intros (_ & r & c & _ & _ & [=] & _).
  - cbn. repeat split; try discriminate; try (intros; congruence).
    intros (_ & r & c & [=] & _).
  - cbn. repeat split; try discriminate; try (intros; congruence).
    intros (_ & r & c & [=] & _).
Qed.

Lemma transactionConfirmed_emits_iff_witness :
  let provider :=
    {| getBlockNumber := None; getBlock := fun _ _ => None;
       getL1BatchNumber := None; getL1BatchDetails := fun _ => None;
       getTransactionReceipt := fun _ => None;
       getLogs := fun _ => None; getBalance := fun _ => None |} in
  let s := set_tx_ "0xabc" true emptyStore in
  poll Samples.lib Samples.credentials (Samples.params transactionConfirmed)
    provider s = (s, Returned None).
Proof.
  cbv zeta.
  refine (proj1 (transactionConfirmed_emits_iff Samples.lib
                   Samples.credentials (Samples.params transactionConfirmed)
                   _ _ _) _).
  - reflexivity.
  - vm_compute. reflexivity.
Defined.

End TriggerMore.

Local Open Scope string_scope.
Local Open Scope list_scope.
Local Open Scope Z_scope.

(** * The first invocation and the latches *)

Module TriggerSeeds.
Import Trigger TriggerFacts TriggerSpec TriggerMore.

(** ** Scans that leave the store alone *)

Lemma oblivious_ret {A} (a : A) : oblivious (ret a).
Proof. exists (Some a). reflexivity. Qed.

Lemma oblivious_throw {A} : oblivious (@throw A).
Proof. exists None. reflexivity. Qed.

Lemma oblivious_await {A} (o : option A) : oblivious (await o).
Proof. exists o. reflexivity. Qed.

Lemma oblivious_bind {A B} (m : M A) (f : A -> M B) :
  oblivious m -> (forall a, oblivious (f a)) -> oblivious (m ≫= f).
Proof.
  intros [r Hm] Hf. destruct r as [a|].
  - destruct (Hf a) as [rb Hb]. exists rb. intros s.
    cbv [mbind M_bind]. rewrite Hm. apply Hb.
  - exists None. intros s. cbv [mbind M_bind]. now rewrite Hm.
Qed.

Section Oblivious.

Context (lib : Library) (provider : Provider).
Context (params : Params) (config : Networks.Value).

Lemma oblivious_scan_newBlock n blockNum acc :
  oblivious (scan_newBlock provider config n blockNum acc).
Proof.
  revert blockNum acc. induction n as [|n IH]; intros blockNum acc; simpl.
  - apply oblivious_ret.
  - apply oblivious_bind; [apply oblivious_await|]. intros [block|]; [|apply IH].
    apply oblivious_bind; [apply oblivious_await|]. intros item. apply IH.
Qed.

Lemma oblivious_scan_newL1Batch n batchNum acc :
  oblivious (scan_newL1Batch provider config n batchNum acc).
Proof.
  revert batchNum acc. induction n as [|n IH]; intros batchNum acc; simpl.
  - apply oblivious_ret.
  - apply oblivious_bind; [apply oblivious_await|]. intros details. apply IH.
Qed.

Lemma oblivious_scan_tx received block tx acc :
  oblivious (scan_tx params config received block tx acc).
Proof.
  unfold scan_tx. destruct (_ || _); [|apply oblivious_ret].
  apply oblivious_bind.
  - destruct (tx_value tx) as [v|]; [destruct (v =? 0)|];
      auto using oblivious_ret, oblivious_await.
  - intros v. apply oblivious_ret.
Qed.

Lemma oblivious_scan_txs received block txs acc :
  oblivious (scan_txs params config received block txs acc).
Proof.
  revert acc. induction txs as [|tx txs IH]; intros acc; simpl.
  - apply oblivious_ret.
  - apply oblivious_bind; [apply oblivious_scan_tx|]. intros evs. apply IH.
Qed.

Lemma oblivious_scan_eth received n blockNum acc :
  oblivious (scan_eth provider params config received n blockNum acc).
Proof.
  revert blockNum acc. induction n as [|n IH]; intros blockNum acc; simpl.
  - apply oblivious_ret.
  - apply oblivious_bind; [apply oblivious_await|]. intros b.
    apply oblivious_bind.
    + destruct b; [apply oblivious_scan_txs|apply oblivious_ret].
    + intros evs. apply IH.
Qed.

Lemma oblivious_scan_logs step logs acc :
  (forall log acc, oblivious (step log acc)) ->
  oblivious (scan_logs step logs acc).
Proof.
  intros Hstep. revert acc. induction logs as [|log logs IH]; intros acc; simpl.
  - apply oblivious_ret.
  - apply oblivious_bind; [apply Hstep|]. intros evs. apply IH.
Qed.

Lemma oblivious_scan_tokenLog log acc :
  oblivious (scan_tokenLog params config log acc).
Proof.
  unfold scan_tokenLog.
  repeat (apply oblivious_bind; [apply oblivious_await|intros ?]).
  destruct (passes_filter _ _ _); apply oblivious_ret.
Qed.

Lemma oblivious_scan_nftLog log acc :
  oblivious (scan_nftLog params config log acc).
Proof.
  unfold scan_nftLog. destruct (_ <=? _)%nat; [|apply oblivious_ret].
  repeat (apply oblivious_bind; [apply oblivious_await|intros ?]).
  destruct (passes_filter _ _ _); apply oblivious_ret.
Qed.

Lemma oblivious_scan_eventLog iface log acc :
  oblivious (scan_eventLog params config iface log acc).
Proof.
  unfold scan_eventLog. destruct (iface_parseLog iface log); apply oblivious_ret.
Qed.

Lemma oblivious_scan_contractEvent fromBlock toBlock :
  oblivious (scan_contractEvent lib provider params config fromBlock toBlock).
Proof.
  unfold scan_contractEvent.
  apply oblivious_bind; [apply oblivious_await|]. intros iface.
  destruct (iface_eventTopic iface) as [t|]; [|apply oblivious_ret].
  destruct (nonempty t); [|apply oblivious_ret].
  apply oblivious_bind; [apply oblivious_await|]. intros logs.
  apply oblivious_scan_logs. apply oblivious_scan_eventLog.
Qed.

Lemma oblivious_unit_scan kind current :
  guarded kind = true ->
  oblivious (unit_scan lib provider params config kind current).
Proof.
  destruct kind; try discriminate; intros _; cbn [unit_scan].
  - apply oblivious_scan_newBlock.
  - apply oblivious_scan_newL1Batch.
  - destruct (negb _); [apply oblivious_throw|apply oblivious_scan_eth].
  - destruct (negb _); [apply oblivious_throw|apply oblivious_scan_eth].
  - apply oblivious_bind; [apply oblivious_await|]. intros logs.
    apply oblivious_scan_logs. apply oblivious_scan_tokenLog.
  - apply oblivious_bind; [apply oblivious_await|]. intros logs.
    apply oblivious_scan_logs. apply oblivious_scan_nftLog.
  - apply oblivious_scan_contractEvent.
Qed.

End Oblivious.

(** ** The invocation that starts from the seed *)

Lemma or_number_same v : or_number (Some v) v = v.
Proof. unfold or_number. now destruct (v =? 0). Qed.

Local Ltac seed_arith :=
  repeat match goal with
         | |- context [?c >? ?c - 1] =>
             replace (c >? c - 1) with true
               by (symmetry; rewrite Z.gtb_ltb; apply Z.ltb_lt; lia)
         | |- context [Z.to_nat (?c - (?c - 1))] =>
             replace (Z.to_nat (c - (c - 1))) with 1%nat by lia
         | |- context [Z.to_nat (?c - (?c - 10))] =>
             replace (Z.to_nat (c - (c - 10))) with 10%nat by lia
         | |- context [?c - 1 + 1] => replace (c - 1 + 1) with c by lia
         | |- context [?c - 10 + 1] => replace (c - 10 + 1) with (c - 9) by lia
         end.

(** An invocation whose starting watermark is the seed, unfolded to the
    scan it runs. *)
Lemma poll_seeded lib credentials params provider s current :
  or_number (watermark (triggerOn params) s)
    (seed_of (triggerOn params) current)
    = seed_of (triggerOn params) current ->
  tip (triggerOn params) provider = Some current ->
  poll lib credentials params provider s =
  deliver (then_advance
             (unit_scan lib provider params (config_of credentials)
                (triggerOn params) current)
             (set_watermark (triggerOn params) current) s).
Proof.
  intros Hw Htip. unfold poll, poll_body.
  destruct (triggerOn params);
    cbn [watermark seed_of tip unit_scan set_watermark] in *;
    try discriminate;
    unfold poll_newBlock, poll_newL1Batch, poll_eth, poll_tokenTransfer,
      poll_nftTransfer, poll_contractEvent, poll_blockFinalized;
    try (destruct (negb (isValidAddress lib (watchAddress params)));
         [reflexivity|]);
    run_m; rewrite Htip, Hw; seed_arith; reflexivity.
Qed.

Lemma then_advance_oblivious (scan : M (list Event)) mark r s :
  (forall s0, scan s0 = (s0, r)) ->
  then_advance scan mark s =
  match r with
  | Some evs => (mark s, Some evs)
  | None => (s, None)
  end.
Proof. intros H. run_m. rewrite H. now destruct r. Qed.

Lemma set_watermark_twice kind v w s :
  set_watermark kind v (set_watermark kind w s) = set_watermark kind v s.
Proof. destruct kind; reflexivity. Qed.

Lemma watermark_set kind v s :
  guarded kind = true \/ kind = blockFinalized ->
  watermark kind (set_watermark kind v s) = Some v.
Proof. intros [H| ->]; [destruct kind; try discriminate|]; reflexivity. Qed.

(** ** blockFinalized and the watermark key *)

Lemma scan_blockFinalized_marked provider config n batchNum acc v s :
  scan_blockFinalized provider config n batchNum acc
    (set_lastFinalizedBatch v s) =
  (set_lastFinalizedBatch v
     (fst (scan_blockFinalized provider config n batchNum acc s)),
   snd (scan_blockFinalized provider config n batchNum acc s)).
Proof.
  revert batchNum acc s. induction n as [|n IH]; intros batchNum acc s.
  - reflexivity.
  - cbn [scan_blockFinalized]. run_m.
    destruct (getL1BatchDetails provider batchNum) as [details|];
      [|reflexivity].
    cbn [set_lastFinalizedBatch batch_executed_].
    destruct (_ && _ && _).
    + change (set_batch_executed_ batchNum true (set_lastFinalizedBatch v s))
        with (set_lastFinalizedBatch v (set_batch_executed_ batchNum true s)).
      apply IH.
    + apply IH.
Qed.

Lemma scan_blockFinalized_rejects provider config n batchNum acc s :
  (exists i, batchNum <= i < batchNum + Z.of_nat n /\
             getL1BatchDetails provider i = None) ->
  snd (scan_blockFinalized provider config n batchNum acc s) = None.
Proof.
  revert batchNum acc s.
  induction n as [|n IH]; intros batchNum acc s [i [Hi E]].
  - lia.
  - cbn [scan_blockFinalized]. run_m.
    destruct (getL1BatchDetails provider batchNum) as [details|] eqn:E0;
      [|reflexivity].
    assert (Hnext : exists i, batchNum + 1 <= i < batchNum + 1 + Z.of_nat n /\
                              getL1BatchDetails provider i = None).
    { exists i. split; [|exact E]. assert (i <> batchNum) by congruence. lia. }
    destruct (_ && _ && _); apply IH, Hnext.
Qed.

Lemma scan_blockFinalized_agree p p' config n batchNum acc s :
  (forall i, batchNum <= i ->
             getL1BatchDetails p' i = getL1BatchDetails p i) ->
  scan_blockFinalized p' config n batchNum acc s =
  scan_blockFinalized p config n batchNum acc s.
Proof.
  revert batchNum acc s. induction n as [|n IH]; intros batchNum acc s H.
  - reflexivity.
  - cbn [scan_blockFinalized]. run_m. rewrite H by lia.
    destruct (getL1BatchDetails p batchNum) as [details|]; [|reflexivity].
    destruct (_ && _ && _); apply IH; intros i Hi; apply H; lia.
Qed.

(** ** What lies before the seed is not read *)

Lemma unit_scan_agree lib p p' params config kind current s :
  agree_from (seed_of kind current + 1) p p' ->
  unit_scan lib p' params config kind current s =
  unit_scan lib p params config kind current s.
Proof.
  intros (_ & _ & Hblock & Hdetails & Hlogs).
  destruct kind; cbn [unit_scan seed_of] in *.
  - cbn [scan_newBlock]. now rewrite Hblock by lia.
  - cbn [scan_newL1Batch]. now rewrite Hdetails by lia.
  - reflexivity.
  - destruct (negb _); [reflexivity|].
    cbn [scan_eth]. now rewrite Hblock by lia.
  - destruct (negb _); [reflexivity|].
    cbn [scan_eth]. now rewrite Hblock by lia.
  - now rewrite Hlogs by (cbn; lia).
  - now rewrite Hlogs by (cbn; lia).
  - unfold scan_contractEvent. run_m.
    destruct (newInterface lib (eventAbi params)) as [iface|]; [|reflexivity].
    destruct (iface_eventTopic iface) as [topic|]; [|reflexivity].
    destruct (nonempty topic); [|reflexivity].
    now rewrite Hlogs by (cbn; lia).
  - apply scan_blockFinalized_agree. intros i Hi. apply Hdetails. lia.
  - reflexivity.
Qed.

Lemma agree_tip kind first p p' :
  agree_from first p p' -> tip kind p' = tip kind p.
Proof. intros (H1 & H2 & _). destruct kind; cbn [tip]; congruence. Qed.

Lemma tip_watermarked kind provider current :
  tip kind provider = Some current ->
  guarded kind = true \/ kind = blockFinalized.
Proof. destruct kind; cbn; auto; discriminate. Qed.

(** ** The first invocation *)

(** C8: an invocation of a watermark kind that finds no watermark stored,
    with the chain tip at [current].

    - It is the invocation that starts from the seed: with the watermark
      [current - 1] stored (for blockFinalized [current - 10]) the outcome
      is the same, and so is the resulting store unless it throws.
    - When it returns it has stored [current] as the watermark; when it
      throws there is still none.
    - Nothing before the seed is read: against any provider that answers
      alike from the block or batch after the seed on, the invocation is
      the same.
    - What comes after the seed is read: for newBlock and newL1Batch the
      one block or batch [current], whose item is handed back; for the
      transfer and event kinds the block [current], of which a rejected
      lookup makes the invocation throw and an empty one makes it return
      [null]; for blockFinalized the ten batches [current - 9 .. current],
      of which every verified, executed and not yet latched one is handed
      back, in order. *)
Theorem first_poll_seeds (lib : Library) (credentials : Credentials)
  (params : Params) (provider : Provider) (s : Store) (current : Z) :
  watermark (triggerOn params) s = None ->
  tip (triggerOn params) provider = Some current ->
  let kind := triggerOn params in
  let config := config_of credentials in
  let seeded := set_watermark kind (seed_of kind current) s in
  (snd (poll lib credentials params provider s) =
     snd (poll lib credentials params provider seeded) /\
   (snd (poll lib credentials params provider s) <> Threw ->
    fst (poll lib credentials params provider s) =
      fst (poll lib credentials params provider seeded))) /\
  (snd (poll lib credentials params provider s) <> Threw ->
   watermark kind (fst (poll lib credentials params provider s))
     = Some current) /\
  (snd (poll lib credentials params provider s) = Threw ->
   watermark kind (fst (poll lib credentials params provider s)) = None) /\
  (forall provider',
     agree_from (seed_of kind current + 1) provider provider' ->
     poll lib credentials params provider' s =
     poll lib credentials params provider s) /\
  match kind with
  | newBlock =>
      (block_ok provider current = true ->
       poll lib credentials params provider s =
       deliver (set_lastBlock current s,
                Some (omap (block_item provider config) [current]))) /\
      (block_ok provider current = false ->
       poll lib credentials params provider s = (s, Threw))
  | newL1Batch =>
      (forall details,
         getL1BatchDetails provider current = Some details ->
         poll lib credentials params provider s =
         (set_lastL1Batch current s,
          Returned (Some [NewL1BatchEvent details (net config)]))) /\
      (getL1BatchDetails provider current = None ->
       poll lib credentials params provider s = (s, Threw))
  | ethReceived | ethSent =>
      isValidAddress lib (watchAddress params) = true ->
      (getBlock provider current true = Some None ->
       poll lib credentials params provider s =
       (set_lastCheckedBlock current s, Returned None)) /\
      (getBlock provider current true = None ->
       poll lib credentials params provider s = (s, Threw))
  | tokenTransfer =>
      (getLogs provider (transferFilter lib params current current)
         = Some [] ->
       poll lib credentials params provider s =
       (set_lastTokenBlock current s, Returned None)) /\
      (getLogs provider (transferFilter lib params current current)
         = None ->
       poll lib credentials params provider s = (s, Threw))
  | nftTransfer =>
      (getLogs provider (transferFilter lib params current current)
         = Some [] ->
       poll lib credentials params provider s =
       (set_lastNftBlock current s, Returned None)) /\
      (getLogs provider (transferFilter lib params current current)
         = None ->
       poll lib credentials params provider s = (s, Threw))
  | contractEvent =>
      forall iface topic,
        newInterface lib (eventAbi params) = Some iface ->
        iface_eventTopic iface = Some topic -> nonempty topic = true ->
        (getLogs provider (eventFilter params topic current current)
           = Some [] ->
         poll lib credentials params provider s =
         (set_lastEventBlock current s, Returned None)) /\
        (getLogs provider (eventFilter params topic current current)
           = None ->
         poll lib credentials params provider s = (s, Threw))
  | blockFinalized =>
      ((forall i, current - 10 < i <= current ->
                  getL1BatchDetails provider i <> None) ->
       snd (poll lib credentials params provider s) =
       snd (deliver (s, Some (omap (finalized_item provider config s)
                                (seqZ (current - 9) 10))))) /\
      ((exists i, current - 10 < i <= current /\
                  getL1BatchDetails provider i = None) ->
       snd (poll lib credentials params provider s) = Threw)
  | transactionConfirmed | balanceChange => True
  end.
Proof.
  intros Hw Htip. cbv zeta.
  pose proof (tip_watermarked _ _ _ Htip) as Hkind.
  assert (Hseed : or_number (watermark (triggerOn params) s)
                    (seed_of (triggerOn params) current)
                  = seed_of (triggerOn params) current)
    by now rewrite Hw.
  pose proof (poll_seeded lib credentials params provider s current
                Hseed Htip) as Hpoll.
  assert (Hseeded :
    poll lib credentials params provider
      (set_watermark (triggerOn params)
         (seed_of (triggerOn params) current) s) =
    deliver (then_advance
               (unit_scan lib provider params (config_of credentials)
                  (triggerOn params) current)
               (set_watermark (triggerOn params) current)
               (set_watermark (triggerOn params)
                  (seed_of (triggerOn params) current) s))).
  { apply poll_seeded; [|exact Htip].
    rewrite watermark_set by exact Hkind. apply or_number_same. }
  assert (Hagree : forall provider',
    agree_from (seed_of (triggerOn params) current + 1) provider provider' ->
    poll lib credentials params provider' s =
    poll lib credentials params provider s).
  { intros provider' Hag. rewrite Hpoll.
    rewrite (poll_seeded lib credentials params provider' s current Hseed)
      by (rewrite (agree_tip _ _ _ _ Hag); exact Htip).
    f_equal. run_m. now rewrite (unit_scan_agree _ _ _ _ _ _ _ _ Hag). }
  assert (Hfirst :
    (snd (poll lib credentials params provider s) =
       snd (poll lib credentials params provider
              (set_watermark (triggerOn params)
                 (seed_of (triggerOn params) current) s)) /\
     (snd (poll lib credentials params provider s) <> Threw ->
      fst (poll lib credentials params provider s) =
        fst (poll lib credentials params provider
               (set_watermark (triggerOn params)
                  (seed_of (triggerOn params) current) s)))) /\
    (snd (poll lib credentials params provider s) <> Threw ->
     watermark (triggerOn params)
       (fst (poll lib credentials params provider s)) = Some current) /\
    (snd (poll lib credentials params provider s) = Threw ->
     watermark (triggerOn params)
       (fst (poll lib credentials params provider s)) = None)).
  { rewrite Hpoll, Hseeded. destruct Hkind as [Hg|Hbf].
    - destruct (oblivious_unit_scan lib provider params
                  (config_of credentials) _ current Hg) as [r Hr].
      rewrite !(then_advance_oblivious _ _ r) by exact Hr.
      pose proof (watermark_set (triggerOn params) current s (or_introl Hg))
        as Hset.
      destruct r as [[|e evs]|]; cbn [deliver fst snd];
        rewrite ?set_watermark_twice;
        repeat split; try reflexivity; try congruence.
    - rewrite Hbf in *. cbn [unit_scan set_watermark seed_of watermark] in *.
      run_m. rewrite scan_blockFinalized_marked.
      pose proof (scan_blockFinalized_cursors provider
                    (config_of credentials) 10 (current - 9) [] s) as Hc.
      destruct (scan_blockFinalized _ _ _ _ _ s) as [s1 r].
      cbn [fst snd] in *.
      destruct Hc as (_ & _ & _ & _ & _ & _ & Hlast & _).
      destruct r as [[|e evs]|]; cbn [deliver fst snd];
        repeat split; try reflexivity; try congruence. }
  destruct Hfirst as (HA & HB & HB').
  split; [exact HA|]. split; [exact HB|]. split; [exact HB'|].
  split; [exact Hagree|].
  clear HA HB HB' Hagree Hseeded Hseed Hkind.
  destruct (triggerOn params); cbn [unit_scan set_watermark] in Hpoll;
    try exact I.
  - rewrite scan_newBlock_one in Hpoll. rewrite Hpoll.
    unfold block_ok, block_item. cbn [omap list_omap].
    destruct (getBlock provider current false) as [[block|]|].
    + pose proof (newBlockEvent_valid (config_of credentials) block) as Hv.
      destruct (newBlockEvent (config_of credentials) block);
        split; intros Hok; try reflexivity; congruence.
    + split; intros Hok; [reflexivity|discriminate].
    + split; intros Hok; [discriminate|reflexivity].
  - rewrite scan_newL1Batch_one in Hpoll. rewrite Hpoll.
    split.
    + intros details ->. reflexivity.
    + intros ->. reflexivity.
  - intros Hvalid. rewrite Hpoll, Hvalid. cbn [negb scan_eth]. run_m.
    split; intros ->; reflexivity.
  - intros Hvalid. rewrite Hpoll, Hvalid. cbn [negb scan_eth]. run_m.
    split; intros ->; reflexivity.
  - rewrite Hpoll. run_m. split; intros ->; reflexivity.
  - rewrite Hpoll. run_m. split; intros ->; reflexivity.
  - intros iface topic Hiface Htopic Hne. rewrite Hpoll.
    unfold scan_contractEvent. run_m. rewrite Hiface, Htopic, Hne.
    split; intros ->; reflexivity.
  - rewrite Hpoll. split.
    + intros H.
      destruct (scan_blockFinalized_range provider (config_of credentials)
                  10 (current - 9) [] s s) as [s1 [Hscan _]].
      { reflexivity. }
      { intros i Hi. apply H. lia. }
      run_m. rewrite Hscan. cbn [app].
      change (Z.of_nat 10) with 10.
      now destruct (omap _ _).
    + intros [i [Hi E]].
      pose proof (scan_blockFinalized_rejects provider
                    (config_of credentials) 10 (current - 9) [] s) as Hrej.
      run_m. destruct (scan_blockFinalized _ _ _ _ _ s) as [s1 r].
      cbn [snd] in Hrej. rewrite Hrej; [reflexivity|].
      exists i. split; [lia|exact E].
Qed.

Lemma first_poll_seeds_witness :
  let provider := Samples.chain 20 Samples.executed 0 in
  snd (poll Samples.lib Samples.credentials (Samples.params blockFinalized)
         provider emptyStore) =
  snd (deliver (emptyStore,
                Some (omap (finalized_item provider
                              (config_of Samples.credentials) emptyStore)
                        (seqZ (20 - 9) 10)))) /\
  watermark blockFinalized
    (fst (poll Samples.lib Samples.credentials (Samples.params blockFinalized)
            provider emptyStore)) = Some 20.
Proof.
  cbv zeta.
  pose proof (first_poll_seeds Samples.lib Samples.credentials
                (Samples.params blockFinalized)
                (Samples.chain 20 Samples.executed 0) emptyStore 20
                eq_refl eq_refl) as H.
  cbv zeta in H. destruct H as (_ & HB & _ & _ & HD).
  split.
  - apply (proj1 HD). intros i _. discriminate.
  - apply HB. vm_compute. discriminate.
Defined.

End TriggerSeeds.

(** * The one-shot latches *)

Module TriggerLatches.
Import Trigger TriggerFacts TriggerSpec TriggerMore.

(** A transaction latch that is set stays set, whatever is invoked. *)
Lemma tx_latch_kept lib credentials params provider s h :
  tx_latched s h = true ->
  tx_latched (fst (poll lib credentials params provider s)) h = true.
Proof.
  intros Hl.
  pose proof (poll_store_step lib credentials params provider s) as Hstep.
  unfold store_step in Hstep.
  destruct (triggerOn params);
    try (destruct Hstep as [->|[c [_ ->]]]; exact Hl);
    try (destruct Hstep as [->|[b ->]]; exact Hl).
  - destruct Hstep as [-> | ->]; [exact Hl|].
    rewrite tx_latched_set. now destruct (decide (txHash params = h)).
  - destruct Hstep as (_ & _ & _ & _ & _ & _ & _ & Htx).
    unfold tx_latched in *. now rewrite Htx.
Qed.

(** One invocation that watches [h]: it emits at most one item, none with
    the latch of [h] set, and an item sets the latch. *)
Lemma poll_asks_tx lib i s h :
  asks_tx h i = true ->
  latch_step (tx_latched s h)
    (tx_latched (fst (poll lib (inv_credentials i) (inv_params i)
                        (inv_provider i) s)) h)
    (length (emitted (snd (poll lib (inv_credentials i) (inv_params i)
                             (inv_provider i) s)))).
Proof.
  unfold asks_tx.
  destruct (triggerOn (inv_params i)) eqn:Hk; try discriminate.
  intros Heq. apply String.eqb_eq in Heq.
  unfold poll, poll_body. rewrite Hk.
  unfold poll_transactionConfirmed. run_m. rewrite Heq.
  fold (tx_latched s h).
  destruct (tx_latched s h) eqn:Hl; cbn [negb deliver fst snd emitted length];
    [rewrite Hl; apply latch_step_idle|].
  destruct (getTransactionReceipt (inv_provider i) h) as [[r|]|];
    cbn [deliver fst snd emitted length];
    try (rewrite Hl; apply latch_step_idle).
  destruct (negb _); cbn [deliver fst snd emitted length];
    [|rewrite Hl; apply latch_step_idle].
  destruct (getBlockNumber (inv_provider i)) as [c|];
    cbn [deliver fst snd emitted length];
    [|rewrite Hl; apply latch_step_idle].
  destruct (_ >=? _); cbn [deliver fst snd emitted length];
    [|rewrite Hl; apply latch_step_idle].
  rewrite tx_latched_set. destruct (decide (h = h)); [|congruence].
  split; [discriminate|]. split; [lia|reflexivity].
Qed.

Lemma emitted_by_cons p i invs o os :
  emitted_by p (i :: invs) (o :: os) =
  (if p i then emitted o else []) ++ emitted_by p invs os.
Proof. reflexivity. Qed.

Lemma run_asks_tx lib invs s h :
  latch_step (tx_latched s h) (tx_latched (fst (run lib invs s)) h)
    (length (emitted_by (asks_tx h) invs (snd (run lib invs s)))).
Proof.
  revert s. induction invs as [|i invs IH]; intros s.
  - apply latch_step_idle.
  - cbn [run].
    pose proof (poll_asks_tx lib i s h) as Hask.
    pose proof (tx_latch_kept lib (inv_credentials i) (inv_params i)
                  (inv_provider i) s h) as Hkept.
    destruct (poll lib (inv_credentials i) (inv_params i) (inv_provider i) s)
      as [s1 o].
    specialize (IH s1). destruct (run lib invs s1) as [s2 os].
    cbn [fst snd] in *. rewrite emitted_by_cons, length_app.
    eapply latch_step_trans; [|exact IH].
    destruct (asks_tx h i); [now apply Hask|].
    cbn [length]. split; [intros Hl; split; [reflexivity|now apply Hkept]|].
    split; [lia|discriminate].
Qed.

(** C5: over any run of invocations — any kinds, any parameters, any
    providers, any store to begin with — the invocations that watch a
    transaction hash [h] hand back at most one item between them, and none
    once the latch of [h] is set.  When moreover every provider answers
    about what it was asked — the details of batch [n] carry the number
    [n], the receipt of [h] carries the hash [h] letter for letter — at
    most one item reports a given transaction hash and at most one a given
    batch number, and none reports a hash or a batch whose latch is
    set. *)
Theorem one_shot_latches (lib : Library) (invs : list Invocation) (s : Store) :
  (forall h,
     (length (emitted_by (asks_tx h) invs (snd (run lib invs s))) <= 1)%nat /\
     (tx_latched s h = true ->
      emitted_by (asks_tx h) invs (snd (run lib invs s)) = [])) /\
  (Forall (fun i => coherent (inv_provider i)) invs ->
   (forall h,
      (count (is_tx_event h) (all_emitted (snd (run lib invs s))) <= 1)%nat /\
      (tx_latched s h = true ->
       count (is_tx_event h) (all_emitted (snd (run lib invs s))) = 0%nat)) /\
   (forall b,
      (count (is_batch_event b) (all_emitted (snd (run lib invs s))) <= 1)%nat /\
      (batch_latched s b = true ->
       count (is_batch_event b) (all_emitted (snd (run lib invs s))) = 0%nat))).
Proof.
  split.
  - intros h. destruct (run_asks_tx lib invs s h) as (HA & HB & _).
    split; [exact HB|]. intros Hl. destruct (HA Hl) as [Hlen _].
    now apply length_zero_iff_nil.
  - intros H. destruct (run_latches lib invs s H) as [Hb Ht].
    split; intros x.
    + destruct (Ht x) as (HA & HB & _). split; [exact HB|].
      intros E. now apply HA.
    + destruct (Hb x) as (HA & HB & _). split; [exact HB|].
      intros E. now apply HA.
Qed.

Lemma one_shot_latches_witness :
  let mined h :=
    {| receipt_hash := h; receipt_status := 1; receipt_blockNumber := 5;
       receipt_from := "0x01"; receipt_to := None;
       receipt_gasUsed := 21000 |} in
  let provider tip :=
    {| getBlockNumber := Some tip;
       getBlock := fun n _ => Some (Some (Samples.block n));
       getL1BatchNumber := Some tip;
       getL1BatchDetails := Samples.executed;
       getTransactionReceipt := fun h => Some (Some (mined h));
       getLogs := fun _ => Some [];
       getBalance := fun _ => Some 0 |} in
  let invs :=
    [Samples.invocation transactionConfirmed (provider 7);
     Samples.invocation blockFinalized (provider 7);
     Samples.invocation transactionConfirmed (provider 8);
     Samples.invocation blockFinalized (provider 9)] in
  let s := set_lastFinalizedBatch 5 emptyStore in
  (forall h,
     (count (is_tx_event h) (all_emitted (snd (run Samples.lib invs s))) <= 1)%nat /\
     (tx_latched s h = true ->
      count (is_tx_event h) (all_emitted (snd (run Samples.lib invs s))) = 0%nat)) /\
  (forall b,
     (count (is_batch_event b) (all_emitted (snd (run Samples.lib invs s))) <= 1)%nat /\
     (batch_latched s b = true ->
      count (is_batch_event b) (all_emitted (snd (run Samples.lib invs s))) = 0%nat)).
Proof.
  cbv zeta. apply one_shot_latches.
  repeat (constructor;
          [split;
           [intros n d [= <-]; reflexivity|intros h r [= <-]; reflexivity]|]).
  constructor.
Defined.

(** C5, the run on which the claim as first stated fails: the same
    transaction watched under two spellings of its hash, against a node
    that answers with the hash in lower case.  The latch is kept under the
    spelling of the parameter, so the second spelling finds none, and two
    items report the one hash. *)
Lemma one_shot_latches_case_variants :
  let mined :=
    {| receipt_hash := "0xabc"; receipt_status := 1; receipt_blockNumber := 5;
       receipt_from := "0x01"; receipt_to := None;
       receipt_gasUsed := 21000 |} in
  let provider :=
    {| getBlockNumber := Some 7;
       getBlock := fun n _ => Some (Some (Samples.block n));
       getL1BatchNumber := Some 7;
       getL1BatchDetails := Samples.executed;
       getTransactionReceipt := fun _ => Some (Some mined);
       getLogs := fun _ => Some [];
       getBalance := fun _ => Some 0 |} in
  let watch h :=
    {| inv_credentials := Samples.credentials;
       inv_params :=
         {| triggerOn := transactionConfirmed; txHash := h;
            confirmations := 1; watchAddress := ""; contractAddress := "";
            filterAddress := ""; eventAbi := "" |};
       inv_provider := provider |} in
  let os := snd (run Samples.lib [watch "0xABC"; watch "0xabc"] emptyStore) in
  count (is_tx_event "0xabc") (all_emitted os) = 2%nat /\
  tx_latched (fst (run Samples.lib [watch "0xABC"] emptyStore)) "0xABC" = true /\
  tx_latched (fst (run Samples.lib [watch "0xABC"] emptyStore)) "0xabc" = false.
Proof. vm_compute. repeat split. Qed.

End TriggerLatches.

